(** * A shallow embedding of the OneDrive and pCloud backends

    The development follows [backend/onedrive/onedrive.go] and
    [backend/pcloud/pcloud.go].  Go strings are byte strings and are
    embedded as [string] (one [ascii] per byte); [int64] values are
    integers of [Z] with the wrap-around written out where the code can
    reach it; maps are [gmap]s.  Calls to the provider go through an
    explicit world that records every request. *)

From Stdlib Require Import ZArith Reals Lra Lia String Ascii List Bool.
From stdpp Require Import gmap strings list fin_maps.

Open Scope string_scope.
Open Scope Z_scope.

(** ** The Go standard library functions used by the backends *)

Module GoStrings.

(** [strings.Replace(s, old, new, -1)] for a non-empty [old]: the
    non-overlapping occurrences of [old] are replaced from left to
    right.  [skip] counts the bytes of an occurrence already consumed.
    Both call sites pass a non-empty [old]. *)
Fixpoint replaceFrom (old new : string) (skip : nat) (s : string) : string :=
  match s with
  | EmptyString => EmptyString
  | String c s' =>
      match skip with
      | S k => replaceFrom old new k s'
      | O =>
          if String.prefix old s
          then new +:+ replaceFrom old new (String.length old - 1) s'
          else String c (replaceFrom old new 0 s')
      end
  end.

Definition Replace (s old new : string) : string := replaceFrom old new 0 s.

(** [strings.Index(s, sub) >= 0], which is [strings.Contains]. *)
Fixpoint Contains (s sub : string) : bool :=
  match s with
  | EmptyString => String.prefix sub EmptyString
  | String _ s' => String.prefix sub s || Contains s' sub
  end.

(** [strings.Trim(s, "/")]. *)
Fixpoint trimLeft (c : ascii) (s : string) : string :=
  match s with
  | EmptyString => EmptyString
  | String a s' => if Ascii.eqb a c then trimLeft c s' else s
  end.

Fixpoint trimRight (c : ascii) (s : string) : string :=
  match s with
  | EmptyString => EmptyString
  | String a s' =>
      match trimRight c s' with
      | EmptyString => if Ascii.eqb a c then EmptyString else String a EmptyString
      | t => String a t
      end
  end.

Definition Trim (s : string) (c : ascii) : string := trimRight c (trimLeft c s).

(** [strings.Split(s, sep)] for a separator of one byte. *)
Fixpoint Split (s : string) (sep : ascii) : list string :=
  match s with
  | EmptyString => [EmptyString]
  | String c s' =>
      if Ascii.eqb c sep then EmptyString :: Split s' sep
      else match Split s' sep with
           | h :: t => String c h :: t
           | [] => [String c EmptyString]
           end
  end.

(** The slices [s[:n]] and [s[n:]], clipped to the length of [s]. *)
Fixpoint take (n : nat) (s : string) : string :=
  match n, s with
  | S k, String c s' => String c (take k s')
  | _, _ => EmptyString
  end.

Fixpoint drop (n : nat) (s : string) : string :=
  match n, s with
  | S k, String _ s' => drop k s'
  | _, _ => s
  end.

(** Membership of a byte in a string. *)
Fixpoint occurs (c : ascii) (s : string) : bool :=
  match s with
  | EmptyString => false
  | String a s' => Ascii.eqb a c || occurs c s'
  end.

End GoStrings.

(** ** Errors and HTTP responses *)

(** The values of Go's [error] interface that the two backends produce
    or compare against.  A nil error is [None] of [option error]. *)
Inductive error : Type :=
| ErrorIsFile                    (* fs.ErrorIsFile *)
| ErrorObjectNotFound            (* fs.ErrorObjectNotFound *)
| ErrorDirNotFound               (* fs.ErrorDirNotFound *)
| ErrorNotAFile                  (* fs.ErrorNotAFile *)
| ErrorDirExists                 (* fs.ErrorDirExists *)
| ErrorCantDirMove               (* fs.ErrorCantDirMove *)
| ErrorNew (msg : string)        (* errors.New, errors.Errorf *)
| ErrorWrap (cause : error) (msg : string)       (* errors.Wrap *)
| PcloudError (Result : Z) (ErrorString : string)  (* pcloud *api.Error *)
| OnedriveError (Code : string)                  (* onedrive *api.Error *)
| TransportError (msg : string). (* what the HTTP client returns *)

Definition isErrorObjectNotFound (e : error) : bool :=
  match e with ErrorObjectNotFound => true | _ => false end.

Definition isErrorDirNotFound (e : error) : bool :=
  match e with ErrorDirNotFound => true | _ => false end.


(** The fields of [http.Response] the backends read. *)
Record Response : Type := mkResponse {
  StatusCode : Z;
  Header : gmap string (list string);
}.


(** ** The pacer *)

Module Pacer.

(** Modelled from the spec: the state of [lib/pacer], which is not
    among the sources: the current sleep interval, its bounds, the
    decay constant and the retry budget.  Durations are in
    nanoseconds. *)
Record State : Type := mkState {
  minSleep : R;
  maxSleep : R;
  decayConstant : nat;
  sleepTime : R;
  retries : nat;
}.

(** Modelled from the spec: the backoff algorithm of [lib/pacer]; on
    failure [sleep = min(MaxSleep, sleep * 2)]. *)
Definition grow (p : State) : State :=
  {| minSleep := minSleep p; maxSleep := maxSleep p;
     decayConstant := decayConstant p;
     sleepTime := Rmin (maxSleep p) (sleepTime p * 2);
     retries := retries p |}.

(** Modelled from the spec: the backoff algorithm of [lib/pacer]; on
    success [sleep = max(MinSleep, sleep / 2^(1/DecayConstant))]. *)
Definition decayFactor (d : nat) : R := Rpower 2 (1 / INR d).

Definition shrink (p : State) : State :=
  {| minSleep := minSleep p; maxSleep := maxSleep p;
     decayConstant := decayConstant p;
     sleepTime := Rmax (minSleep p) (sleepTime p / decayFactor (decayConstant p));
     retries := retries p |}.

(** Modelled from the spec: [pacer.New().SetMinSleep(min).SetMaxSleep(max).
    SetDecayConstant(d)] of [lib/pacer]; the pacer starts at rest, with
    the sleep interval at its lower bound.  [budget] is the retry
    budget the pacer is created with. *)
Definition configure (budget : nat) (min max : R) (d : nat) : State :=
  {| minSleep := min; maxSleep := max; decayConstant := d;
     sleepTime := min; retries := budget |}.

(** The sleep interval respects its bounds. *)
Definition bounded (p : State) : Prop :=
  (minSleep p <= sleepTime p <= maxSleep p)%R.

(** The state after [n] consecutive retryable failures, and after [n]
    consecutive successes. *)
Definition afterFailures (n : nat) (p : State) : State := Nat.iter n grow p.
Definition afterSuccesses (n : nat) (p : State) : State := Nat.iter n shrink p.

(** The bounds and the decay constant of [p] are those of [q]. *)
Definition sameSettings (p q : State) : Prop :=
  minSleep p = minSleep q /\ maxSleep p = maxSleep q /\
  decayConstant p = decayConstant q.

(** [time.Millisecond] and [time.Second] in nanoseconds. *)
Definition Millisecond : R := 1000000.
Definition Second : R := 1000000000.

End Pacer.

(** ** The directory cache: state and cache reads *)

Module DirCacheState.

(** Modelled from the spec: the root resolution state of
    [lib/dircache], which is not among the sources. *)
Inductive RootState : Type :=
| Unresolved
| ResolvedAsDirectory
| ResolvedAsParentOfFile.

(** Modelled from the spec: the data of a [dircache.DirCache]: the
    forward and inverse mappings between relative paths and directory
    identifiers and the root resolution state. *)
Record t : Type := mk {
  cache : gmap string string;
  invCache : gmap string string;
  trueRootID : string;
  root : string;
  rootID : string;
  rootState : RootState;
}.

Definition slash : ascii := "/"%char.

(** The ordered segments of a canonical relative path; the empty
    string is the root and has no segment. *)
Definition segments (path : string) : list string :=
  match path with
  | EmptyString => []
  | _ => GoStrings.Split path slash
  end.

Fixpoint isPrefix (l1 l2 : list string) : bool :=
  match l1, l2 with
  | [], _ => true
  | _ :: _, [] => false
  | x :: l1', y :: l2' => String.eqb x y && isPrefix l1' l2'
  end.

(** Modelled from the spec: path [p] lies under subtree [s]
    (inclusive). *)
Definition under (s p : string) : bool := isPrefix (segments s) (segments p).

(** Modelled from the spec: [dircache.SplitPath], the split of a path
    into (parent directory, leaf) at its last separator. *)
Fixpoint lastSlashSplit (s : string) : option (string * string) :=
  match s with
  | EmptyString => None
  | String c s' =>
      match lastSlashSplit s' with
      | Some (d, l) => Some (String c d, l)
      | None => if Ascii.eqb c slash then Some (EmptyString, s') else None
      end
  end.

Definition SplitPath (path : string) : string * string :=
  match lastSlashSplit path with
  | Some (d, l) => (d, l)
  | None => (EmptyString, path)
  end.

Definition joinPath (parent leaf : string) : string :=
  match parent with
  | EmptyString => leaf
  | _ => parent +:+ "/" +:+ leaf
  end.

(** Modelled from the spec: [Get] and [GetInv], pure cache reads. *)
Definition Get (dc : t) (path : string) : option string := cache dc !! path.
Definition GetInv (dc : t) (id : string) : option string := invCache dc !! id.

(** Modelled from the spec: [FoundRoot], true only if the root
    resolved to [ResolvedAsDirectory]. *)
Definition FoundRoot (dc : t) : bool :=
  match rootState dc with
  | ResolvedAsDirectory => true
  | _ => false
  end.

Definition withMaps (dc : t) (c i : gmap string string) : t :=
  {| cache := c; invCache := i; trueRootID := trueRootID dc; root := root dc;
     rootID := rootID dc; rootState := rootState dc |}.

(** Modelled from the spec: [Put], which inserts a known mapping; the
    two mappings stay mutual inverses, so the entries the new pair
    displaces are dropped. *)
Definition Put (dc : t) (path id : string) : t :=
  let c := match invCache dc !! id with
           | Some oldPath => delete oldPath (cache dc)
           | None => cache dc
           end in
  let i := match cache dc !! path with
           | Some oldID => delete oldID (invCache dc)
           | None => invCache dc
           end in
  withMaps dc (<[path := id]> c) (<[id := path]> i).

(** Modelled from the spec: [FlushDir], which evicts every cached
    entry whose path lies under [dir] (inclusive). *)
Definition FlushDir (dc : t) (dir : string) : t :=
  withMaps dc
    (filter (fun e : string * string => under dir (fst e) = false) (cache dc))
    (filter (fun e : string * string => under dir (snd e) = false) (invCache dc)).

(** Modelled from the spec: [New]; a cache is created [Unresolved],
    resolving paths from the true root. *)
Definition New (root trueRootID : string) : t :=
  {| cache := {[ EmptyString := trueRootID ]};
     invCache := {[ trueRootID := EmptyString ]};
     trueRootID := trueRootID; root := root;
     rootID := trueRootID; rootState := Unresolved |}.

(** Modelled from the spec: [ResetRoot], which clears the entire cache
    and resets the root resolution state to [Unresolved]. *)
Definition ResetRoot (dc : t) : t := New (root dc) (trueRootID dc).

(** The state a successful [FindRoot] leaves: the paths of the cache
    are relative to the resolved root from then on. *)
Definition resolved (dc : t) (id : string) : t :=
  {| cache := {[ EmptyString := id ]};
     invCache := {[ id := EmptyString ]};
     trueRootID := trueRootID dc; root := root dc;
     rootID := id; rootState := ResolvedAsDirectory |}.

End DirCacheState.

(** ** Requests, replies and the world *)

(** The fields of [rest.Opts] the backends set. *)
Record Opts : Type := mkOpts {
  Method : string;
  Path : string;
  RootURL : string;
  Parameters : list (string * string);
  ExtraHeaders : list (string * string);
  ContentType : string;
  ContentLength : option Z;
  ContentRange : string;
  TransferEncoding : list string;
  NoResponse : bool;
}.

Definition emptyOpts : Opts :=
  {| Method := ""; Path := ""; RootURL := ""; Parameters := [];
     ExtraHeaders := []; ContentType := ""; ContentLength := None;
     ContentRange := ""; TransferEncoding := []; NoResponse := false |}.

Module OnedriveApi.
(** What the getters of [api.Item] return ([GetID], [GetName],
    [GetFolder], [GetFile], [GetSize], [GetFileSystemInfo],
    [GetLastModifiedDateTime]) and the [Deleted] facet. *)
Record Item : Type := mkItem {
  ID : string;
  Name : string;
  Folder : option Z;            (* the folder facet: its ChildCount *)
  File : option (string * string * string); (* MimeType, Sha1Hash, QuickXorHash *)
  Deleted : bool;
  Size : Z;
  FileSystemInfo : option (Z * Z); (* CreatedDateTime, LastModifiedDateTime *)
  CreatedDateTime : Z;
  LastModifiedDateTime : Z;
}.

Definition emptyItem : Item :=
  {| ID := ""; Name := ""; Folder := None; File := None; Deleted := false;
     Size := 0; FileSystemInfo := None; CreatedDateTime := 0;
     LastModifiedDateTime := 0 |}.
End OnedriveApi.

Module PcloudApi.
Record Item : Type := mkItem {
  ID : string;
  Name : string;
  IsFolder : bool;
  Size : Z;
  ModTime : Z;
}.

Definition emptyItem : Item :=
  {| ID := ""; Name := ""; IsFolder := false; Size := 0; ModTime := 0 |}.

Record Hashes : Type := mkHashes { SHA1 : string; MD5 : string }.

(** The [Result] and [ErrorString] of an [api.Error]. *)
Definition Error : Type := (Z * string)%type.
End PcloudApi.

(** The JSON value sent with a request. *)
Inductive JsonRequest : Type :=
| NoJson
| CreateItemRequest (name conflictBehavior : string)
| MoveItemRequest (name parentID : string) (created modified : Z)
| CreateUploadRequest (created modified : Z).

(** The decoded body of a reply. *)
Inductive Payload : Type :=
| NoPayload
| OnedriveItemPayload (i : OnedriveApi.Item)
| OnedriveListPayload (value : list OnedriveApi.Item) (nextLink : string)
| OnedriveUploadPayload (uploadURL : string)
| PcloudItemPayload (e : PcloudApi.Error) (metadata : PcloudApi.Item)
                    (contents : list PcloudApi.Item)
| PcloudUploadPayload (e : PcloudApi.Error) (items : list PcloudApi.Item)
                      (checksums : list PcloudApi.Hashes).

(** What one call of the REST client returns, and how many bytes of the
    request body it read. *)
Record Reply : Type := mkReply {
  resp : option Response;
  err : option error;
  payload : Payload;
  bodyRead : nat;
}.

(** What the program does that can be observed from outside. *)
Inductive Event : Type :=
| EvCall (opts : Opts) (json : JsonRequest) (body : string)
| EvSeek (offset : Z)
| EvLog (msg : string)
| EvRenewStart
| EvRenewStop.

(** Functions of the Go standard library and of packages outside the
    two backends whose code the backends only call. *)
Class Env : Type := {
  (** [fserrors.ShouldRetry]: the generic retryable network failures. *)
  fserrors_ShouldRetry : option error -> bool;
  (** [path.Join] of two elements. *)
  path_Join : string -> string -> string;
  (** [rest.URLPathEscape]. *)
  URLPathEscape : string -> string;
  (** [replaceReservedChars] and [restoreReservedChars] of the onedrive
      package, defined in a file other than onedrive.go. *)
  onedrive_replaceReservedChars : string -> string;
  onedrive_restoreReservedChars : string -> string;
  (** [Update] of the pcloud [api.Error]. *)
  pcloud_Error_Update : PcloudApi.Error -> option error -> option error;
  (** [rest.MultipartUpload] followed by [ioutil.ReadAll]: the error of
      the first, or the error of the second, or the form body and its
      content type. *)
  rest_MultipartUpload :
    string -> list (string * string) -> string -> string ->
    error + (error + string * string);
  (** [fs.MimeType] of an object, from its remote name. *)
  fs_MimeType : string -> string;
  (** [fmt.Sprintf] of the [Content-Range] header and of an integer. *)
  formatContentRange : Z -> Z -> Z -> string;
  formatInt : Z -> string;
  (** [base64.StdEncoding.DecodeString] followed by [hex.EncodeToString]. *)
  base64ToHex : string -> option string;
  (** [strings.ToLower]. *)
  ToLower : string -> string;
  (** The provider: a state and what it replies to a request. *)
  Server : Type;
  serve : Server -> Opts -> JsonRequest -> string -> Server * Reply;
  (** The retry budget pacers are created with. *)
  lowLevelRetries : nat;
}.

Module Fserrors.
(** Modelled from the spec: [fserrors.ShouldRetryHTTP], which is not
    among the sources; a response is retried when its status is one
    of the transient codes it is given. *)
Definition ShouldRetryHTTP (resp : option Response) (retryErrorCodes : list Z) : bool :=
  match resp with
  | None => false
  | Some r => existsb (Z.eqb (StatusCode r)) retryErrorCodes
  end.
End Fserrors.

(** [resp != nil && resp.StatusCode == 401 &&
     len(resp.Header["Www-Authenticate"]) == 1 &&
     strings.Index(resp.Header["Www-Authenticate"][0], "expired_token") >= 0],
    the condition both backends test. *)
Definition expiredToken (resp : option Response) : bool :=
  match resp with
  | None => false
  | Some r =>
      (StatusCode r =? 401) &&
      match default [] (Header r !! "Www-Authenticate") with
      | [h] => GoStrings.Contains h "expired_token"
      | _ => false
      end
  end.

(** ** The world and the monad of the backends *)

Section World.
Context `{Env}.

(** The provider, what has been observed so far, and the pacers and
    directory caches, which the code reaches through pointers. *)
Record World : Type := mkWorld {
  server : Server;
  trace : list Event;
  pacers : gmap nat Pacer.State;
  nextPacer : nat;
  caches : gmap nat DirCacheState.t;
  nextCache : nat;
}.

(** A computation returns a value and a new world, or stops the
    program (a nil dereference, [log.Fatalf]), or runs out of the fuel
    its loops were given. *)
Inductive Res (A : Type) : Type :=
| Done (a : A) (w : World)
| Crashed (msg : string) (w : World)
| OutOfFuel.
Arguments Done {A} a w.
Arguments Crashed {A} msg w.
Arguments OutOfFuel {A}.

Definition M (A : Type) : Type := World -> Res A.

Definition ret {A} (a : A) : M A := fun w => Done a w.

Definition bind {A B} (m : M A) (k : A -> M B) : M B :=
  fun w => match m w with
           | Done a w' => k a w'
           | Crashed msg w' => Crashed msg w'
           | OutOfFuel => OutOfFuel
           end.

Definition outOfFuel {A} : M A := fun _ => OutOfFuel.

Definition crash {A} (msg : string) : M A := fun w => Crashed msg w.

Definition emit (e : Event) : M unit :=
  fun w => Done tt {| server := server w; trace := (trace w ++ [e])%list;
                      pacers := pacers w; nextPacer := nextPacer w;
                      caches := caches w; nextCache := nextCache w |}.

(** One call of the REST client: [srv.Call] or [srv.CallJSON]. *)
Definition call (opts : Opts) (json : JsonRequest) (body : string) : M Reply :=
  fun w =>
    let '(s, r) := serve (server w) opts json body in
    Done r {| server := s; trace := (trace w ++ [EvCall opts json body])%list;
              pacers := pacers w; nextPacer := nextPacer w;
              caches := caches w; nextCache := nextCache w |}.

Definition restingPacer : Pacer.State := Pacer.configure 0 0 0 0.

Definition getPacer (p : nat) : M Pacer.State :=
  fun w => Done (default restingPacer (pacers w !! p)) w.

Definition modifyPacer (p : nat) (f : Pacer.State -> Pacer.State) : M unit :=
  fun w => Done tt {| server := server w; trace := trace w;
                      pacers := <[p := f (default restingPacer (pacers w !! p))]>
                                  (pacers w);
                      nextPacer := nextPacer w;
                      caches := caches w; nextCache := nextCache w |}.

Definition allocPacer (st : Pacer.State) : M nat :=
  fun w => Done (nextPacer w)
             {| server := server w; trace := trace w;
                pacers := <[nextPacer w := st]> (pacers w);
                nextPacer := S (nextPacer w);
                caches := caches w; nextCache := nextCache w |}.

Definition emptyCache : DirCacheState.t := DirCacheState.New "" "".

(** Reading and writing the directory cache behind a pointer. *)
Definition readCache (dc : nat) : M DirCacheState.t :=
  fun w => Done (default emptyCache (caches w !! dc)) w.

Definition writeCache (dc : nat) (st : DirCacheState.t) : M unit :=
  fun w => Done tt {| server := server w; trace := trace w;
                      pacers := pacers w; nextPacer := nextPacer w;
                      caches := <[dc := st]> (caches w);
                      nextCache := nextCache w |}.

Definition allocCache (st : DirCacheState.t) : M nat :=
  fun w => Done (nextCache w)
             {| server := server w; trace := trace w;
                pacers := pacers w; nextPacer := nextPacer w;
                caches := <[nextCache w := st]> (caches w);
                nextCache := S (nextCache w) |}.

End World.

Arguments Done {_ A} a w.
Arguments Crashed {_ A} msg w.
Arguments OutOfFuel {_ A}.

Notation "x <- m ;; k" := (bind m (fun x => k))
  (at level 60, m at next level, right associativity).
Notation "'let*' p ':=' m 'in' k" := (bind m (fun p => k))
  (at level 10, p pattern, m at level 100, k at level 200).
Notation "m ;;; k" := (bind m (fun _ => k))
  (at level 60, right associativity).

Module PacerCall.
Section WithEnv.
Context `{Env}.

(** Modelled from the spec: [Call] of [lib/pacer].  The attempt is
    invoked; when it asks for a retry the interval grows and, if
    the retry budget remains, the attempt is invoked again;
    otherwise the interval shrinks and the error of the attempt is
    returned unchanged.  [p] is the pacer, [st] carries the
    variables the closure captures. *)
Fixpoint attempts {St : Type} (p : nat)
  (fn : St -> M (St * bool * option error))
  (budget : nat) (st : St) : M (St * option error) :=
  let* (st', retry, e) := fn st in
  if (retry : bool) then
    modifyPacer p Pacer.grow ;;;
    match budget with
    | O => ret (st', e)
    | S k => attempts p fn k st'
    end
  else
    modifyPacer p Pacer.shrink ;;;
    ret (st', e).

Definition Call {St : Type} (p : nat)
  (fn : St -> M (St * bool * option error))
  (st : St) : M (St * option error) :=
  ps <- getPacer p ;;
  attempts p fn (Pacer.retries ps) st.

(** Modelled from the spec: [CallNoRetry] of [lib/pacer], which
    invokes the attempt exactly once. *)
Definition CallNoRetry {St : Type} (p : nat)
  (fn : St -> M (St * bool * option error))
  (st : St) : M (St * option error) :=
  attempts p fn 0 st.

(** Modelled from the spec: [pacer.New()] with the three setters. *)
Definition New (min max : R) (d : nat) : M nat :=
  allocPacer (Pacer.configure lowLevelRetries min max d).
End WithEnv.
End PacerCall.

Module DirCache.
Import DirCacheState.
Section WithFs.
Context `{Env}.
(** The capability the backend supplies. *)
Variable FindLeaf : string -> string -> M (string * bool * option error).
Variable CreateDir : string -> string -> M (string * option error).

(** Modelled from the spec: [FindDir] of [lib/dircache]; for each
    segment the cache is checked, falling back to [FindLeaf], then
    to [CreateDir] when [create] is set, and failing with
    [ErrorDirNotFound] otherwise; every resolution is cached. *)
Fixpoint findSegments (dc : nat) (create : bool) (parent parentID : string)
  (segs : list string) : M (string * option error) :=
  match segs with
  | [] => ret (parentID, None)
  | leaf :: rest =>
      let path := joinPath parent leaf in
      st <- readCache dc ;;
      match Get st path with
      | Some id => findSegments dc create path id rest
      | None =>
          let* (id, found, e) := FindLeaf parentID leaf in
          match e with
          | Some e' => ret ("", Some e')
          | None =>
              if (found : bool) then
                st1 <- readCache dc ;;
                writeCache dc (Put st1 path id) ;;;
                findSegments dc create path id rest
              else if create then
                let* (newID, e2) := CreateDir parentID leaf in
                match e2 with
                | Some e' => ret ("", Some e')
                | None =>
                    st1 <- readCache dc ;;
                    writeCache dc (Put st1 path newID) ;;;
                    findSegments dc create path newID rest
                end
              else ret ("", Some ErrorDirNotFound)
          end
      end
  end.

Definition FindDir (dc : nat) (path : string) (create : bool)
  : M (string * option error) :=
  st <- readCache dc ;;
  findSegments dc create "" (rootID st) (segments path).

(** Modelled from the spec: [FindRoot] of [lib/dircache]; the
    configured root is resolved once, from the true root. *)
Definition FindRoot (dc : nat) (create : bool) : M (option error) :=
  st <- readCache dc ;;
  if FoundRoot st then ret None
  else
    let* (id, e) := FindDir dc (root st) create in
    match e with
    | Some e' => ret (Some e')
    | None =>
        st1 <- readCache dc ;;
        writeCache dc (resolved st1 id) ;;;
        ret None
    end.

(** Modelled from the spec: [FindPath] of [lib/dircache]; only the
    parent directory is resolved. *)
Definition FindPath (dc : nat) (path : string) (create : bool)
  : M (string * string * option error) :=
  let '(directory, leaf) := SplitPath path in
  let* (directoryID, e) := FindDir dc directory create in
  ret (leaf, directoryID, e).

(** Modelled from the spec: [FindRootAndPath], [FindRoot] then
    [FindPath]. *)
Definition FindRootAndPath (dc : nat) (path : string) (create : bool)
  : M (string * string * option error) :=
  e <- FindRoot dc create ;;
  match e with
  | Some e' => ret ("", "", Some e')
  | None => FindPath dc path create
  end.
End WithFs.

Section Plain.
Context `{Env}.

Definition New (root trueRootID : string) : M nat :=
  allocCache (DirCacheState.New root trueRootID).

Definition PutM (dc : nat) (path id : string) : M unit :=
  st <- readCache dc ;; writeCache dc (Put st path id).

Definition FlushDirM (dc : nat) (dir : string) : M unit :=
  st <- readCache dc ;; writeCache dc (FlushDir st dir).

Definition ResetRootM (dc : nat) : M unit :=
  st <- readCache dc ;; writeCache dc (ResetRoot st).
End Plain.
End DirCache.

(** ** Readers *)

Module Readers.
Import GoStrings.

(** [readers.NewRepeatableReader(io.LimitReader(in, n))]: the bytes
    already pulled from [in], the read offset in them, and what the
    limit still allows to pull. *)
Record RepeatableReader : Type := mkReader {
  buf : string;
  pos : nat;
  limit : nat;
}.

Definition NewRepeatableReader (n : Z) : RepeatableReader :=
  {| buf := ""; pos := 0; limit := Z.to_nat n |}.

(** [Seek(0, io.SeekStart)]. *)
Definition SeekStart (r : RepeatableReader) : RepeatableReader :=
  {| buf := buf r; pos := 0; limit := limit r |}.

(** The bytes a body read to its end yields, given the rest of [in]. *)
Definition offered (r : RepeatableReader) (inp : string) : string :=
  drop (pos r) (buf r) +:+ take (limit r) inp.

(** All the bytes of the fragment: those already pulled and those the
    limit still allows to pull. *)
Definition content (r : RepeatableReader) (inp : string) : string :=
  buf r +:+ take (limit r) inp.

(** Reading [k] bytes, or as many as there are. *)
Definition read (k : nat) (r : RepeatableReader) (inp : string)
  : RepeatableReader * string :=
  let inBuf := (String.length (buf r) - pos r)%nat in
  if (k <=? inBuf)%nat then
    ({| buf := buf r; pos := (pos r + k)%nat; limit := limit r |}, inp)
  else
    let j := Nat.min (k - inBuf) (Nat.min (limit r) (String.length inp)) in
    ({| buf := buf r +:+ take j inp;
        pos := (String.length (buf r) + j)%nat;
        limit := (limit r - j)%nat |}, drop j inp).
End Readers.

(** [int64] arithmetic wraps around. *)
Definition wrap64 (z : Z) : Z := (z + 2 ^ 63) mod 2 ^ 64 - 2 ^ 63.

Definition isSome {A} (o : option A) : bool :=
  match o with Some _ => true | None => false end.

(** ** The OneDrive backend *)

Module Onedrive.
Import GoStrings OnedriveApi.

Definition minSleep : R := (10 * Pacer.Millisecond)%R.
Definition maxSleep : R := (2 * Pacer.Second)%R.
Definition decayConstant : nat := 2.
Definition graphURL : string := "https://graph.microsoft.com/v1.0".

Record Options : Type := mkOptions {
  ChunkSize : Z;
  DriveID : string;
  DriveType : string;
}.

(** The fields of [Fs] that are data; [dirCache] and [pacer] are
    pointers, the connection is the server of the world. *)
Record Fs : Type := mkFs {
  name : string;
  root : string;
  opt : Options;
  dirCache : nat;
  pacer : nat;
  driveID : string;
  driveType : string;
}.

Record Object : Type := mkObject {
  fs : Fs;
  remote : string;
  hasMetaData : bool;
  size : Z;
  modTime : Z;
  id : string;
  sha1 : string;
  quickxorhash : string;
  mimeType : string;
}.

Inductive DirEntry : Type :=
| EntryDir (remote : string) (modTime : Z) (id : string) (items : Z)
| EntryObject (o : Object).

(** What [configstruct.Set] and [oauthutil.NewClient] make of the
    configuration [m]. *)
Record Config : Type := mkConfig {
  parsed : error + Options;
  oauthError : option error;
}.

Section WithEnv.
Context `{Env}.

Definition parsePath (path : string) : string := Trim path "/".

Definition retryErrorCodes : list Z := [429; 500; 502; 503; 504; 509].

Definition shouldRetry (resp : option Response) (err : option error)
  : bool * option error :=
  let authRety := expiredToken resp in
  (authRety || fserrors_ShouldRetry err
     || Fserrors.ShouldRetryHTTP resp retryErrorCodes, err).

Definition parseDirID (ID : string) : string * string * string :=
  if Contains ID "#" then
    match Split ID "#" with
    | s0 :: s1 :: _ => (s1, s0, graphURL +:+ "/drives")
    | _ => (ID, "", "")
    end
  else (ID, "", "").

Definition newOptsCall (id method route : string) : Opts :=
  let '(id, drive, rootURL) := parseDirID id in
  match drive with
  | EmptyString =>
      {| Method := method; Path := "/items/" +:+ id +:+ route; RootURL := "";
         Parameters := []; ExtraHeaders := []; ContentType := "";
         ContentLength := None; ContentRange := ""; TransferEncoding := [];
         NoResponse := false |}
  | _ =>
      {| Method := method; Path := "/" +:+ drive +:+ "/items/" +:+ id +:+ route;
         RootURL := rootURL;
         Parameters := []; ExtraHeaders := []; ContentType := "";
         ContentLength := None; ContentRange := ""; TransferEncoding := [];
         NoResponse := false |}
  end.

Definition withMethodPath (method path : string) : Opts :=
  {| Method := method; Path := path; RootURL := "";
     Parameters := []; ExtraHeaders := []; ContentType := "";
     ContentLength := None; ContentRange := ""; TransferEncoding := [];
     NoResponse := false |}.

(** What [CallJSON] decodes into an [*api.Item]. *)
Definition decodeItem (p : Payload) (old : option Item) : option Item :=
  match p with
  | OnedriveItemPayload i => Some i
  | _ => old
  end.

Definition readMetaDataForPath (f : Fs) (path : string)
  : M (option Item * option Response * option error) :=
  let opts :=
    match path with
    | EmptyString => withMethodPath "GET" "/root"
    | _ => withMethodPath "GET"
             ("/root:/" +:+ URLPathEscape (onedrive_replaceReservedChars path))
    end in
  let* (st, e) :=
    PacerCall.Call (pacer f)
      (fun st : option Item * option Response =>
         r <- call opts NoJson "" ;;
         let '(retry, e) := shouldRetry (resp r) (err r) in
         ret ((decodeItem (payload r) (fst st), resp r), retry, e))
      (None, None) in
  ret (fst st, snd st, e).

Definition rootSlash (f : Fs) : string :=
  match root f with
  | EmptyString => root f
  | _ => root f +:+ "/"
  end.

Definition setMetaData (o : Object) (info : Item) : Object * option error :=
  match Folder info with
  | Some _ => (o, Some (ErrorWrap ErrorNotAFile (remote o)))
  | None =>
      let '(mime, s1, qx) :=
        match File info with
        | Some (m, sha, q) =>
            (m,
             match sha with EmptyString => sha1 o | _ => ToLower sha end,
             match q with
             | EmptyString => quickxorhash o
             | _ => match base64ToHex q with
                    | Some h => h
                    | None => quickxorhash o
                    end
             end)
        | None => (mimeType o, sha1 o, quickxorhash o)
        end in
      ({| fs := fs o; remote := remote o; hasMetaData := true;
          size := Size info;
          modTime := match FileSystemInfo info with
                     | Some (_, m) => m
                     | None => LastModifiedDateTime info
                     end;
          id := ID info; sha1 := s1; quickxorhash := qx; mimeType := mime |},
       None)
  end.

Definition srvPath (o : Object) : string :=
  onedrive_replaceReservedChars (rootSlash (fs o) +:+ remote o).

Definition readMetaData (o : Object) : M (Object * option error) :=
  if hasMetaData o then ret (o, None)
  else
    let* (info, _, e) := readMetaDataForPath (fs o) (srvPath o) in
    match e with
    | Some (OnedriveError "itemNotFound") => ret (o, Some ErrorObjectNotFound)
    | Some e' => ret (o, Some e')
    | None =>
        match info with
        | None => crash "nil item"
        | Some i => ret (setMetaData o i)
        end
    end.

Definition newObject (f : Fs) (remote : string) : Object :=
  {| fs := f; remote := remote; hasMetaData := false; size := 0; modTime := 0;
     id := ""; sha1 := ""; quickxorhash := ""; mimeType := "" |}.

Definition newObjectWithInfo (f : Fs) (remote : string) (info : option Item)
  : M (option Object * option error) :=
  let o := newObject f remote in
  let* (o', e) :=
    match info with
    | Some i => ret (setMetaData o i)
    | None => readMetaData o
    end in
  match e with
  | Some e' => ret (None, Some e')
  | None => ret (Some o', None)
  end.

Definition FindLeaf (f : Fs) (pathID leaf : string)
  : M (string * bool * option error) :=
  dc <- readCache (dirCache f) ;;
  match DirCacheState.GetInv dc pathID with
  | None => ret ("", false, Some (ErrorNew "couldn't find parent ID"))
  | Some parent =>
      let path := match parent with
                  | EmptyString => leaf
                  | _ => parent +:+ "/" +:+ leaf
                  end in
      let path := if DirCacheState.FoundRoot dc then rootSlash f +:+ path
                  else path in
      let* (info, r, e) := readMetaDataForPath f path in
      match e with
      | Some e' =>
          match r with
          | Some r' => if StatusCode r' =? 404 then ret ("", false, None)
                       else ret ("", false, Some e')
          | None => ret ("", false, Some e')
          end
      | None =>
          match info with
          | None => crash "nil item"
          | Some i =>
              match Folder i with
              | None => ret ("", false,
                             Some (ErrorNew "found file when looking for folder"))
              | Some _ => ret (ID i, true, None)
              end
          end
      end
  end.

Definition CreateDir (f : Fs) (dirID leaf : string) : M (string * option error) :=
  let opts := newOptsCall dirID "POST" "/children" in
  let mkdir := CreateItemRequest (onedrive_replaceReservedChars leaf) "fail" in
  let* (st, e) :=
    PacerCall.Call (pacer f)
      (fun st : option Item * option Response =>
         r <- call opts mkdir "" ;;
         let '(retry, e) := shouldRetry (resp r) (err r) in
         ret ((decodeItem (payload r) (fst st), resp r), retry, e))
      (None, None) in
  match e with
  | Some e' => ret ("", Some e')
  | None =>
      match fst st with
      | None => crash "nil item"
      | Some i => ret (ID i, None)
      end
  end.

(** The directory cache operations of an [Fs]. *)
Definition FindRoot (f : Fs) := DirCache.FindRoot (FindLeaf f) (CreateDir f) (dirCache f).
Definition FindDir (f : Fs) := DirCache.FindDir (FindLeaf f) (CreateDir f) (dirCache f).
Definition FindPath (f : Fs) := DirCache.FindPath (FindLeaf f) (CreateDir f) (dirCache f).
Definition FindRootAndPath (f : Fs) :=
  DirCache.FindRootAndPath (FindLeaf f) (CreateDir f) (dirCache f).

Definition withName (i : Item) (n : string) : Item :=
  {| ID := ID i; Name := n; Folder := Folder i; File := File i;
     Deleted := Deleted i; Size := Size i; FileSystemInfo := FileSystemInfo i;
     CreatedDateTime := CreatedDateTime i;
     LastModifiedDateTime := LastModifiedDateTime i |}.

(** The inner loop of [listAll] over one page; [acc] carries the
    variables the callback captures.  The result is [true] when the
    callback asked to stop. *)
Fixpoint listItems {Acc : Type} (directoriesOnly filesOnly : bool)
  (fn : Acc -> Item -> M (Acc * bool)) (items : list Item) (acc : Acc)
  : M (Acc * bool) :=
  match items with
  | [] => ret (acc, false)
  | item :: rest =>
      let isFolder := isSome (Folder item) in
      if (if isFolder then filesOnly else directoriesOnly) then
        listItems directoriesOnly filesOnly fn rest acc
      else if Deleted item then
        listItems directoriesOnly filesOnly fn rest acc
      else
        let item' := withName item (onedrive_restoreReservedChars (Name item)) in
        let* (acc', stop) := fn acc item' in
        if (stop : bool) then ret (acc', true)
        else listItems directoriesOnly filesOnly fn rest acc'
  end.

Definition decodeList (p : Payload) (old : list Item * string)
  : list Item * string :=
  match p with
  | OnedriveListPayload value nextLink => (value, nextLink)
  | _ => old
  end.

Definition withRootURL (o : Opts) (url : string) : Opts :=
  {| Method := Method o; Path := ""; RootURL := url;
     Parameters := Parameters o; ExtraHeaders := ExtraHeaders o;
     ContentType := ContentType o; ContentLength := ContentLength o;
     ContentRange := ContentRange o; TransferEncoding := TransferEncoding o;
     NoResponse := NoResponse o |}.

(** The page loop of [listAll]; [fuel] bounds the number of pages. *)
Fixpoint listPages {Acc : Type} (fuel : nat) (f : Fs) (opts : Opts)
  (directoriesOnly filesOnly : bool)
  (fn : Acc -> Item -> M (Acc * bool)) (acc : Acc)
  : M (Acc * bool * option error) :=
  match fuel with
  | O => outOfFuel
  | S k =>
      let* (st, e) :=
        PacerCall.Call (pacer f)
          (fun st : (list Item * string) * option Response =>
             r <- call opts NoJson "" ;;
             let '(retry, e) := shouldRetry (resp r) (err r) in
             ret ((decodeList (payload r) (fst st), resp r), retry, e))
          (([], ""), None) in
      match e with
      | Some e' => ret (acc, false, Some (ErrorWrap e' "couldn't list files"))
      | None =>
          let '(value, nextLink) := fst st in
          match value with
          | [] => ret (acc, false, None)
          | _ =>
              let* (acc', found) :=
                listItems directoriesOnly filesOnly fn value acc in
              if (found : bool) then ret (acc', true, None)
              else
                match nextLink with
                | EmptyString => ret (acc', false, None)
                | _ => listPages k f (withRootURL opts nextLink)
                         directoriesOnly filesOnly fn acc'
                end
          end
      end
  end.

Definition listAll {Acc : Type} (fuel : nat) (f : Fs) (dirID : string)
  (directoriesOnly filesOnly : bool)
  (fn : Acc -> Item -> M (Acc * bool)) (acc : Acc)
  : M (Acc * bool * option error) :=
  listPages fuel f (newOptsCall dirID "GET" "/children?$top=1000")
    directoriesOnly filesOnly fn acc.

(** The callback of [List]: [acc] is [(entries, iErr)]. *)
Definition listEntry (f : Fs) (dir : string)
  (acc : list DirEntry * option error) (info : Item)
  : M ((list DirEntry * option error) * bool) :=
  let remote := path_Join dir (Name info) in
  match Folder info with
  | Some childCount =>
      DirCache.PutM (dirCache f) remote (ID info) ;;;
      ret (((fst acc ++ [EntryDir remote (LastModifiedDateTime info) (ID info)
                           childCount])%list, snd acc), false)
  | None =>
      let* (o, e) := newObjectWithInfo f remote (Some info) in
      match e, o with
      | Some e', _ => ret ((fst acc, Some e'), true)
      | None, Some o' => ret (((fst acc ++ [EntryObject o'])%list, snd acc), false)
      | None, None => crash "nil object"
      end
  end.

Definition List (fuel : nat) (f : Fs) (dir : string)
  : M (list DirEntry * option error) :=
  e <- FindRoot f false ;;
  match e with
  | Some e' => ret ([], Some e')
  | None =>
      let* (directoryID, e) := FindDir f dir false in
      match e with
      | Some e' => ret ([], Some e')
      | None =>
          let* (acc, _, e) :=
            listAll fuel f directoryID false false (listEntry f dir) ([], None) in
          match e, snd acc with
          | Some e', _ => ret ([], Some e')
          | None, Some e' => ret ([], Some e')
          | None, None => ret (fst acc, None)
          end
      end
  end.

Definition withDirCache (f : Fs) (dc : nat) (r : string) : Fs :=
  {| name := name f; root := r; opt := opt f; dirCache := dc;
     pacer := pacer f; driveID := driveID f; driveType := driveType f |}.

(** [opt.ChunkSize%(320*1024) != 0], with Go's remainder. *)
Definition misaligned (chunkSize : Z) : bool :=
  negb (Z.rem chunkSize (320 * 1024) =? 0).

(** [NewFs] after the chunk size check. *)
Definition connect (name root : string) (opt : Options) (m : Config)
  : M (option Fs * option error) :=
  if String.eqb (DriveID opt) "" || String.eqb (DriveType opt) "" then
    crash "Unable to get drive_id and drive_type"
  else
    let root := parsePath root in
    match oauthError m with
    | Some _ => crash "Failed to configure OneDrive"
    | None =>
        p <- PacerCall.New minSleep maxSleep decayConstant ;;
        let f := {| name := name; root := root; opt := opt;
                    dirCache := O; pacer := p;
                    driveID := DriveID opt; driveType := DriveType opt |} in
        let* (rootInfo, _, e) := readMetaDataForPath f "" in
        match e, rootInfo with
        | Some e', _ => ret (None, Some (ErrorWrap e' "failed to get root"))
        | None, None => crash "nil item"
        | None, Some info =>
            if String.eqb (ID info) "" then ret (None, None)
            else
              dc <- DirCache.New root (ID info) ;;
              let f := withDirCache f dc root in
              e <- FindRoot f false ;;
              match e with
              | None => ret (Some f, None)
              | Some _ =>
                  let '(newRoot, remote) := DirCacheState.SplitPath root in
                  dc' <- DirCache.New newRoot (ID info) ;;
                  let newF := withDirCache f dc' newRoot in
                  e <- FindRoot newF false ;;
                  match e with
                  | Some _ => ret (Some f, None)
                  | None =>
                      let* (_, e) := newObjectWithInfo newF remote None in
                      match e with
                      | Some e' =>
                          if isErrorObjectNotFound e' then ret (Some f, None)
                          else ret (None, Some e')
                      | None => ret (Some newF, Some ErrorIsFile)
                      end
                  end
              end
        end
    end.

Definition NewFs (name root : string) (m : Config)
  : M (option Fs * option error) :=
  match parsed m with
  | inl e => ret (None, Some e)
  | inr opt =>
      if misaligned (ChunkSize opt) then
        ret (None, Some (ErrorNew ("chunk size " +:+ formatInt (ChunkSize opt)
                                   +:+ " is not a multiple of 320k")))
      else connect name root opt m
  end.

Definition withNoResponse (o : Opts) : Opts :=
  {| Method := Method o; Path := Path o; RootURL := RootURL o;
     Parameters := Parameters o; ExtraHeaders := ExtraHeaders o;
     ContentType := ContentType o; ContentLength := ContentLength o;
     ContentRange := ContentRange o; TransferEncoding := TransferEncoding o;
     NoResponse := true |}.

Definition deleteObject (f : Fs) (id : string) : M (option error) :=
  let opts := withNoResponse (newOptsCall id "DELETE" "") in
  let* (_, e) :=
    PacerCall.Call (pacer f)
      (fun st : unit =>
         r <- call opts NoJson "" ;;
         let '(retry, e) := shouldRetry (resp r) (err r) in
         ret (tt, retry, e))
      tt in
  ret e.

(** [purgeCheck] up to and including the deletion request: the
    error it returns with, or [None] when the directory is gone. *)
Definition purgeRequest (f : Fs) (dir : string) (check : bool) : M (option error) :=
  let root := path_Join (root f) dir in
  match root with
  | EmptyString => ret (Some (ErrorNew "can't purge root directory"))
  | _ =>
      e <- FindRoot f false ;;
      match e with
      | Some e' => ret (Some e')
      | None =>
          let* (rootID, e) := FindDir f dir false in
          match e with
          | Some e' => ret (Some e')
          | None =>
              let* (item, _, e) := readMetaDataForPath f root in
              match e, item with
              | Some e', _ => ret (Some e')
              | None, None => crash "nil item"
              | None, Some i =>
                  match Folder i with
                  | None => ret (Some (ErrorNew "not a folder"))
                  | Some childCount =>
                      if check && negb (childCount =? 0) then
                        ret (Some (ErrorNew "folder not empty"))
                      else deleteObject f rootID
                  end
              end
          end
      end
  end.

Definition purgeCheck (f : Fs) (dir : string) (check : bool) : M (option error) :=
  e <- purgeRequest f dir check ;;
  match e with
  | Some e' => ret (Some e')
  | None => DirCache.FlushDirM (dirCache f) dir ;;; ret None
  end.

Definition Rmdir (f : Fs) (dir : string) : M (option error) := purgeCheck f dir true.

Definition Purge (f : Fs) : M (option error) := purgeCheck f "" false.

(** [DirMove] up to and including the move request: the error it
    returns with, or the source [Fs] when the directory has been
    moved.  [src] is [None] for a remote of another type. *)
Definition moveRequest (f : Fs) (src : option Fs) (srcRemote dstRemote : string)
  : M (error + Fs) :=
  match src with
  | None => ret (inl ErrorCantDirMove)
  | Some srcFs =>
      let srcPath := path_Join (root srcFs) srcRemote in
      let dstPath := path_Join (root f) dstRemote in
      if String.eqb srcPath "" || String.eqb dstPath "" then
        ret (inl (ErrorNew "can't move root directory"))
      else
        e <- FindRoot srcFs false ;;
        match e with
        | Some e' => ret (inl e')
        | None =>
            e <- (if String.eqb dstRemote "" then
                    dc <- readCache (dirCache f) ;;
                    if DirCacheState.FoundRoot dc then ret (Some ErrorDirExists)
                    else ret None
                  else FindRoot f true) ;;
            match e with
            | Some e' => ret (inl e')
            | None =>
                let findPath := if String.eqb dstRemote "" then root f
                                else dstRemote in
                let* (leaf, dstDirectoryID, e) := FindPath f findPath true in
                match e with
                | Some e' => ret (inl e')
                | None =>
                    let '(parsedDstDirID, _, _) := parseDirID dstDirectoryID in
                    e <- (if String.eqb dstRemote "" then ret None
                          else
                            let* (_, e) := FindDir f dstRemote false in
                            match e with
                            | Some e' => if isErrorDirNotFound e' then ret None
                                         else ret (Some e')
                            | None => ret (Some ErrorDirExists)
                            end) ;;
                    match e with
                    | Some e' => ret (inl e')
                    | None =>
                        let* (srcID, e) := FindDir srcFs srcRemote false in
                        match e with
                        | Some e' => ret (inl e')
                        | None =>
                            let* (srcInfo, _, e) :=
                              readMetaDataForPath srcFs srcPath in
                            match e, srcInfo with
                            | Some e', _ => ret (inl e')
                            | None, None => crash "nil item"
                            | None, Some info =>
                                let opts := newOptsCall srcID "PATCH" "" in
                                let move :=
                                  MoveItemRequest
                                    (onedrive_replaceReservedChars leaf)
                                    parsedDstDirID
                                    (CreatedDateTime info)
                                    (LastModifiedDateTime info) in
                                let* (_, e) :=
                                  PacerCall.Call (pacer f)
                                    (fun st : option Item * option Response =>
                                       r <- call opts move "" ;;
                                       let '(retry, e) :=
                                         shouldRetry (resp r) (err r) in
                                       ret ((decodeItem (payload r) (fst st),
                                             resp r), retry, e))
                                    (None, None) in
                                match e with
                                | Some e' => ret (inl e')
                                | None => ret (inr srcFs)
                                end
                            end
                        end
                    end
                end
            end
        end
  end.

Definition DirMove (f : Fs) (src : option Fs) (srcRemote dstRemote : string)
  : M (option error) :=
  r <- moveRequest f src srcRemote dstRemote ;;
  match r with
  | inl e => ret (Some e)
  | inr srcFs => DirCache.FlushDirM (dirCache srcFs) srcRemote ;;; ret None
  end.

Definition DirCacheFlush (f : Fs) : M unit := DirCache.ResetRootM (dirCache f).

(** *** Chunked upload *)

Definition decodeSession (p : Payload) (old : option string) : option string :=
  match p with
  | OnedriveUploadPayload url => Some url
  | _ => old
  end.

(** The result is the [UploadURL] of the session the provider made. *)
Definition createUploadSession (o : Object) (modTime : Z)
  : M (option string * option error) :=
  let* (leaf, directoryID, _) := FindPath (fs o) (remote o) false in
  let '(id, drive, rootURL) := parseDirID directoryID in
  let opts :=
    match drive with
    | EmptyString =>
        withMethodPath "POST"
          ("/root:/" +:+ URLPathEscape (srvPath o) +:+ ":/createUploadSession")
    | _ =>
        {| Method := "POST";
           Path := "/" +:+ drive +:+ "/items/" +:+ id +:+ ":/"
                   +:+ URLPathEscape leaf +:+ ":/createUploadSession";
           RootURL := rootURL;
           Parameters := []; ExtraHeaders := []; ContentType := "";
           ContentLength := None; ContentRange := ""; TransferEncoding := [];
           NoResponse := false |}
    end in
  let createRequest := CreateUploadRequest modTime modTime in
  let* (st, e) :=
    PacerCall.Call (pacer (fs o))
      (fun st : option string * option Response =>
         r <- call opts createRequest "" ;;
         let '(retry, e) := shouldRetry (resp r) (err r) in
         ret ((decodeSession (payload r) (fst st), resp r), retry, e))
      (None, None) in
  ret (fst st, e).

Definition fragmentOpts (url : string) (start totalSize chunkSize : Z) : Opts :=
  {| Method := "PUT"; Path := ""; RootURL := url;
     Parameters := []; ExtraHeaders := []; ContentType := "";
     ContentLength := Some chunkSize;
     ContentRange :=
       formatContentRange start (wrap64 (start + chunkSize - 1)) totalSize;
     TransferEncoding := []; NoResponse := false |}.

(** [json.NewDecoder(resp.Body).Decode(info)]. *)
Definition decodeBody (p : Payload) : Item * option error :=
  match p with
  | OnedriveItemPayload i => (i, None)
  | _ => (emptyItem, Some (ErrorNew "invalid JSON"))
  end.

(** The closure [uploadFragment] hands to the pacer: the variables
    it captures are [info], the reader [chunk] and the stream [in]
    behind it. *)
Definition fragmentAttempt (opts : Opts)
  (st : option Item * Readers.RepeatableReader * string)
  : M ((option Item * Readers.RepeatableReader * string) * bool * option error) :=
  let '(info, chunk, inp) := st in
  let chunk := Readers.SeekStart chunk in
  emit (EvSeek 0) ;;;
  r <- call opts NoJson (Readers.offered chunk inp) ;;
  let '(chunk, inp) := Readers.read (bodyRead r) chunk inp in
  let '(retry, e) := shouldRetry (resp r) (err r) in
  match retry, resp r with
  | false, Some rs =>
      if (StatusCode rs =? 200) || (StatusCode rs =? 201) then
        let '(i, de) := decodeBody (payload r) in
        ret ((Some i, chunk, inp), false, de)
      else ret ((info, chunk, inp), retry, e)
  | _, _ => ret ((info, chunk, inp), retry, e)
  end.

(** The result carries what is left of the stream [in]. *)
Definition uploadFragment (o : Object) (url : string) (start totalSize : Z)
  (chunk : Readers.RepeatableReader) (inp : string) (chunkSize : Z)
  : M (option Item * option error * string) :=
  let opts := fragmentOpts url start totalSize chunkSize in
  let* (st, e) :=
    PacerCall.Call (pacer (fs o)) (fragmentAttempt opts) (None, chunk, inp) in
  let '(info, _, inp') := st in
  ret (info, e, inp').

Definition cancelOpts (url : string) : Opts :=
  {| Method := "DELETE"; Path := ""; RootURL := url;
     Parameters := []; ExtraHeaders := []; ContentType := "";
     ContentLength := None; ContentRange := ""; TransferEncoding := [];
     NoResponse := true |}.

Definition cancelUploadSession (o : Object) (url : string) : M (option error) :=
  let opts := cancelOpts url in
  let* (_, e) :=
    PacerCall.Call (pacer (fs o))
      (fun st : unit =>
         r <- call opts NoJson "" ;;
         let '(retry, e) := shouldRetry (resp r) (err r) in
         ret (tt, retry, e))
      tt in
  ret e.

(** One fragment as the loop uploads it: its position, its size,
    the bytes of its body and the number of times the pacer
    repeated the request. *)
Record Fragment : Type := mkFragment {
  fragPos : Z;
  fragSize : Z;
  fragData : string;
  fragRetries : nat;
}.

Definition attemptEvents (url : string) (total : Z) (fr : Fragment) : list Event :=
  [EvSeek 0;
   EvCall (fragmentOpts url (fragPos fr) total (fragSize fr)) NoJson (fragData fr)].

(** What the upload of a fragment lets observe: each attempt seeks
    to the start and sends the same request. *)
Definition fragmentEvents (url : string) (total : Z) (fr : Fragment) : list Event :=
  concat (repeat (attemptEvents url total fr) (S (fragRetries fr))).

(** The loop of [uploadMultipart]; [fuel] bounds the number of
    fragments.  The result is [(info, err)] as the loop leaves
    them. *)
Fixpoint uploadChunks (fuel : nat) (o : Object) (uploadURL : string)
  (size : Z) (inp : string) (remaining position : Z) (info : option Item)
  : M (option Item * option error) :=
  if remaining >? 0 then
    match fuel with
    | O => outOfFuel
    | S k =>
        let n := ChunkSize (opt (fs o)) in
        let n := if remaining <? n then remaining else n in
        let seg := Readers.NewRepeatableReader n in
        let* (info', e, inp') :=
          uploadFragment o uploadURL position size seg inp n in
        match e with
        | Some e' => ret (None, Some e')
        | None =>
            uploadChunks k o uploadURL size inp'
              (wrap64 (remaining - n)) (wrap64 (position + n)) info'
        end
    end
  else ret (info, None).

Definition uploadMultipart (fuel : nat) (o : Object) (inp : string)
  (size modTime : Z) : M (option Item * option error) :=
  let* (session, e) := createUploadSession o modTime in
  match e, session with
  | Some e', _ => ret (None, Some e')
  | None, None => crash "nil session"
  | None, Some uploadURL =>
      let* (info, e) := uploadChunks fuel o uploadURL size inp size 0 None in
      (* the deferred function *)
      match e with
      | Some e' =>
          cancelErr <- cancelUploadSession o uploadURL ;;
          match cancelErr with
          | Some _ => emit (EvLog "Failed to cancel multipart upload")
          | None => ret tt
          end ;;;
          ret (info, Some e')
      | None => ret (info, None)
      end
  end.

(** [src] is given by its size and modification time. *)
Definition Update (fuel : nat) (o : Object) (inp : string) (size modTime : Z)
  : M (Object * option error) :=
  emit EvRenewStart ;;;
  let* (info, e) := uploadMultipart fuel o inp size modTime in
  r <- match e, info with
       | Some e', _ => ret (o, Some e')
       | None, None => crash "nil item"
       | None, Some i => ret (setMetaData o i)
       end ;;
  emit EvRenewStop ;;;
  ret r.

(** *** Creating and removing *)

(** The result is the object under construction with the leaf and
    the directory of its remote name. *)
Definition createObject (f : Fs) (remote : string)
  : M (option Object * string * string * option error) :=
  let* (leaf, directoryID, e) := FindRootAndPath f remote true in
  match e with
  | Some e' => ret (None, leaf, directoryID, Some e')
  | None => ret (Some (newObject f remote), leaf, directoryID, None)
  end.

(** [src] is given by its remote name, its size and its modification
    time. *)
Definition Put (fuel : nat) (f : Fs) (inp : string) (remote : string)
  (size modTime : Z) : M (option Object * option error) :=
  let* (o, _, _, e) := createObject f remote in
  match e, o with
  | Some e', _ => ret (None, Some e')
  | None, None => crash "nil object"
  | None, Some o' =>
      let* (o'', e) := Update fuel o' inp size modTime in
      ret (Some o'', e)
  end.

Definition Mkdir (f : Fs) (dir : string) : M (option error) :=
  e <- FindRoot f true ;;
  match e with
  | Some e' => ret (Some e')
  | None =>
      if String.eqb dir "" then ret None
      else
        let* (_, e) := FindDir f dir true in
        ret e
  end.

Definition Remove (o : Object) : M (option error) := deleteObject (fs o) (id o).
End WithEnv.
End Onedrive.

(** ** The pCloud backend *)

Module Pcloud.
Import GoStrings PcloudApi.

Definition minSleep : R := (10 * Pacer.Millisecond)%R.
Definition maxSleep : R := (2 * Pacer.Second)%R.
Definition decayConstant : nat := 2.
Definition rootID : string := "d0".

Record Fs : Type := mkFs {
  name : string;
  root : string;
  dirCache : nat;
  pacer : nat;
}.

Record Object : Type := mkObject {
  fs : Fs;
  remote : string;
  hasMetaData : bool;
  size : Z;
  modTime : Z;
  id : string;
  md5 : string;
  sha1 : string;
}.

Inductive DirEntry : Type :=
| EntryDir (remote : string) (modTime : Z) (id : string)
| EntryObject (o : Object).

(** What [configstruct.Set] and [oauthutil.NewClient] make of the
    configuration [m]. *)
Record Config : Type := mkConfig {
  parseError : option error;
  oauthError : option error;
}.

Definition backslash : string := "\".

(** The literal the source file substitutes for a backslash: three
    bytes [0x3F]. *)
Definition substitute : string := "???".

(** U+FF3C FULLWIDTH REVERSE SOLIDUS in UTF-8, the character the
    comments of [replaceReservedChars] and [restoreReservedChars]
    name. *)
Definition fullwidthReverseSolidus : string :=
  String "239" (String "188" (String "188" EmptyString)).

Definition replaceReservedChars (x : string) : string :=
  Replace x backslash substitute.

Definition restoreReservedChars (x : string) : string :=
  Replace x substitute backslash.

Definition parsePath (path : string) : string := Trim path "/".

Definition retryErrorCodes : list Z := [429; 500; 502; 503; 504; 509].

(** [dirID[1:]] when [dirID] starts with the given letter. *)
Definition stripLetter (c : ascii) (x : string) : string :=
  match x with
  | String a x' => if Ascii.eqb a c then x' else x
  | EmptyString => x
  end.

Definition dirIDtoNumber (dirID : string) : string := stripLetter "d" dirID.
Definition fileIDtoNumber (fileID : string) : string := stripLetter "f" fileID.

Section WithEnv.
Context `{Env}.

(** [apiErr.Result / 1000] is Go's truncating division. *)
Definition shouldRetry (resp : option Response) (err : option error)
  : bool * option error :=
  let doRetry :=
    match err with
    | Some (PcloudError Result _) =>
        match Result ÷ 1000 with
        | 4 => true
        | 5 => true
        | _ => false
        end
    | _ => false
    end in
  let doRetry := if expiredToken resp then true else doRetry in
  (doRetry || fserrors_ShouldRetry err
     || Fserrors.ShouldRetryHTTP resp retryErrorCodes, err).

Definition withParams (method path : string) (params : list (string * string))
  : Opts :=
  {| Method := method; Path := path; RootURL := "";
     Parameters := params; ExtraHeaders := []; ContentType := "";
     ContentLength := None; ContentRange := ""; TransferEncoding := [];
     NoResponse := false |}.

(** An [api.ItemResult]: its error, its metadata and the contents of
    the metadata. *)
Definition ItemResult : Type := (Error * Item * list Item)%type.

Definition emptyResult : ItemResult := ((0, ""), emptyItem, []).

Definition decodeResult (p : Payload) (old : ItemResult) : ItemResult :=
  match p with
  | PcloudItemPayload e m c => (e, m, c)
  | _ => old
  end.

Definition resultError (r : ItemResult) : Error := fst (fst r).
Definition resultMetadata (r : ItemResult) : Item := snd (fst r).
Definition resultContents (r : ItemResult) : list Item := snd r.

(** The closure the backend hands to the pacer for a request that
    decodes an [api.ItemResult]. *)
Definition itemCall (opts : Opts) (st : ItemResult * option Response)
  : M ((ItemResult * option Response) * bool * option error) :=
  r <- call opts NoJson "" ;;
  let result := decodeResult (payload r) (fst st) in
  let e := pcloud_Error_Update (resultError result) (err r) in
  let '(retry, e) := shouldRetry (resp r) e in
  ret ((result, resp r), retry, e).

Definition withName (i : Item) (n : string) : Item :=
  {| ID := ID i; Name := n; IsFolder := IsFolder i; Size := Size i;
     ModTime := ModTime i |}.

(** The loop of [listAll]; [acc] carries the variables the callback
    captures.  The result is [true] when the callback asked to
    stop. *)
Fixpoint listItems {Acc : Type} (directoriesOnly filesOnly : bool)
  (fn : Acc -> Item -> M (Acc * bool)) (items : list Item) (acc : Acc)
  : M (Acc * bool) :=
  match items with
  | [] => ret (acc, false)
  | item :: rest =>
      if (if IsFolder item then filesOnly else directoriesOnly) then
        listItems directoriesOnly filesOnly fn rest acc
      else
        let item' := withName item (restoreReservedChars (Name item)) in
        let* (acc', stop) := fn acc item' in
        if (stop : bool) then ret (acc', true)
        else listItems directoriesOnly filesOnly fn rest acc'
  end.

Definition listAll {Acc : Type} (f : Fs) (dirID : string)
  (directoriesOnly filesOnly : bool)
  (fn : Acc -> Item -> M (Acc * bool)) (acc : Acc)
  : M (Acc * bool * option error) :=
  let opts := withParams "GET" "/listfolder"
                [("folderid", dirIDtoNumber dirID)] in
  let* (st, e) := PacerCall.Call (pacer f) (itemCall opts) (emptyResult, None) in
  match e with
  | Some e' => ret (acc, false, Some (ErrorWrap e' "couldn't list files"))
  | None =>
      let* (acc', found) :=
        listItems directoriesOnly filesOnly fn (resultContents (fst st)) acc in
      ret (acc', found, None)
  end.

Definition FindLeaf (f : Fs) (pathID leaf : string)
  : M (string * bool * option error) :=
  let* (pathIDOut, found, e) :=
    listAll f pathID true false
      (fun (out : string) (item : Item) =>
         if String.eqb (Name item) leaf then ret (ID item, true)
         else ret (out, false))
      "" in
  ret (pathIDOut, found, e).

Definition CreateDir (f : Fs) (pathID leaf : string) : M (string * option error) :=
  let opts := withParams "POST" "/createfolder"
                [("name", replaceReservedChars leaf);
                 ("folderid", dirIDtoNumber pathID)] in
  let* (st, e) := PacerCall.Call (pacer f) (itemCall opts) (emptyResult, None) in
  match e with
  | Some e' => ret ("", Some e')
  | None => ret (ID (resultMetadata (fst st)), None)
  end.

(** The directory cache operations of an [Fs]. *)
Definition FindRoot (f : Fs) := DirCache.FindRoot (FindLeaf f) (CreateDir f) (dirCache f).
Definition FindDir (f : Fs) := DirCache.FindDir (FindLeaf f) (CreateDir f) (dirCache f).
Definition FindPath (f : Fs) := DirCache.FindPath (FindLeaf f) (CreateDir f) (dirCache f).
Definition FindRootAndPath (f : Fs) :=
  DirCache.FindRootAndPath (FindLeaf f) (CreateDir f) (dirCache f).

Definition readMetaDataForPath (f : Fs) (path : string)
  : M (option Item * option error) :=
  let* (leaf, directoryID, e) := FindRootAndPath f path false in
  match e with
  | Some e' =>
      if isErrorDirNotFound e' then ret (None, Some ErrorObjectNotFound)
      else ret (None, Some e')
  | None =>
      let* (info, found, e) :=
        listAll f directoryID false true
          (fun (info : option Item) (item : Item) =>
             if String.eqb (Name item) leaf then ret (Some item, true)
             else ret (info, false))
          None in
      match e with
      | Some e' => ret (None, Some e')
      | None =>
          if (found : bool) then ret (info, None)
          else ret (None, Some ErrorObjectNotFound)
      end
  end.

Definition setMetaData (o : Object) (info : Item) : Object * option error :=
  if IsFolder info then (o, Some (ErrorWrap ErrorNotAFile (remote o)))
  else ({| fs := fs o; remote := remote o; hasMetaData := true;
           size := Size info; modTime := ModTime info; id := ID info;
           md5 := md5 o; sha1 := sha1 o |}, None).

Definition setHashes (o : Object) (hashes : Hashes) : Object :=
  {| fs := fs o; remote := remote o; hasMetaData := hasMetaData o;
     size := size o; modTime := modTime o; id := id o;
     md5 := MD5 hashes; sha1 := SHA1 hashes |}.

Definition readMetaData (o : Object) : M (Object * option error) :=
  if hasMetaData o then ret (o, None)
  else
    let* (info, e) := readMetaDataForPath (fs o) (remote o) in
    match e, info with
    | Some e', _ => ret (o, Some e')
    | None, None => crash "nil item"
    | None, Some i => ret (setMetaData o i)
    end.

Definition newObject (f : Fs) (remote : string) : Object :=
  {| fs := f; remote := remote; hasMetaData := false; size := 0; modTime := 0;
     id := ""; md5 := ""; sha1 := "" |}.

Definition newObjectWithInfo (f : Fs) (remote : string) (info : option Item)
  : M (option Object * option error) :=
  let o := newObject f remote in
  let* (o', e) :=
    match info with
    | Some i => ret (setMetaData o i)
    | None => readMetaData o
    end in
  match e with
  | Some e' => ret (None, Some e')
  | None => ret (Some o', None)
  end.

Definition withDirCache (f : Fs) (dc : nat) (r : string) : Fs :=
  {| name := name f; root := r; dirCache := dc; pacer := pacer f |}.

Definition NewFs (name root : string) (m : Config)
  : M (option Fs * option error) :=
  match parseError m with
  | Some e => ret (None, Some e)
  | None =>
      let root := parsePath root in
      match oauthError m with
      | Some _ => crash "Failed to configure Pcloud"
      | None =>
          p <- PacerCall.New minSleep maxSleep decayConstant ;;
          dc <- DirCache.New root rootID ;;
          let f := {| name := name; root := root; dirCache := dc; pacer := p |} in
          e <- FindRoot f false ;;
          match e with
          | None => ret (Some f, None)
          | Some _ =>
              let '(newRoot, remote) := DirCacheState.SplitPath root in
              dc' <- DirCache.New newRoot rootID ;;
              let newF := withDirCache f dc' newRoot in
              e <- FindRoot newF false ;;
              match e with
              | Some _ => ret (Some f, None)
              | None =>
                  let* (_, e) := newObjectWithInfo newF remote None in
                  match e with
                  | Some e' =>
                      if isErrorObjectNotFound e' then ret (Some f, None)
                      else ret (None, Some e')
                  | None => ret (Some newF, Some ErrorIsFile)
                  end
              end
          end
      end
  end.

(** The callback of [List]: [acc] is [(entries, iErr)]. *)
Definition listEntry (f : Fs) (dir : string)
  (acc : list DirEntry * option error) (info : Item)
  : M ((list DirEntry * option error) * bool) :=
  let remote := path_Join dir (Name info) in
  if IsFolder info then
    DirCache.PutM (dirCache f) remote (ID info) ;;;
    ret (((fst acc ++ [EntryDir remote (ModTime info) (ID info)])%list,
          snd acc), false)
  else
    let* (o, e) := newObjectWithInfo f remote (Some info) in
    match e, o with
    | Some e', _ => ret ((fst acc, Some e'), true)
    | None, Some o' => ret (((fst acc ++ [EntryObject o'])%list, snd acc), false)
    | None, None => crash "nil object"
    end.

Definition List (f : Fs) (dir : string) : M (list DirEntry * option error) :=
  e <- FindRoot f false ;;
  match e with
  | Some e' => ret ([], Some e')
  | None =>
      let* (directoryID, e) := FindDir f dir false in
      match e with
      | Some e' => ret ([], Some e')
      | None =>
          let* (acc, _, e) :=
            listAll f directoryID false false (listEntry f dir) ([], None) in
          match e, snd acc with
          | Some e', _ => ret ([], Some e')
          | None, Some e' => ret ([], Some e')
          | None, None => ret (fst acc, None)
          end
      end
  end.

(** [purgeCheck] up to and including the deletion request: the
    error it returns with, or [None] when the directory is gone. *)
Definition purgeRequest (f : Fs) (dir : string) (check : bool) : M (option error) :=
  let root := path_Join (root f) dir in
  match root with
  | EmptyString => ret (Some (ErrorNew "can't purge root directory"))
  | _ =>
      e <- FindRoot f false ;;
      match e with
      | Some e' => ret (Some e')
      | None =>
          let* (rootID, e) := FindDir f dir false in
          match e with
          | Some e' => ret (Some e')
          | None =>
              let opts :=
                withParams "POST"
                  (if check then "/deletefolder" else "/deletefolderrecursive")
                  [("folderid", dirIDtoNumber rootID)] in
              let* (_, e) :=
                PacerCall.Call (pacer f) (itemCall opts) (emptyResult, None) in
              match e with
              | Some e' => ret (Some (ErrorWrap e' "rmdir failed"))
              | None => ret None
              end
          end
      end
  end.

Definition purgeCheck (f : Fs) (dir : string) (check : bool) : M (option error) :=
  e <- purgeRequest f dir check ;;
  match e with
  | Some e' => ret (Some e')
  | None => DirCache.FlushDirM (dirCache f) dir ;;; ret None
  end.

Definition Rmdir (f : Fs) (dir : string) : M (option error) := purgeCheck f dir true.

Definition Purge (f : Fs) : M (option error) := purgeCheck f "" false.

(** [DirMove] up to and including the rename request: the error it
    returns with, or the source [Fs] when the directory has been
    moved.  [src] is [None] for a remote of another type. *)
Definition moveRequest (f : Fs) (src : option Fs) (srcRemote dstRemote : string)
  : M (error + Fs) :=
  match src with
  | None => ret (inl ErrorCantDirMove)
  | Some srcFs =>
      let srcPath := path_Join (root srcFs) srcRemote in
      let dstPath := path_Join (root f) dstRemote in
      if String.eqb srcPath "" || String.eqb dstPath "" then
        ret (inl (ErrorNew "can't move root directory"))
      else
        e <- FindRoot srcFs false ;;
        match e with
        | Some e' => ret (inl e')
        | None =>
            e <- (if String.eqb dstRemote "" then
                    dc <- readCache (dirCache f) ;;
                    if DirCacheState.FoundRoot dc then ret (Some ErrorDirExists)
                    else ret None
                  else FindRoot f true) ;;
            match e with
            | Some e' => ret (inl e')
            | None =>
                let findPath := if String.eqb dstRemote "" then root f
                                else dstRemote in
                let* (leaf, directoryID, e) := FindPath f findPath true in
                match e with
                | Some e' => ret (inl e')
                | None =>
                    e <- (if String.eqb dstRemote "" then ret None
                          else
                            let* (_, e) := FindDir f dstRemote false in
                            match e with
                            | Some e' => if isErrorDirNotFound e' then ret None
                                         else ret (Some e')
                            | None => ret (Some ErrorDirExists)
                            end) ;;
                    match e with
                    | Some e' => ret (inl e')
                    | None =>
                        let* (srcID, e) := FindDir srcFs srcRemote false in
                        match e with
                        | Some e' => ret (inl e')
                        | None =>
                            let opts :=
                              withParams "POST" "/renamefolder"
                                [("folderid", dirIDtoNumber srcID);
                                 ("toname", replaceReservedChars leaf);
                                 ("tofolderid", dirIDtoNumber directoryID)] in
                            let* (_, e) :=
                              PacerCall.Call (pacer f) (itemCall opts)
                                (emptyResult, None) in
                            match e with
                            | Some e' => ret (inl e')
                            | None => ret (inr srcFs)
                            end
                        end
                    end
                end
            end
        end
  end.

Definition DirMove (f : Fs) (src : option Fs) (srcRemote dstRemote : string)
  : M (option error) :=
  r <- moveRequest f src srcRemote dstRemote ;;
  match r with
  | inl e => ret (Some e)
  | inr srcFs => DirCache.FlushDirM (dirCache srcFs) srcRemote ;;; ret None
  end.

Definition DirCacheFlush (f : Fs) : M unit := DirCache.ResetRootM (dirCache f).

(** *** Upload *)

(** An [api.UploadFileResponse]. *)
Definition UploadResult : Type := (Error * list Item * list Hashes)%type.

Definition decodeUpload (p : Payload) (old : UploadResult) : UploadResult :=
  match p with
  | PcloudUploadPayload e items checksums => (e, items, checksums)
  | _ => old
  end.

(** The closure [Update] hands to the pacer. *)
Definition uploadAttempt (opts : Opts) (body : string)
  (st : UploadResult * option Response)
  : M ((UploadResult * option Response) * bool * option error) :=
  r <- call opts NoJson body ;;
  let result := decodeUpload (payload r) (fst st) in
  let e := pcloud_Error_Update (fst (fst result)) (err r) in
  let '(retry, e) := shouldRetry (resp r) e in
  ret ((result, resp r), retry, e).

(** The request [Update] builds and the body it sends, or the error
    of building them. *)
Definition uploadRequest (o : Object) (inp : string) (size modTime : Z)
  (leaf directoryID : string) : error + Opts * string :=
  let leaf := replaceReservedChars leaf in
  let params := [("filename", leaf); ("folderid", dirIDtoNumber directoryID);
                 ("nopartial", "1"); ("mtime", formatInt modTime)] in
  if size =? 0 then
    match rest_MultipartUpload inp params "content" leaf with
    | inl e =>
        inl (ErrorWrap e "failed to make multipart upload for 0 length file")
    | inr (inl e) =>
        inl (ErrorWrap e "failed to read multipart upload for 0 length file")
    | inr (inr (formBody, contentType)) =>
        inr ({| Method := "POST"; Path := "/uploadfile"; RootURL := "";
                Parameters := []; ExtraHeaders := [];
                ContentType := contentType;
                ContentLength := Some (Z.of_nat (String.length formBody));
                ContentRange := ""; TransferEncoding := ["identity"];
                NoResponse := false |}, formBody)
    end
  else
    inr ({| Method := "PUT"; Path := "/uploadfile"; RootURL := "";
            Parameters := params; ExtraHeaders := [];
            ContentType := fs_MimeType (remote o);
            ContentLength := Some size;
            ContentRange := ""; TransferEncoding := ["identity"];
            NoResponse := false |}, inp).

(** The body of [Update] between [tokenRenewer.Start] and the
    deferred [tokenRenewer.Stop]. *)
Definition doUpdate (o : Object) (inp : string) (size modTime : Z)
  : M (Object * option error) :=
  let* (leaf, directoryID, e) := FindRootAndPath (fs o) (remote o) true in
  match e with
  | Some e' => ret (o, Some e')
  | None =>
      match uploadRequest o inp size modTime leaf directoryID with
      | inl e' => ret (o, Some e')
      | inr (opts, body) =>
          let* (st, e) :=
            PacerCall.CallNoRetry (pacer (fs o)) (uploadAttempt opts body)
              (((0, ""), [], []), None) in
          match e with
          | Some e' => ret (o, Some e')
          | None =>
              let '(_, items, checksums) := fst st in
              match items with
              | [item] =>
                  match checksums with
                  | [] => crash "index out of range"
                  | h :: _ => ret (setMetaData (setHashes o h) item)
                  end
              | _ => ret (o, Some (ErrorNew "failed to upload - not sure why"))
              end
          end
      end
  end.

(** [src] is given by its size and modification time. *)
Definition Update (o : Object) (inp : string) (size modTime : Z)
  : M (Object * option error) :=
  emit EvRenewStart ;;;
  r <- doUpdate o inp size modTime ;;
  emit EvRenewStop ;;;
  ret r.

(** *** Creating, removing, moving and copying files *)

(** The result is the object under construction with the leaf and
    the directory of its remote name. *)
Definition createObject (f : Fs) (remote : string)
  : M (option Object * string * string * option error) :=
  let* (leaf, directoryID, e) := FindRootAndPath f remote true in
  match e with
  | Some e' => ret (None, leaf, directoryID, Some e')
  | None => ret (Some (newObject f remote), leaf, directoryID, None)
  end.

(** [src] is given by its remote name, its size and its modification
    time. *)
Definition Put (f : Fs) (inp : string) (remote : string) (size modTime : Z)
  : M (option Object * option error) :=
  let* (o, _, _, e) := createObject f remote in
  match e, o with
  | Some e', _ => ret (None, Some e')
  | None, None => crash "nil object"
  | None, Some o' =>
      let* (o'', e) := Update o' inp size modTime in
      ret (Some o'', e)
  end.

Definition Mkdir (f : Fs) (dir : string) : M (option error) :=
  e <- FindRoot f true ;;
  match e with
  | Some e' => ret (Some e')
  | None =>
      if String.eqb dir "" then ret None
      else
        let* (_, e) := FindDir f dir true in
        ret e
  end.

Definition Remove (o : Object) : M (option error) :=
  let opts := withParams "POST" "/deletefile" [("fileid", fileIDtoNumber (id o))] in
  let* (_, e) := PacerCall.Call (pacer (fs o)) (itemCall opts) (emptyResult, None) in
  ret e.


End WithEnv.
End Pcloud.

(** ** Example providers *)

Module Example.
Import GoStrings.

Definition join (a b : string) : string :=
  match a, b with
  | EmptyString, _ => b
  | _, EmptyString => a
  | _, _ => a +:+ "/" +:+ b
  end.

(** An environment around a given provider: the functions outside the
    backends are the simplest ones of their type. *)
Definition env (S : Type) (srv : S -> Opts -> JsonRequest -> string -> S * Reply)
  : Env :=
  {| fserrors_ShouldRetry :=
       fun e => match e with Some (TransportError _) => true | _ => false end;
     path_Join := join;
     URLPathEscape := fun s => s;
     onedrive_replaceReservedChars := fun s => s;
     onedrive_restoreReservedChars := fun s => s;
     pcloud_Error_Update :=
       fun e err => match err with
                    | Some _ => err
                    | None => if fst e =? 0 then None
                              else Some (PcloudError (fst e) (snd e))
                    end;
     rest_MultipartUpload := fun inp _ _ _ => inr (inr (inp, "multipart/form-data"));
     fs_MimeType := fun _ => "application/octet-stream";
     formatContentRange := fun _ _ _ => "bytes";
     formatInt := fun _ => "0";
     base64ToHex := fun s => Some s;
     ToLower := fun s => s;
     Server := S;
     serve := srv;
     lowLevelRetries := 2 |}.

Definition emptyWorld `{Env} (s : Server) : World :=
  {| server := s; trace := []; pacers := ∅; nextPacer := O;
     caches := ∅; nextCache := O |}.

Definition status (code : Z) : option Response :=
  Some {| StatusCode := code; Header := ∅ |}.

(** A pCloud account with the folders [a] and [a/b] and the files
    [a/b/report.txt] and [a/b/other.txt]. *)
Definition pcloudFolder (folderid : string) : list PcloudApi.Item :=
  if String.eqb folderid "0" then [PcloudApi.mkItem "d1" "a" true 0 0]
  else if String.eqb folderid "1" then [PcloudApi.mkItem "d2" "b" true 0 0]
  else if String.eqb folderid "2" then
    [PcloudApi.mkItem "f3" "report.txt" false 12 0;
     PcloudApi.mkItem "f4" "other.txt" false 7 0]
  else [].

Definition param (key : string) (params : list (string * string)) : string :=
  match List.find (fun kv => String.eqb (fst kv) key) params with
  | Some kv => snd kv
  | None => ""
  end.

Definition pcloudServe (s : unit) (opts : Opts) (json : JsonRequest) (body : string)
  : unit * Reply :=
  (tt,
   if String.eqb (Path opts) "/listfolder" then
     {| resp := status 200; err := None;
        payload := PcloudItemPayload (0, "") PcloudApi.emptyItem
                     (pcloudFolder (param "folderid" (Parameters opts)));
        bodyRead := O |}
   else if String.eqb (Path opts) "/uploadfile" then
     {| resp := status 200; err := None;
        payload := PcloudUploadPayload (0, "")
                     [PcloudApi.mkItem "f9" (param "filename" (Parameters opts))
                        false (Z.of_nat (String.length body)) 0]
                     [PcloudApi.mkHashes "" ""];
        bodyRead := String.length body |}
   else
     {| resp := status 200; err := None;
        payload := PcloudItemPayload (0, "") PcloudApi.emptyItem [];
        bodyRead := O |}).

Definition pcloudEnv : Env := env unit pcloudServe.

(** The same account when it answers every upload with the transient
    error 5000. *)
Definition pcloudBusyServe (s : unit) (opts : Opts) (json : JsonRequest) (body : string)
  : unit * Reply :=
  if String.eqb (Path opts) "/uploadfile" then
    (tt, {| resp := status 200; err := None;
            payload := PcloudUploadPayload (5000, "busy") [] [];
            bodyRead := String.length body |})
  else pcloudServe s opts json body.

Definition pcloudBusyEnv : Env := env unit pcloudBusyServe.

(** A OneDrive account that opens an upload session, accepts the
    first [accept] fragments and answers 507 to the next; its state is
    the number of fragments it has accepted. *)
Definition onedriveServe (accept : nat) (n : nat) (opts : Opts) (json : JsonRequest)
  (body : string) : nat * Reply :=
  if String.eqb (Method opts) "POST" then
    (n, {| resp := status 200; err := None;
           payload := OnedriveUploadPayload "https://upload.example/session";
           bodyRead := O |})
  else if String.eqb (Method opts) "PUT" then
    if (n <? accept)%nat then
      (S n, {| resp := status 202; err := None; payload := NoPayload;
               bodyRead := String.length body |})
    else
      (n, {| resp := status 507; err := Some (OnedriveError "quotaLimitReached");
             payload := NoPayload; bodyRead := O |})
  else
    (n, {| resp := status 204; err := None; payload := NoPayload; bodyRead := O |}).

Definition onedriveEnv (accept : nat) : Env := env nat (onedriveServe accept).
End Example.
(** * Theorems *)

(** ** Facts on [strings.Replace] *)

Section ReplaceFacts.
Import GoStrings.

Lemma prefix_cons_inv (a c : ascii) (r y : string) :
  String.prefix (String a r) (String c y) = true -> a = c /\ String.prefix r y = true.
Proof.
  simpl. destruct (ascii_dec a c) as [->|Hne]; [auto | discriminate].
Qed.

Lemma prefix_cons_same (a : ascii) (r y : string) :
  String.prefix (String a r) (String a y) = String.prefix r y.
Proof. simpl. destruct (ascii_dec a a); congruence. Qed.

Lemma prefix_cons_diff (a c : ascii) (r y : string) :
  a <> c -> String.prefix (String a r) (String c y) = false.
Proof. intros Hne. simpl. destruct (ascii_dec a c); congruence. Qed.

Lemma prefix_app (r y : string) : String.prefix r (r +:+ y) = true.
Proof.
  induction r as [|a r IH]; simpl.
  - destruct y; reflexivity.
  - destruct (ascii_dec a a); [exact IH | congruence].
Qed.

(** Skipping the rest of an occurrence. *)
Lemma replaceFrom_skip (old new r y : string) :
  replaceFrom old new (String.length r) (r +:+ y) = replaceFrom old new 0 y.
Proof. induction r as [|a r IH]; simpl; [destruct y|]; auto. Qed.

Lemma replace_hit (a : ascii) (r new y : string) :
  Replace (String a r +:+ y) (String a r) new = new +:+ Replace y (String a r) new.
Proof.
  unfold Replace. simpl. destruct (ascii_dec a a); [|congruence].
  rewrite prefix_app, Nat.sub_0_r, replaceFrom_skip. reflexivity.
Qed.

Lemma replace_miss (c : ascii) (old new y : string) :
  String.prefix old (String c y) = false ->
  Replace (String c y) old new = String c (Replace y old new).
Proof. unfold Replace. cbn [replaceFrom]. intros ->. reflexivity. Qed.

Lemma occurs_app (c : ascii) (s t : string) :
  occurs c (s +:+ t) = occurs c s || occurs c t.
Proof.
  induction s as [|a s IH]; simpl; [reflexivity|].
  rewrite IH. apply orb_assoc.
Qed.

(** Replacing a single byte [b] by [w]. *)
Lemma replace_byte_cons (b c : ascii) (w x : string) :
  Replace (String c x) (String b EmptyString) w =
    if Ascii.eqb b c then w +:+ Replace x (String b EmptyString) w
    else String c (Replace x (String b EmptyString) w).
Proof.
  unfold Replace. simpl.
  destruct (ascii_dec b c) as [->|Hne].
  - rewrite Ascii.eqb_refl. destruct x; reflexivity.
  - apply Ascii.eqb_neq in Hne. rewrite Hne. reflexivity.
Qed.

(** After the substitution no byte [b] is left, when [w] has none. *)
Lemma replace_byte_occurs (b : ascii) (w x : string) :
  occurs b w = false ->
  occurs b (Replace x (String b EmptyString) w) = false.
Proof.
  intros Hw. induction x as [|c x IH]; [reflexivity|].
  rewrite replace_byte_cons.
  destruct (Ascii.eqb b c) eqn:E.
  - rewrite occurs_app, Hw, IH. reflexivity.
  - simpl. rewrite IH, Ascii.eqb_sym, E. reflexivity.
Qed.

Section RoundTrip.
(** A substitute [a :: r] whose first byte does not occur again in
    it, and whose other bytes are not [b]. *)
Variables (b a : ascii) (r : string).
Hypothesis Har : occurs a r = false.
Hypothesis Hbr : occurs b r = false.

Lemma prefix_rest_sub (t x : string) :
  occurs a t = false -> occurs b t = false ->
  String.prefix t (Replace x (String b EmptyString) (String a r)) = true ->
  String.prefix t x = true.
Proof.
  revert x. induction t as [|c t IH]; intros x Ha Hb HP.
  - destruct x; reflexivity.
  - simpl in Ha, Hb. apply orb_false_iff in Ha as [Hca Ha].
    apply orb_false_iff in Hb as [Hcb Hb].
    apply Ascii.eqb_neq in Hca, Hcb.
    destruct x as [|d x]; [discriminate HP|].
    rewrite replace_byte_cons in HP.
    destruct (Ascii.eqb b d) eqn:E.
    + simpl in HP. apply prefix_cons_inv in HP as [-> _]. congruence.
    + apply prefix_cons_inv in HP as [-> HP].
      rewrite prefix_cons_same. apply IH; assumption.
Qed.

Lemma restore_sub (x : string) :
  Contains x (String a r) = false ->
  Replace (Replace x (String b EmptyString) (String a r))
          (String a r) (String b EmptyString) = x.
Proof.
  induction x as [|c x IH]; intros HC; [reflexivity|].
  cbn [Contains] in HC. apply orb_false_iff in HC as [HP HC].
  rewrite replace_byte_cons.
  destruct (Ascii.eqb b c) eqn:E.
  - apply Ascii.eqb_eq in E. subst c.
    rewrite replace_hit. simpl. f_equal. apply IH, HC.
  - apply Ascii.eqb_neq in E.
    rewrite replace_miss; [f_equal; apply IH, HC|].
    destruct (ascii_dec a c) as [<-|Hne].
    + rewrite prefix_cons_same in *.
      apply not_true_is_false. intros P.
      apply prefix_rest_sub in P; try assumption. congruence.
    + apply prefix_cons_diff, Hne.
Qed.
End RoundTrip.

End ReplaceFacts.


(** ** pCloud: the reserved character mapping *)

Section PcloudNames.
Import GoStrings Pcloud.

(** No backslash is left in a name sent to the provider. *)
Lemma replaceReservedChars_no_backslash (x : string) :
  occurs "\" (replaceReservedChars x) = false.
Proof. apply replace_byte_occurs. reflexivity. Qed.

(** With the character the comments name as the substitute, the
    mapping round-trips every name that does not contain it. *)
Lemma fullwidth_round_trip (x : string) :
  Contains x fullwidthReverseSolidus = false ->
  Replace (Replace x backslash fullwidthReverseSolidus)
          fullwidthReverseSolidus backslash = x.
Proof.
  intros HC.
  apply (restore_sub "\"%char "239"%char
           (String "188" (String "188" EmptyString)));
    [reflexivity | reflexivity | exact HC].
Qed.

(** C10: the name ["???"] contains no FULLWIDTH REVERSE SOLIDUS and no
    backslash, [replaceReservedChars] leaves it as it is, and
    [restoreReservedChars] turns it into a backslash: the mapping of
    the source, whose substitute is the literal ["???"], does not
    round-trip it. *)
Theorem reserved_chars_question_marks :
  Contains "???" fullwidthReverseSolidus = false /\
  replaceReservedChars "???" = "???" /\
  restoreReservedChars (replaceReservedChars "???") = "\" /\
  restoreReservedChars (replaceReservedChars "???") <> "???".
Proof. repeat split; try reflexivity. discriminate. Qed.
End PcloudNames.

(** ** The retry predicates *)

Section ShouldRetry.
Context `{Env}.
Import GoStrings.

(** The HTTP status is one of the transient classes. *)
Definition transientStatus (resp : option Response) : Prop :=
  exists r, resp = Some r /\ In (StatusCode r) [429; 500; 502; 503; 504; 509].

(** The response is a 401 whose single Www-Authenticate header
    contains "expired_token". *)
Definition expiredTokenResponse (resp : option Response) : Prop :=
  exists r h, resp = Some r /\ StatusCode r = 401 /\
              Header r !! "Www-Authenticate" = Some [h] /\
              Contains h "expired_token" = true.

(** The pcloud API error code lies in the 4xxx or 5xxx range. *)
Definition pcloudTransient (err : option error) : Prop :=
  exists code msg, err = Some (PcloudError code msg) /\ 4000 <= code <= 5999.

Lemma ShouldRetryHTTP_spec (resp : option Response) :
  Fserrors.ShouldRetryHTTP resp [429; 500; 502; 503; 504; 509] = true <->
  transientStatus resp.
Proof.
  unfold Fserrors.ShouldRetryHTTP, transientStatus. destruct resp as [r|].
  - rewrite existsb_exists. split.
    + intros (c & Hin & Heq). apply Z.eqb_eq in Heq. subst c. eauto.
    + intros (r' & [= <-] & Hin). exists (StatusCode r). split; [exact Hin|].
      apply Z.eqb_refl.
  - split; [discriminate | intros (r & Hr & _); discriminate].
Qed.

Lemma expiredToken_spec (resp : option Response) :
  expiredToken resp = true <-> expiredTokenResponse resp.
Proof.
  unfold expiredToken, expiredTokenResponse. destruct resp as [r|].
  - rewrite andb_true_iff, Z.eqb_eq. split.
    + intros [Hs Hh]. destruct (Header r !! "Www-Authenticate") as [l|] eqn:E;
        simpl in Hh; [|discriminate].
      destruct l as [|h [|]]; try discriminate. exists r, h. auto.
    + intros (r' & h & [= <-] & Hs & Hh & Hc). rewrite Hh. simpl. auto.
  - split; [discriminate | intros (r & h & Hr & _); discriminate].
Qed.

Lemma pcloud_code_spec (err : option error) :
  match err with
  | Some (PcloudError Result _) =>
      match Result ÷ 1000 with 4 => true | 5 => true | _ => false end
  | _ => false
  end = true <-> pcloudTransient err.
Proof.
  unfold pcloudTransient.
  destruct err as [[]|];
    try (split; [discriminate | intros (c & m & Heq & _); discriminate Heq]).
  split.
  - intros Hq. exists Result, ErrorString. split; [reflexivity|].
    destruct (Result ÷ 1000) as [|p|p] eqn:E; try discriminate.
    assert (Result ÷ 1000 = 4 \/ Result ÷ 1000 = 5) as Hr.
    { rewrite E. destruct p as [[[]|[]|]|[[]|[]|]|]; try discriminate; auto. }
    clear E Hq. pose proof (Z.quot_rem' Result 1000) as Hd.
    pose proof (Z.rem_bound_pos_neg Result 1000).
    destruct (Z_le_gt_dec 0 Result) as [Hp|Hn].
    + pose proof (Z.rem_bound_pos Result 1000 Hp). lia.
    + assert (Result ÷ 1000 <= 0); [|lia].
      apply Z.quot_le_upper_bound; lia.
  - intros (c & m & [= <- <-] & Hc).
    assert (Result ÷ 1000 = 4 \/ Result ÷ 1000 = 5) as [-> | ->]; try reflexivity.
    pose proof (Z.quot_rem' Result 1000) as Hd.
    assert (0 <= Result) as Hp by lia.
    pose proof (Z.rem_bound_pos Result 1000 Hp). lia.
Qed.

(** C6: for every response and error, each backend's [shouldRetry]
    returns the error unchanged, and returns [true] exactly when the
    status is one of 429, 500, 502, 503, 504, 509, or the error is a
    generic retryable network failure, or the response is a 401 whose
    single Www-Authenticate header contains "expired_token", or, for
    pcloud, the API error code lies in the 4xxx or 5xxx range. *)
Theorem shouldRetry_classification (resp : option Response) (err : option error) :
  (snd (Onedrive.shouldRetry resp err) = err /\
   (fst (Onedrive.shouldRetry resp err) = true <->
      transientStatus resp \/ fserrors_ShouldRetry err = true \/
      expiredTokenResponse resp)) /\
  (snd (Pcloud.shouldRetry resp err) = err /\
   (fst (Pcloud.shouldRetry resp err) = true <->
      transientStatus resp \/ fserrors_ShouldRetry err = true \/
      expiredTokenResponse resp \/ pcloudTransient err)).
Proof.
  split; (split; [reflexivity|]).
  - unfold Onedrive.shouldRetry, Onedrive.retryErrorCodes. cbn [fst].
    rewrite !orb_true_iff, ShouldRetryHTTP_spec, expiredToken_spec. tauto.
  - unfold Pcloud.shouldRetry, Pcloud.retryErrorCodes. cbn [fst].
    rewrite !orb_true_iff, ShouldRetryHTTP_spec.
    rewrite <- expiredToken_spec, <- pcloud_code_spec.
    destruct (expiredToken resp); [tauto|].
    split; [tauto|]. intros [?|[?|[?|?]]]; auto. discriminate.
Qed.
End ShouldRetry.

(** ** The pacer's sleep interval *)

Section PacerSleep.
Import Pacer.
Open Scope R_scope.

Lemma grow_settings (p : State) :
  minSleep (grow p) = minSleep p /\ maxSleep (grow p) = maxSleep p /\
  decayConstant (grow p) = decayConstant p.
Proof. repeat split. Qed.

Lemma afterFailures_settings (n : nat) (p : State) :
  minSleep (afterFailures n p) = minSleep p /\
  maxSleep (afterFailures n p) = maxSleep p /\
  decayConstant (afterFailures n p) = decayConstant p.
Proof.
  induction n as [|n IH]; [repeat split|].
  unfold afterFailures in *. simpl. exact IH.
Qed.

Lemma afterSuccesses_settings (n : nat) (p : State) :
  minSleep (afterSuccesses n p) = minSleep p /\
  maxSleep (afterSuccesses n p) = maxSleep p /\
  decayConstant (afterSuccesses n p) = decayConstant p.
Proof.
  induction n as [|n IH]; [repeat split|].
  unfold afterSuccesses in *. simpl. exact IH.
Qed.

(** One failure: the interval does not decrease and stays bounded. *)
Lemma grow_bounded (p : State) :
  0 <= minSleep p -> bounded p ->
  sleepTime p <= sleepTime (grow p) <= maxSleep p /\ bounded (grow p).
Proof.
  unfold bounded, grow. simpl. intros H0 [Hlo Hhi].
  assert (sleepTime p <= Rmin (maxSleep p) (sleepTime p * 2)) as Hge.
  { apply Rmin_glb; lra. }
  pose proof (Rmin_l (maxSleep p) (sleepTime p * 2)). lra.
Qed.

Lemma afterFailures_bounded (n : nat) (p : State) :
  0 <= minSleep p -> bounded p -> bounded (afterFailures n p).
Proof.
  intros H0 Hb. induction n as [|n IH]; [exact Hb|].
  change (afterFailures (S n) p) with (grow (afterFailures n p)).
  apply grow_bounded; [|exact IH].
  destruct (afterFailures_settings n p) as (-> & _). exact H0.
Qed.

Lemma decayFactor_ge_1 (d : nat) : 1 <= decayFactor d.
Proof.
  unfold decayFactor. apply Rle_trans with (Rpower 2 0).
  { rewrite Rpower_O; lra. }
  apply Rle_Rpower; [lra|].
  destruct d as [|d].
  - simpl. unfold Rdiv. rewrite Rinv_0. lra.
  - apply Rlt_le, Rdiv_lt_0_compat; [lra|]. apply lt_0_INR. lia.
Qed.

Lemma decayFactor_pow (d k : nat) :
  (0 < d)%nat -> decayFactor d ^ (d * k) = 2 ^ k.
Proof.
  intros Hd. unfold decayFactor.
  rewrite <- !Rpower_pow by (try apply exp_pos; lra).
  rewrite Rpower_mult. f_equal.
  rewrite mult_INR. field. apply not_0_INR. lia.
Qed.

(** One success, for a sleep interval of the form [max(min, s)]. *)
Lemma shrink_Rmax (m s r : R) :
  0 <= m -> 1 <= r -> Rmax m (Rmax m s / r) = Rmax m (s / r).
Proof.
  intros Hm Hr.
  assert (/ r <= 1) as Hinv.
  { rewrite <- Rinv_1. apply Rinv_le_contravar; lra. }
  assert (0 < / r) as Hpos by (apply Rinv_0_lt_compat; lra).
  assert (m / r <= m) as Hmr.
  { unfold Rdiv. nra. }
  unfold Rmax at 2. destruct (Rle_dec m s) as [Hle|Hgt]; [reflexivity|].
  rewrite (Rmax_left m (m / r)) by exact Hmr.
  rewrite Rmax_left; [reflexivity|].
  unfold Rdiv in *. nra.
Qed.

Lemma afterSuccesses_sleep (n : nat) (p : State) :
  0 <= minSleep p -> minSleep p <= sleepTime p ->
  sleepTime (afterSuccesses n p) =
    Rmax (minSleep p) (sleepTime p / decayFactor (decayConstant p) ^ n).
Proof.
  intros H0 Hlo. induction n as [|n IH].
  - simpl. rewrite Rmax_right; [field | lra].
  - change (afterSuccesses (S n) p) with (shrink (afterSuccesses n p)).
    unfold shrink at 1. cbn [sleepTime].
    destruct (afterSuccesses_settings n p) as (-> & _ & ->).
    rewrite IH.
    pose proof (decayFactor_ge_1 (decayConstant p)) as Hr.
    rewrite shrink_Rmax by assumption.
    f_equal. simpl. field.
    split; [|lra]. apply pow_nonzero. lra.
Qed.

(** The number of successes that brings the interval back to its
    lower bound: [d * k] when [max <= 2 ^ k * min]. *)
Lemma afterSuccesses_rest (k n : nat) (p : State) :
  0 <= minSleep p -> (0 < decayConstant p)%nat -> bounded p ->
  maxSleep p <= 2 ^ k * minSleep p ->
  (decayConstant p * k <= n)%nat ->
  sleepTime (afterSuccesses n p) = minSleep p.
Proof.
  intros H0 Hd [Hlo Hhi] Hk Hn.
  rewrite afterSuccesses_sleep by assumption.
  apply Rmax_left.
  pose proof (decayFactor_ge_1 (decayConstant p)) as Hr.
  assert (2 ^ k <= decayFactor (decayConstant p) ^ n) as Hpow.
  { rewrite <- (decayFactor_pow (decayConstant p) k Hd).
    apply Rle_pow; assumption. }
  assert (0 < 2 ^ k) as H2 by (apply pow_lt; lra).
  assert (0 < decayFactor (decayConstant p) ^ n) as Hpos by lra.
  apply (Rmult_le_reg_r (decayFactor (decayConstant p) ^ n)); [exact Hpos|].
  unfold Rdiv. rewrite Rmult_assoc, Rinv_l by lra.
  nra.
Qed.

(** C5: for a pacer with the settings of either backend whose sleep
    interval is within its bounds, the interval across consecutive
    retryable failures is non-decreasing and never exceeds the upper
    bound, and after 16 consecutive successes or more (eight
    halvings, two successes each for a decay constant of 2) it is
    exactly the lower bound. *)
Theorem backend_pacer_sleep (budget : nat) (p : State) :
  sameSettings p (configure budget Onedrive.minSleep Onedrive.maxSleep
                    Onedrive.decayConstant) \/
  sameSettings p (configure budget Pcloud.minSleep Pcloud.maxSleep
                    Pcloud.decayConstant) ->
  bounded p ->
  (forall n, sleepTime (afterFailures n p) <= sleepTime (afterFailures (S n) p)
             <= maxSleep p) /\
  (forall n, (16 <= n)%nat -> sleepTime (afterSuccesses n p) = minSleep p).
Proof.
  intros Hs Hb.
  assert (minSleep p = 10 * Millisecond /\ maxSleep p = 2 * Second /\
          decayConstant p = 2%nat) as (Hmin & Hmax & Hd).
  { destruct Hs as [Hs|Hs]; exact Hs. }
  assert (0 <= minSleep p) as H0.
  { rewrite Hmin. unfold Millisecond. lra. }
  split.
  - intros n.
    pose proof (afterFailures_bounded n p H0 Hb) as Hn.
    destruct (afterFailures_settings n p) as (Hm' & HM' & _).
    change (afterFailures (S n) p) with (grow (afterFailures n p)).
    rewrite <- HM'. apply grow_bounded; [rewrite Hm'|]; assumption.
  - intros n Hn. apply (afterSuccesses_rest 8); try assumption.
    + rewrite Hd. lia.
    + rewrite Hmin, Hmax. unfold Millisecond, Second. lra.
    + rewrite Hd. exact Hn.
Qed.

Lemma backend_pacer_sleep_witness :
  let p := configure 10 Onedrive.minSleep Onedrive.maxSleep Onedrive.decayConstant in
  bounded p /\
  (forall n, sleepTime (afterFailures n p) <= sleepTime (afterFailures (S n) p)
             <= maxSleep p) /\
  (forall n, (16 <= n)%nat -> sleepTime (afterSuccesses n p) = minSleep p).
Proof.
  intros p.
  assert (bounded p) as Hb.
  { unfold bounded, p, configure, Onedrive.minSleep, Onedrive.maxSleep,
      Millisecond, Second. simpl. lra. }
  split; [exact Hb|].
  apply (backend_pacer_sleep 10 p); [left; repeat split | exact Hb].
Defined.
End PacerSleep.

(** ** Running computations *)

Section Running.
Context `{Env}.

Lemma bind_Done {A B} (m : M A) (k : A -> M B) (w w1 : World) (a : A) :
  m w = Done a w1 -> bind m k w = k a w1.
Proof. unfold bind. intros ->. reflexivity. Qed.

Lemma bind_ret {A B} (a : A) (k : A -> M B) (w : World) : bind (ret a) k w = k a w.
Proof. reflexivity. Qed.

Lemma bind_bind {A B C} (m : M A) (k1 : A -> M B) (k2 : B -> M C) (w : World) :
  bind (bind m k1) k2 w = bind m (fun a => bind (k1 a) k2) w.
Proof. unfold bind. destruct (m w); reflexivity. Qed.

Lemma bind_inv {A B} (m : M A) (k : A -> M B) (w w' : World) (b : B) :
  bind m k w = Done b w' ->
  exists a w1, m w = Done a w1 /\ k a w1 = Done b w'.
Proof.
  unfold bind. destruct (m w) as [a w1| |]; try discriminate. eauto.
Qed.

(** What a run returned, and the world it left. *)
Definition result {A} (r : Res A) : option A :=
  match r with Done a _ => Some a | _ => None end.

Definition worldOr {A} (d : World) (r : Res A) : World :=
  match r with Done _ w => w | _ => d end.

Lemma Done_eta {A} (r : Res A) (a : A) (d : World) :
  result r = Some a -> r = Done a (worldOr d r).
Proof. destruct r; cbn; congruence. Qed.
End Running.

(** ** OneDrive: the chunk size check *)

Section ChunkSize.
Context `{Env}.
Import Onedrive.

Lemma misaligned_spec (c : Z) : misaligned c = false <-> (320 * 1024 | c).
Proof.
  unfold misaligned. rewrite negb_false_iff, Z.eqb_eq.
  apply Z.rem_divide. discriminate.
Qed.

(** C2: when the configured chunk size is not a multiple of 320 KiB,
    [NewFs] returns an error and leaves the world as it found it: no
    request has been made, no pacer or cache created.  When it is a
    multiple, [NewFs] goes on with the rest of the construction. *)
Theorem NewFs_chunk_size (name root : string) (m : Config) (opt : Options)
  (w : World) :
  parsed m = inr opt ->
  (~ (320 * 1024 | ChunkSize opt) ->
     exists e, NewFs name root m w = Done (None, Some e) w) /\
  ((320 * 1024 | ChunkSize opt) ->
     NewFs name root m w = connect name root opt m w).
Proof.
  intros Hm. unfold NewFs. rewrite Hm.
  pose proof (misaligned_spec (ChunkSize opt)) as Hs.
  destruct (misaligned (ChunkSize opt)); split.
  - intros _. eexists. reflexivity.
  - intros Hd. apply Hs in Hd. discriminate.
  - intros Hn. destruct Hn. apply Hs. reflexivity.
  - reflexivity.
Qed.
End ChunkSize.

Lemma NewFs_chunk_size_witness :
  let H := Example.onedriveEnv 0 in
  let opt := Onedrive.mkOptions (10 * 1024 * 1024) "drive" "personal" in
  let bad := Onedrive.mkOptions 1000000 "drive" "personal" in
  let w := Example.emptyWorld O in
  (320 * 1024 | Onedrive.ChunkSize opt) /\
  ~ (320 * 1024 | Onedrive.ChunkSize bad) /\
  Onedrive.NewFs "remote" "dir" (Onedrive.mkConfig (inr opt) None) w =
    Onedrive.connect "remote" "dir" opt (Onedrive.mkConfig (inr opt) None) w /\
  exists e, Onedrive.NewFs "remote" "dir" (Onedrive.mkConfig (inr bad) None) w =
              Done (None, Some e) w.
Proof.
  intros H opt bad w.
  assert ((320 * 1024 | Onedrive.ChunkSize opt)) as Hd.
  { exists 32. reflexivity. }
  assert (~ (320 * 1024 | Onedrive.ChunkSize bad)) as Hn.
  { intros [k Hk]. simpl in Hk. lia. }
  split; [exact Hd|]. split; [exact Hn|]. split.
  - apply (NewFs_chunk_size "remote" "dir" (Onedrive.mkConfig (inr opt) None) opt w
             eq_refl), Hd.
  - apply (NewFs_chunk_size "remote" "dir" (Onedrive.mkConfig (inr bad) None) bad w
             eq_refl), Hn.
Defined.

(** ** The pacer's retry loop *)

Section Attempts.
Context `{Env}.

Lemma append_cons (x : ascii) (a b : string) :
  String x a +:+ b = String x (a +:+ b).
Proof. reflexivity. Qed.

Lemma append_nil (b : string) : EmptyString +:+ b = b.
Proof. reflexivity. Qed.

Lemma app_assoc_string (a b c : string) : (a +:+ b) +:+ c = a +:+ (b +:+ c).
Proof.
  induction a as [|x a IH]; [reflexivity|].
  rewrite !append_cons, IH. reflexivity.
Qed.

Lemma concat_repeat_snoc {A} (l : list A) (n : nat) :
  (concat (repeat l n) ++ l = l ++ concat (repeat l n))%list.
Proof.
  induction n as [|n IH]; simpl.
  - rewrite app_nil_r. reflexivity.
  - rewrite <- app_assoc, IH. reflexivity.
Qed.

(** An attempt that always returns, keeps an invariant [I] of the
    captured variables, lets observe the events [evs] and nothing else,
    and leaves the caches alone, is repeated between once and
    [1 + budget] times. *)
Lemma attempts_trace {St : Type} (p : nat)
  (fn : St -> M (St * bool * option error)) (I : St -> Prop) (evs : list Event) :
  (forall st w, I st ->
     exists st' retry e w',
       fn st w = Done (st', retry, e) w' /\ I st' /\
       trace w' = (trace w ++ evs)%list /\ caches w' = caches w) ->
  forall budget st w, I st ->
    exists st' e w' k,
      PacerCall.attempts p fn budget st w = Done (st', e) w' /\ I st' /\
      (k <= budget)%nat /\
      trace w' = (trace w ++ concat (repeat evs (S k)))%list /\
      caches w' = caches w.
Proof.
  intros Hfn budget. induction budget as [|b IH]; intros st w HI.
  - destruct (Hfn st w HI) as (st' & retry & e & w' & Hrun & HI' & Htr & Hc).
    exists st', e. cbn [PacerCall.attempts]. unfold bind at 1. rewrite Hrun.
    destruct retry; eexists; exists O;
      (split; [reflexivity|]); cbn [trace caches repeat concat];
      rewrite app_nil_r; repeat split; assumption || lia.
  - destruct (Hfn st w HI) as (st' & retry & e & w' & Hrun & HI' & Htr & Hc).
    cbn [PacerCall.attempts]. unfold bind at 1. rewrite Hrun. destruct retry.
    + unfold bind at 1, modifyPacer at 1.
      match goal with |- context [PacerCall.attempts p fn b st' ?w1] =>
        destruct (IH st' w1 HI') as (st2 & e2 & w2 & k & Hrun2 & HI2 & Hk & Htr2 & Hc2)
      end.
      exists st2, e2, w2, (S k). split; [exact Hrun2|].
      split; [exact HI2|]. split; [lia|]. split.
      * rewrite Htr2. cbn [trace]. rewrite Htr.
        change (concat (repeat evs (S (S k))))
          with (evs ++ concat (repeat evs (S k)))%list.
        rewrite app_assoc. reflexivity.
      * rewrite Hc2. cbn [caches]. exact Hc.
    + exists st', e. eexists. exists O.
      split; [reflexivity|]. cbn [trace caches repeat concat].
      rewrite app_nil_r. repeat split; try assumption. lia.
Qed.

Lemma Call_trace {St : Type} (p : nat)
  (fn : St -> M (St * bool * option error)) (I : St -> Prop) (evs : list Event) :
  (forall st w, I st ->
     exists st' retry e w',
       fn st w = Done (st', retry, e) w' /\ I st' /\
       trace w' = (trace w ++ evs)%list /\ caches w' = caches w) ->
  forall st w, I st ->
    exists st' e w' k,
      PacerCall.Call p fn st w = Done (st', e) w' /\ I st' /\
      (k <= Pacer.retries (default restingPacer (pacers w !! p)))%nat /\
      trace w' = (trace w ++ concat (repeat evs (S k)))%list /\
      caches w' = caches w.
Proof.
  intros Hfn st w HI. unfold PacerCall.Call, bind, getPacer.
  apply attempts_trace with (I := I); assumption.
Qed.
End Attempts.

(** ** OneDrive: the upload of one fragment *)

Section UploadFragment.
Context `{Env}.
Import GoStrings Readers Onedrive.

Lemma take_empty (n : nat) : take n EmptyString = EmptyString.
Proof. destruct n; reflexivity. Qed.

Lemma take_drop_split (j n : nat) (s : string) :
  (j <= n)%nat -> take j s +:+ take (n - j) (drop j s) = take n s.
Proof.
  revert n s. induction j as [|j IH]; intros n s Hj.
  - rewrite Nat.sub_0_r. destruct s; reflexivity.
  - destruct n as [|n]; [lia|].
    destruct s as [|c s]; [cbn [take drop]; rewrite take_empty; reflexivity|].
    cbn [take drop]. rewrite append_cons. f_equal.
    change (S n - S j)%nat with (n - j)%nat. apply IH. lia.
Qed.

Lemma offered_SeekStart (r : RepeatableReader) (inp : string) :
  offered (SeekStart r) inp = content r inp.
Proof. unfold offered, content. simpl. destruct (buf r); reflexivity. Qed.

(** Reading moves bytes from the stream to the buffer: the bytes of the
    fragment stay the same. *)
Lemma read_content (k : nat) (r : RepeatableReader) (inp : string) :
  content (fst (read k r inp)) (snd (read k r inp)) = content r inp.
Proof.
  unfold read, content.
  destruct (k <=? String.length (buf r) - pos r)%nat; [reflexivity|].
  cbn [fst snd buf limit].
  rewrite app_assoc_string. f_equal. apply take_drop_split. lia.
Qed.

Lemma SeekStart_content (r : RepeatableReader) (inp : string) :
  content (SeekStart r) inp = content r inp.
Proof. reflexivity. Qed.

(** One attempt: a seek to the start, then the request with all the
    bytes of the fragment. *)
Lemma fragmentAttempt_run (opts : Opts) (data : string)
  (st : option OnedriveApi.Item * RepeatableReader * string) (w : World) :
  content (snd (fst st)) (snd st) = data ->
  exists st' retry e w',
    fragmentAttempt opts st w = Done (st', retry, e) w' /\
    content (snd (fst st')) (snd st') = data /\
    trace w' = (trace w ++ [EvSeek 0; EvCall opts NoJson data])%list /\
    caches w' = caches w.
Proof.
  destruct st as [[info chunk] inp]. cbn [fst snd]. intros Hdata.
  unfold fragmentAttempt, bind, emit, call. cbn [server trace].
  rewrite offered_SeekStart, Hdata.
  destruct (serve (server w) opts NoJson data) as [s r] eqn:Es.
  pose proof (read_content (bodyRead r) (SeekStart chunk) inp) as Hc.
  rewrite SeekStart_content, Hdata in Hc.
  destruct (read (bodyRead r) (SeekStart chunk) inp) as [chunk' inp'].
  cbn [fst snd] in Hc.
  destruct (shouldRetry (resp r) (err r)) as [retry e].
  assert (forall (x : option OnedriveApi.Item) (e0 : option error) (b : bool),
    exists st' retry0 e1 w',
      ret (x, chunk', inp', b, e0)
        {| server := s;
           trace := ((trace w ++ [EvSeek 0]) ++ [EvCall opts NoJson data])%list;
           pacers := pacers w; nextPacer := nextPacer w;
           caches := caches w; nextCache := nextCache w |} =
        Done (st', retry0, e1) w' /\
      content (snd (fst st')) (snd st') = data /\
      trace w' = (trace w ++ [EvSeek 0; EvCall opts NoJson data])%list /\
      caches w' = caches w) as Hret.
  { intros x e0 b. eexists. eexists. eexists. eexists.
    split; [reflexivity|]. cbn [fst snd trace caches].
    rewrite <- app_assoc. auto. }
  destruct retry; [apply Hret|].
  destruct (resp r) as [rs|]; [|apply Hret].
  destruct ((StatusCode rs =? 200) || (StatusCode rs =? 201)); [|apply Hret].
  destruct (decodeBody (payload r)) as [i de]. apply Hret.
Qed.

(** The run of [uploadFragment]: it returns, after between one and one
    more than the retry budget attempts, each a seek and the request. *)
Lemma uploadFragment_run (o : Object) (url : string)
  (start totalSize : Z) (chunk : RepeatableReader) (inp : string) (chunkSize : Z)
  (w : World) :
  exists info e inp' w' k,
    uploadFragment o url start totalSize chunk inp chunkSize w =
      Done (info, e, inp') w' /\
    (k <= Pacer.retries (default restingPacer (pacers w !! pacer (fs o))))%nat /\
    trace w' =
      (trace w ++
       concat (repeat [EvSeek 0;
                       EvCall (fragmentOpts url start totalSize chunkSize) NoJson
                         (content chunk inp)] (S k)))%list.
Proof.
  unfold uploadFragment.
  destruct (Call_trace (pacer (fs o))
              (fragmentAttempt (fragmentOpts url start totalSize chunkSize))
              (fun st => content (snd (fst st)) (snd st) = content chunk inp)
              [EvSeek 0; EvCall (fragmentOpts url start totalSize chunkSize) NoJson
                           (content chunk inp)]
              (fun st w0 HI => fragmentAttempt_run _ _ st w0 HI)
              (None, chunk, inp) w eq_refl)
    as (st' & e & w' & k & Hrun & _ & Hk & Htr & _).
  destruct st' as [[info chunk'] inp'].
  exists info, e, inp', w', k.
  unfold bind at 1. rewrite Hrun. auto.
Qed.

(** C7: whatever the provider answers, [uploadFragment] returns, and
    what it lets observe is a number of attempts between one and one
    more than the retry budget, each of which seeks the data source of
    the fragment to offset 0 and then issues the byte-range request
    with the same bytes: all the bytes of the fragment. *)
Theorem uploadFragment_seeks_before_every_attempt (o : Object) (url : string)
  (start totalSize : Z) (chunk : RepeatableReader) (inp : string) (chunkSize : Z)
  (w : World) :
  exists info e inp' w' k,
    uploadFragment o url start totalSize chunk inp chunkSize w =
      Done (info, e, inp') w' /\
    (k <= Pacer.retries (default restingPacer (pacers w !! pacer (fs o))))%nat /\
    trace w' =
      (trace w ++
       concat (repeat [EvSeek 0;
                       EvCall (fragmentOpts url start totalSize chunkSize) NoJson
                         (content chunk inp)] (S k)))%list.
Proof.
  unfold uploadFragment.
  destruct (Call_trace (pacer (fs o))
              (fragmentAttempt (fragmentOpts url start totalSize chunkSize))
              (fun st => content (snd (fst st)) (snd st) = content chunk inp)
              [EvSeek 0; EvCall (fragmentOpts url start totalSize chunkSize) NoJson
                           (content chunk inp)]
              (fun st w0 HI => fragmentAttempt_run _ _ st w0 HI)
              (None, chunk, inp) w eq_refl)
    as (st' & e & w' & k & Hrun & _ & Hk & Htr & _).
  destruct st' as [[info chunk'] inp'].
  exists info, e, inp', w', k.
  unfold bind at 1. rewrite Hrun. auto.
Qed.
End UploadFragment.

(** ** OneDrive: the fragment loop *)

Section UploadChunks.
Context `{Env}.
Import GoStrings Readers Onedrive.

Definition maxInt64 : Z := 2 ^ 63 - 1.

Lemma wrap64_small (z : Z) : - 2 ^ 63 <= z <= maxInt64 -> wrap64 z = z.
Proof.
  unfold wrap64, maxInt64. intros Hz.
  rewrite Z.mod_small by lia. lia.
Qed.

Definition total (l : list Z) : Z := fold_right Z.add 0 l.

(** The fragments as the loop computes them, from the position and the
    count of remaining bytes it holds. *)
Fixpoint loopChain (C pos rem : Z) (frs : list Fragment) : Prop :=
  match frs with
  | [] => True
  | fr :: rest =>
      0 < rem /\
      fragPos fr = pos /\
      fragSize fr = (if rem <? C then rem else C) /\
      loopChain C (wrap64 (pos + fragSize fr)) (wrap64 (rem - fragSize fr)) rest
  end.

(** The fragments of an upload of [size] bytes in chunks of [C] bytes,
    from position [pos] on. *)
Fixpoint chain (C size pos : Z) (frs : list Fragment) : Prop :=
  match frs with
  | [] => True
  | fr :: rest =>
      0 < size - pos /\
      fragPos fr = pos /\
      fragSize fr = Z.min C (size - pos) /\
      (rest <> [] -> C < size - pos) /\
      chain C size (pos + fragSize fr) rest
  end.

Lemma loopChain_chain (C size : Z) (frs : list Fragment) :
  0 <= C -> size <= maxInt64 ->
  forall pos rem, 0 <= pos -> 0 <= rem -> pos + rem = size ->
    loopChain C pos rem frs -> chain C size pos frs.
Proof.
  intros HC Hsize. induction frs as [|fr rest IH]; intros pos rem Hp Hr Hsum HL.
  - exact I.
  - cbn [loopChain] in HL. destruct HL as (Hrem & Hpos & Hn & HL).
    assert (fragSize fr = Z.min C rem) as Hmin.
    { rewrite Hn. destruct (Z.ltb_spec rem C); lia. }
    rewrite !wrap64_small in HL by (unfold maxInt64 in *; lia).
    apply IH in HL; try lia.
    cbn [chain]. replace (size - pos) with rem by lia.
    repeat split; try assumption.
    intros Hne. destruct rest as [|fr' rest']; [congruence|].
    cbn [chain] in HL. lia.
Qed.

Lemma chain_lookup (C size : Z) (frs : list Fragment) :
  forall pos i fr, chain C size pos frs -> frs !! i = Some fr ->
    fragPos fr = pos + Z.of_nat i * C /\
    fragSize fr = Z.min C (size - fragPos fr) /\ 0 < size - fragPos fr.
Proof.
  induction frs as [|f rest IH]; intros pos i fr Hch Hi; [discriminate|].
  cbn [chain] in Hch. destruct Hch as (Hrem & Hpos & Hn & Hnext & Hch).
  destruct i as [|i].
  - injection Hi as <-. rewrite Hpos. repeat split; lia.
  - cbn in Hi.
    assert (rest <> []) as Hne by (intros ->; discriminate).
    specialize (Hnext Hne).
    destruct (IH _ _ _ Hch Hi) as (Hp' & Hn' & Hr').
    repeat split; try assumption. lia.
Qed.

Lemma chain_total (C size : Z) (frs : list Fragment) :
  forall pos, 0 <= C -> chain C size pos frs ->
    pos + total (map fragSize frs) <= Z.max pos size.
Proof.
  induction frs as [|f rest IH]; intros pos HC Hch; cbn [map total fold_right].
  - lia.
  - cbn [chain] in Hch. destruct Hch as (Hrem & Hpos & Hn & Hnext & Hch).
    specialize (IH _ HC Hch). fold (total (map fragSize rest)). lia.
Qed.

Lemma concat_repeat_singleton {A} (x : A) (n : nat) :
  concat (repeat [x] n) = repeat x n.
Proof. induction n as [|n IH]; simpl; [reflexivity | f_equal; exact IH]. Qed.

(** What the loop lets observe and what it returns: the fragments in
    order; with no error their sizes add up to the bytes that remained;
    with an error, it is the error of the upload of the last one. *)
Lemma uploadChunks_run (o : Object) (url : string) (size : Z) :
  forall fuel inp remaining position info w r w',
    uploadChunks fuel o url size inp remaining position info w = Done r w' ->
    exists frs,
      trace w' = (trace w ++ concat (map (fragmentEvents url size) frs))%list /\
      loopChain (ChunkSize (opt (fs o))) position remaining frs /\
      caches w' = caches w /\
      (snd r = None ->
         forall C, C = ChunkSize (opt (fs o)) -> 0 <= C -> 0 <= remaining ->
                   remaining <= maxInt64 ->
                   total (map fragSize frs) = remaining) /\
      (forall e, snd r = Some e ->
         fst r = None /\
         exists frs0 fr inpk wk infok inp',
           frs = (frs0 ++ [fr])%list /\
           uploadFragment o url (fragPos fr) size
             (NewRepeatableReader (fragSize fr)) inpk (fragSize fr) wk =
             Done (infok, Some e, inp') w').
Proof.
  induction fuel as [|fuel IH]; intros inp remaining position info w r w' Hrun;
    cbn [uploadChunks] in Hrun.
  - destruct (Z.gtb_spec remaining 0) as [Hpos|Hle]; [discriminate Hrun|].
    injection Hrun as <- <-. exists []. cbn [map concat loopChain snd fst total fold_right].
    rewrite app_nil_r.
    split; [reflexivity|]. split; [exact I|]. split; [reflexivity|]. split.
    + intros _ C _ _ H0 _. lia.
    + intros e [=].
  - destruct (Z.gtb_spec remaining 0) as [Hpos|Hle].
    2:{ injection Hrun as <- <-. exists [].
        cbn [map concat loopChain snd fst total fold_right].
        rewrite app_nil_r.
        split; [reflexivity|]. split; [exact I|]. split; [reflexivity|]. split.
        + intros _ C _ _ H0 _. lia.
        + intros e [=]. }
    set (C := ChunkSize (opt (fs o))) in *.
    set (n := if remaining <? C then remaining else C) in *.
    destruct (uploadFragment_run o url position size
                (NewRepeatableReader n) inp n w)
      as (info1 & e1 & inp1 & w1 & k & Hfrag & _ & Htr1).
    pose proof Hfrag as Hfrag'.
    unfold uploadFragment in Hfrag'.
    assert (caches w1 = caches w) as Hc1.
    { destruct (Call_trace (pacer (fs o))
                  (fragmentAttempt (fragmentOpts url position size n))
                  (fun st => content (snd (fst st)) (snd st) =
                             content (NewRepeatableReader n) inp)
                  [EvSeek 0; EvCall (fragmentOpts url position size n) NoJson
                               (content (NewRepeatableReader n) inp)]
                  (fun st w0 HI => fragmentAttempt_run _ _ st w0 HI)
                  (None, NewRepeatableReader n, inp) w eq_refl)
        as (st' & e' & w'' & k' & Hrun' & _ & _ & _ & Hc).
      unfold bind in Hfrag'. rewrite Hrun' in Hfrag'.
      destruct st' as [[? ?] ?]. injection Hfrag' as _ _ _ <-. exact Hc. }
    unfold bind at 1 in Hrun. rewrite Hfrag in Hrun.
    set (fr := {| fragPos := position; fragSize := n;
                  fragData := content (NewRepeatableReader n) inp;
                  fragRetries := k |}).
    assert (trace w1 = (trace w ++ fragmentEvents url size fr)%list) as Htr1'.
    { exact Htr1. }
    destruct e1 as [e1|].
    + injection Hrun as <- <-. exists [fr].
      cbn [map concat loopChain snd fst]. rewrite app_nil_r.
      split; [exact Htr1'|].
      split; [split; [lia|]; split; [reflexivity|]; split; [reflexivity | exact I]|].
      split; [exact Hc1|]. split.
      * intros [=].
      * intros e [= <-]. split; [reflexivity|].
        exists [], fr, inp, w, info1, inp1.
        split; [reflexivity | exact Hfrag].
    + apply IH in Hrun.
      destruct Hrun as (frs & Htr & HL & Hc & Hok & Herr).
      exists (fr :: frs). cbn [map concat loopChain].
      split; [rewrite Htr, Htr1', app_assoc; reflexivity|].
      split; [split; [lia|]; split; [reflexivity|]; split; [reflexivity | exact HL]|].
      split; [congruence|]. split.
      * intros Hnone C' -> HC H0 Hmax. fold C in HC.
        cbn [total fold_right fragSize fr]. fold (total (map fragSize frs)).
        assert (0 <= n <= remaining) as Hn.
        { unfold n. destruct (Z.ltb_spec remaining C); lia. }
        rewrite (Hok Hnone C eq_refl HC);
          rewrite ?wrap64_small; unfold maxInt64 in *; lia.
      * intros e He. destruct (Herr e He) as (Hfst & frs0 & fr' & rest).
        split; [exact Hfst|]. exists (fr :: frs0), fr'.
        destruct rest as (inpk & wk & infok & inp' & -> & Hlast).
        exists inpk, wk, infok, inp'. split; [reflexivity | exact Hlast].
Qed.

(** With a positive chunk size the loop ends within as many rounds as
    there are bytes. *)
Lemma uploadChunks_returns (o : Object) (url : string) (size : Z) :
  0 < ChunkSize (opt (fs o)) <= maxInt64 ->
  forall fuel inp remaining position info w,
    remaining <= Z.of_nat fuel -> remaining <= maxInt64 ->
    exists r w',
      uploadChunks fuel o url size inp remaining position info w = Done r w'.
Proof.
  intros HC. induction fuel as [|fuel IH]; intros inp remaining position info w Hf Hm;
    cbn [uploadChunks].
  - destruct (Z.gtb_spec remaining 0); [lia|]. eexists. eexists. reflexivity.
  - destruct (Z.gtb_spec remaining 0) as [Hpos|]; [|eexists; eexists; reflexivity].
    set (C := ChunkSize (opt (fs o))) in *.
    set (n := if remaining <? C then remaining else C) in *.
    destruct (uploadFragment_run o url position size
                (NewRepeatableReader n) inp n w)
      as (info1 & e1 & inp1 & w1 & k & Hfrag & _ & _).
    unfold bind at 1. rewrite Hfrag.
    destruct e1; [eexists; eexists; reflexivity|].
    assert (0 < n <= remaining) as Hn.
    { unfold n. destruct (Z.ltb_spec remaining C); lia. }
    apply IH; rewrite wrap64_small; unfold maxInt64 in *; lia.
Qed.

(** C4: for a declared total size [size] and a configured chunk size
    [C], both non-negative [int64] values: with [C] positive the
    fragment loop returns; and whenever it returns, what it lets
    observe is the uploads of its fragments one after the other, the
    fragment of index [i] at position [i * C] with size
    [min(C, size - i * C)], no fragment reaching into a later one, and,
    when the loop returns without an error, sizes that add up to
    [size]. *)
Theorem uploadChunks_fragments (o : Object) (url : string) (size : Z) (inp : string)
  (w : World) :
  0 <= size <= maxInt64 ->
  0 <= ChunkSize (opt (fs o)) <= maxInt64 ->
  (0 < ChunkSize (opt (fs o)) ->
     exists r w',
       uploadChunks (Z.to_nat size) o url size inp size 0 None w = Done r w') /\
  (forall fuel info e w',
     uploadChunks fuel o url size inp size 0 None w = Done (info, e) w' ->
     exists frs,
       trace w' = (trace w ++ concat (map (fragmentEvents url size) frs))%list /\
       (forall i fr, frs !! i = Some fr ->
          fragPos fr = Z.of_nat i * ChunkSize (opt (fs o)) /\
          fragSize fr = Z.min (ChunkSize (opt (fs o)))
                          (size - Z.of_nat i * ChunkSize (opt (fs o)))) /\
       (forall i j fi fj, (i < j)%nat -> frs !! i = Some fi -> frs !! j = Some fj ->
          fragPos fi + fragSize fi <= fragPos fj) /\
       (e = None -> total (map fragSize frs) = size)).
Proof.
  intros Hsize HC. split.
  - intros Hpos. apply uploadChunks_returns; lia.
  - intros fuel info e w' Hrun.
    destruct (uploadChunks_run _ _ _ _ _ _ _ _ _ _ _ Hrun)
      as (frs & Htr & HL & _ & Hok & _).
    apply (loopChain_chain _ size) in HL; try lia.
    exists frs. split; [exact Htr|]. split; [|split].
    + intros i fr Hi.
      destruct (chain_lookup _ _ _ _ _ _ HL Hi) as (Hp & Hn & _).
      rewrite Hn, Hp. split; [lia | f_equal; lia].
    + intros i j fi fj Hij Hi Hj.
      destruct (chain_lookup _ _ _ _ _ _ HL Hi) as (Hpi & Hni & _).
      destruct (chain_lookup _ _ _ _ _ _ HL Hj) as (Hpj & _ & _).
      rewrite Hpj, Hni, Hpi. nia.
    + intros ->. apply (Hok eq_refl _ eq_refl); lia.
Qed.
End UploadChunks.

Section UploadWitnessData.
Import Onedrive.

(** An upload of 700000 bytes in chunks of 320 KiB to a provider that
    accepts the first fragment and refuses the second. *)
Definition demoFs : Fs :=
  mkFs "remote" "" (mkOptions (320 * 1024) "drive" "personal") O O "drive" "personal".
Definition demoObject : Object :=
  mkObject demoFs "file.bin" false 0 0 "" "" "" "".
End UploadWitnessData.

Lemma uploadChunks_fragments_witness :
  let H := Example.onedriveEnv 1 in
  let w := Example.emptyWorld O in
  0 <= 700000 <= maxInt64 /\
  0 <= Onedrive.ChunkSize (Onedrive.opt (Onedrive.fs demoObject)) <= maxInt64 /\
  (0 < Onedrive.ChunkSize (Onedrive.opt (Onedrive.fs demoObject)) ->
     exists r w',
       Onedrive.uploadChunks (Z.to_nat 700000) demoObject "u" 700000 "" 700000 0 None w
       = Done r w') /\
  (forall fuel info e w',
     Onedrive.uploadChunks fuel demoObject "u" 700000 "" 700000 0 None w
     = Done (info, e) w' ->
     exists frs,
       trace w' = (trace w ++ concat (map (Onedrive.fragmentEvents "u" 700000) frs))%list /\
       (forall i fr, frs !! i = Some fr ->
          Onedrive.fragPos fr =
            Z.of_nat i * Onedrive.ChunkSize (Onedrive.opt (Onedrive.fs demoObject)) /\
          Onedrive.fragSize fr =
            Z.min (Onedrive.ChunkSize (Onedrive.opt (Onedrive.fs demoObject)))
              (700000 - Z.of_nat i *
                          Onedrive.ChunkSize (Onedrive.opt (Onedrive.fs demoObject)))) /\
       (forall i j fi fj, (i < j)%nat -> frs !! i = Some fi -> frs !! j = Some fj ->
          Onedrive.fragPos fi + Onedrive.fragSize fi <= Onedrive.fragPos fj) /\
       (e = None -> total (map Onedrive.fragSize frs) = 700000)).
Proof.
  intros H w.
  assert (0 <= 700000 <= maxInt64) as Hs by (unfold maxInt64; lia).
  assert (0 <= Onedrive.ChunkSize (Onedrive.opt (Onedrive.fs demoObject)) <= maxInt64)
    as Hc by (unfold maxInt64; simpl; lia).
  split; [exact Hs|]. split; [exact Hc|].
  exact (uploadChunks_fragments demoObject "u" 700000 "" w Hs Hc).
Defined.

(** ** OneDrive: cancelling the session *)

Section Cancel.
Context `{Env}.
Import GoStrings Readers Onedrive.

Lemma cancelUploadSession_run (o : Object) (url : string) (w : World) :
  exists cancelErr w' k,
    cancelUploadSession o url w = Done cancelErr w' /\
    (k <= Pacer.retries (default restingPacer (pacers w !! pacer (fs o))))%nat /\
    trace w' = (trace w ++ repeat (EvCall (cancelOpts url) NoJson "") (S k))%list /\
    caches w' = caches w.
Proof.
  unfold cancelUploadSession.
  destruct (Call_trace (pacer (fs o))
              (fun st : unit =>
                 r <- call (cancelOpts url) NoJson "" ;;
                 let '(retry, e) := shouldRetry (resp r) (err r) in
                 ret (tt, retry, e))
              (fun _ => True) [EvCall (cancelOpts url) NoJson ""])
    with (st := tt) (w := w)
    as (st' & e & w' & k & Hrun & _ & Hk & Htr & Hc).
  - intros st w0 _. unfold bind, call.
    destruct (serve (server w0) (cancelOpts url) NoJson "") as [s r].
    destruct (shouldRetry (resp r) (err r)) as [retry e].
    eexists. eexists. eexists. eexists. split; [reflexivity|].
    split; [exact I|]. split; reflexivity.
  - exact I.
  - exists e, w', k. unfold bind at 1. rewrite Hrun.
    rewrite concat_repeat_singleton in Htr. auto.
Qed.

(** C3: once the session has been created, if the loop leaves with the
    error [e] then [e] is what the upload of the last fragment it tried
    returned, nothing is uploaded after it, and [uploadMultipart] makes
    one call of [cancelUploadSession]: one DELETE of the session URL,
    which the pacer repeats at most as often as its retry budget
    allows.  Whatever that call returns, [uploadMultipart] returns [e];
    an error of the cancellation only adds a line to the log. *)
Theorem uploadMultipart_cancels_once (fuel : nat) (o : Object) (inp : string)
  (size modTime : Z) (url : string) (info : option OnedriveApi.Item) (e : error)
  (w w1 w2 : World) :
  createUploadSession o modTime w = Done (Some url, None) w1 ->
  uploadChunks fuel o url size inp size 0 None w1 = Done (info, Some e) w2 ->
  exists frs fr cancelErr w3 k,
    trace w2 =
      (trace w1 ++ concat (map (fragmentEvents url size) (frs ++ [fr])))%list /\
    (exists inpk wk infok inp',
       uploadFragment o url (fragPos fr) size
         (NewRepeatableReader (fragSize fr)) inpk (fragSize fr) wk =
         Done (infok, Some e, inp') w2) /\
    cancelUploadSession o url w2 = Done cancelErr w3 /\
    (k <= Pacer.retries (default restingPacer (pacers w2 !! pacer (fs o))))%nat /\
    exists w',
      uploadMultipart fuel o inp size modTime w = Done (None, Some e) w' /\
      trace w' =
        (trace w2 ++ repeat (EvCall (cancelOpts url) NoJson "") (S k) ++
         match cancelErr with
         | Some _ => [EvLog "Failed to cancel multipart upload"]
         | None => []
         end)%list.
Proof.
  intros Hsession Hloop.
  destruct (uploadChunks_run _ _ _ _ _ _ _ _ _ _ _ Hloop)
    as (frs & Htr & _ & _ & _ & Herr).
  destruct (Herr e eq_refl) as (Hinfo & frs0 & fr & inpk & wk & infok & inp' & -> & Hlast).
  cbn [fst] in Hinfo. subst info.
  destruct (cancelUploadSession_run o url w2) as (cancelErr & w3 & k & Hcancel & Hk & Htr3 & _).
  exists frs0, fr, cancelErr, w3, k.
  split; [exact Htr|]. split; [eauto|]. split; [exact Hcancel|]. split; [exact Hk|].
  unfold uploadMultipart. unfold bind at 1. rewrite Hsession.
  unfold bind at 1. rewrite Hloop.
  unfold bind at 1. rewrite Hcancel.
  destruct cancelErr as [ce|].
  - eexists. split; [reflexivity|]. cbn [trace]. rewrite Htr3, <- app_assoc. reflexivity.
  - eexists. split; [reflexivity|]. cbn [trace]. rewrite Htr3, app_nil_r. reflexivity.
Qed.
End Cancel.

Section CancelWitness.
Import Onedrive.

Definition demoWorld0 : @World (Example.onedriveEnv 1) :=
  @Example.emptyWorld (Example.onedriveEnv 1) O.

Definition demoWorld1 : @World (Example.onedriveEnv 1) :=
  match @createUploadSession (Example.onedriveEnv 1) demoObject 0 demoWorld0 with
  | Done _ w => w
  | _ => demoWorld0
  end.

Definition demoWorld2 : @World (Example.onedriveEnv 1) :=
  match @uploadChunks (Example.onedriveEnv 1) 3 demoObject
          "https://upload.example/session" 700000 "" 700000 0 None demoWorld1 with
  | Done _ w => w
  | _ => demoWorld1
  end.
End CancelWitness.

Lemma uploadMultipart_cancels_once_witness :
  let H := Example.onedriveEnv 1 in
  let url := "https://upload.example/session" in
  let e := OnedriveError "quotaLimitReached" in
  Onedrive.createUploadSession demoObject 0 demoWorld0 =
    Done (Some url, None) demoWorld1 /\
  Onedrive.uploadChunks 3 demoObject url 700000 "" 700000 0 None demoWorld1 =
    Done (None, Some e) demoWorld2 /\
  exists w',
    Onedrive.uploadMultipart 3 demoObject "" 700000 0 demoWorld0 =
      Done (None, Some e) w'.
Proof.
  intros H url e.
  assert (result (Onedrive.createUploadSession demoObject 0 demoWorld0) =
            Some (Some url, None)) as R1 by (vm_compute; reflexivity).
  assert (result (Onedrive.uploadChunks 3 demoObject url 700000 "" 700000 0 None
                    demoWorld1) = Some (None, Some e)) as R2 by (vm_compute; reflexivity).
  assert (Onedrive.createUploadSession demoObject 0 demoWorld0 =
            Done (Some url, None) demoWorld1) as H1
    by exact (Done_eta _ _ demoWorld0 R1).
  assert (Onedrive.uploadChunks 3 demoObject url 700000 "" 700000 0 None demoWorld1 =
            Done (None, Some e) demoWorld2) as H2
    by exact (Done_eta _ _ demoWorld1 R2).
  split; [exact H1|]. split; [exact H2|].
  destruct (uploadMultipart_cancels_once 3 demoObject "" 700000 0 url None e
              demoWorld0 demoWorld1 demoWorld2 H1 H2)
    as (frs & fr & cancelErr & w3 & k & _ & _ & _ & _ & w' & Hrun & _).
  exists w'. exact Hrun.
Defined.

(** ** What a computation lets observe *)

Section Emits.
Context `{Env}.

(** Every event a computation adds to the trace satisfies [P]. *)
Definition emitsOnly (P : Event -> Prop) {A : Type} (m : M A) : Prop :=
  forall w,
    match m w with
    | Done _ w' | Crashed _ w' =>
        exists evs, trace w' = (trace w ++ evs)%list /\ Forall P evs
    | OutOfFuel => True
    end.

Lemma emitsOnly_Done (P : Event -> Prop) {A : Type} (m : M A) (w w' : World) (a : A) :
  emitsOnly P m -> m w = Done a w' ->
  exists evs, trace w' = (trace w ++ evs)%list /\ Forall P evs.
Proof. intros Hm Hrun. specialize (Hm w). rewrite Hrun in Hm. exact Hm. Qed.

Lemma emitsOnly_silent (P : Event -> Prop) {A : Type} (m : M A) :
  (forall w, exists a w', m w = Done a w' /\ trace w' = trace w) ->
  emitsOnly P m.
Proof.
  intros Hm w. destruct (Hm w) as (a & w' & -> & Htr).
  exists []. rewrite app_nil_r. auto.
Qed.

Lemma emitsOnly_ret (P : Event -> Prop) {A : Type} (a : A) : emitsOnly P (ret a).
Proof. apply emitsOnly_silent. intros w. exists a, w. auto. Qed.

Lemma emitsOnly_crash (P : Event -> Prop) {A : Type} (msg : string) :
  emitsOnly P (@crash _ A msg).
Proof. intros w. exists []. rewrite app_nil_r. auto. Qed.

Lemma emitsOnly_outOfFuel (P : Event -> Prop) {A : Type} :
  emitsOnly P (@outOfFuel _ A).
Proof. intros w. exact I. Qed.

Lemma emitsOnly_bind (P : Event -> Prop) {A B : Type} (m : M A) (k : A -> M B) :
  emitsOnly P m -> (forall a, emitsOnly P (k a)) -> emitsOnly P (bind m k).
Proof.
  intros Hm Hk w. unfold bind. specialize (Hm w).
  destruct (m w) as [a w1|msg w1|]; [|exact Hm|exact I].
  destruct Hm as (evs1 & Htr1 & HP1).
  specialize (Hk a w1).
  destruct (k a w1) as [b w2|msg w2|]; [| |exact I];
    destruct Hk as (evs2 & Htr2 & HP2);
    exists (evs1 ++ evs2)%list; rewrite Htr2, Htr1, app_assoc;
    (split; [reflexivity | apply Forall_app; auto]).
Qed.


Lemma emitsOnly_call (P : Event -> Prop) (opts : Opts) (json : JsonRequest)
  (body : string) :
  P (EvCall opts json body) -> emitsOnly P (call opts json body).
Proof.
  intros HP w. unfold call. destruct (serve _ _ _ _) as [s r].
  exists [EvCall opts json body]. auto.
Qed.

Lemma emitsOnly_getPacer (P : Event -> Prop) (p : nat) : emitsOnly P (getPacer p).
Proof. apply emitsOnly_silent. intros w. eexists. eexists. split; reflexivity. Qed.

Lemma emitsOnly_modifyPacer (P : Event -> Prop) (p : nat) f :
  emitsOnly P (modifyPacer p f).
Proof. apply emitsOnly_silent. intros w. eexists. eexists. split; reflexivity. Qed.

Lemma emitsOnly_allocPacer (P : Event -> Prop) st : emitsOnly P (allocPacer st).
Proof. apply emitsOnly_silent. intros w. eexists. eexists. split; reflexivity. Qed.

Lemma emitsOnly_readCache (P : Event -> Prop) (dc : nat) : emitsOnly P (readCache dc).
Proof. apply emitsOnly_silent. intros w. eexists. eexists. split; reflexivity. Qed.

Lemma emitsOnly_writeCache (P : Event -> Prop) (dc : nat) st :
  emitsOnly P (writeCache dc st).
Proof. apply emitsOnly_silent. intros w. eexists. eexists. split; reflexivity. Qed.

Lemma emitsOnly_allocCache (P : Event -> Prop) st : emitsOnly P (allocCache st).
Proof. apply emitsOnly_silent. intros w. eexists. eexists. split; reflexivity. Qed.

(** The steps that follow the structure of a computation. *)
Ltac emits_step :=
  first
    [ apply emitsOnly_ret
    | apply emitsOnly_crash
    | apply emitsOnly_outOfFuel
    | apply emitsOnly_getPacer
    | apply emitsOnly_modifyPacer
    | apply emitsOnly_readCache
    | apply emitsOnly_writeCache
    | apply emitsOnly_allocCache
    | apply emitsOnly_allocPacer
    | apply emitsOnly_bind; [|intros]
    | match goal with
      | |- emitsOnly _ (match ?x with _ => _ end) => destruct x
      | |- emitsOnly _ (let '(_, _) := ?x in _) => destruct x
      end ].

Ltac emits := repeat emits_step.

Lemma emitsOnly_attempts (P : Event -> Prop) {St : Type} (p : nat)
  (fn : St -> M (St * bool * option error)) :
  (forall st, emitsOnly P (fn st)) ->
  forall budget st, emitsOnly P (PacerCall.attempts p fn budget st).
Proof.
  intros Hfn. induction budget as [|b IH]; intros st; cbn [PacerCall.attempts].
  - apply emitsOnly_bind; [apply Hfn|]. intros [[st' retry] e]. emits.
  - apply emitsOnly_bind; [apply Hfn|]. intros [[st' retry] e].
    destruct retry; emits. apply IH.
Qed.

Lemma emitsOnly_Call (P : Event -> Prop) {St : Type} (p : nat)
  (fn : St -> M (St * bool * option error)) (st : St) :
  (forall st, emitsOnly P (fn st)) -> emitsOnly P (PacerCall.Call p fn st).
Proof.
  intros Hfn. unfold PacerCall.Call. emits. apply emitsOnly_attempts, Hfn.
Qed.

Section DirCacheEmits.
Variable P : Event -> Prop.
Variable FindLeaf : string -> string -> M (string * bool * option error).
Variable CreateDir : string -> string -> M (string * option error).
Hypothesis HFindLeaf : forall a b, emitsOnly P (FindLeaf a b).
Hypothesis HCreateDir : forall a b, emitsOnly P (CreateDir a b).

Lemma emitsOnly_findSegments (dc : nat) (create : bool) (segs : list string) :
  forall parent parentID,
    emitsOnly P (DirCache.findSegments FindLeaf CreateDir dc create parent parentID segs).
Proof.
  induction segs as [|leaf rest IH]; intros parent parentID;
    cbn [DirCache.findSegments]; [apply emitsOnly_ret|].
  apply emitsOnly_bind; [apply emitsOnly_readCache|]. intros st.
  destruct (DirCacheState.Get st _); [apply IH|].
  apply emitsOnly_bind; [apply HFindLeaf|]. intros [[id found] e].
  destruct e; [apply emitsOnly_ret|].
  destruct found.
  - emits. apply IH.
  - destruct create; [|apply emitsOnly_ret].
    apply emitsOnly_bind; [apply HCreateDir|]. intros [newID e2].
    destruct e2; [apply emitsOnly_ret|]. emits. apply IH.
Qed.

Lemma emitsOnly_FindDir (dc : nat) (path : string) (create : bool) :
  emitsOnly P (DirCache.FindDir FindLeaf CreateDir dc path create).
Proof. unfold DirCache.FindDir. emits. apply emitsOnly_findSegments. Qed.

Lemma emitsOnly_FindRoot (dc : nat) (create : bool) :
  emitsOnly P (DirCache.FindRoot FindLeaf CreateDir dc create).
Proof.
  unfold DirCache.FindRoot. apply emitsOnly_bind; [apply emitsOnly_readCache|].
  intros st. destruct (DirCacheState.FoundRoot st); [apply emitsOnly_ret|].
  apply emitsOnly_bind; [apply emitsOnly_FindDir|]. intros [id e]. emits.
Qed.

Lemma emitsOnly_FindPath (dc : nat) (path : string) (create : bool) :
  emitsOnly P (DirCache.FindPath FindLeaf CreateDir dc path create).
Proof.
  unfold DirCache.FindPath. destruct (DirCacheState.SplitPath path).
  apply emitsOnly_bind; [apply emitsOnly_FindDir|]. intros [id e]. emits.
Qed.

Lemma emitsOnly_FindRootAndPath (dc : nat) (path : string) (create : bool) :
  emitsOnly P (DirCache.FindRootAndPath FindLeaf CreateDir dc path create).
Proof.
  unfold DirCache.FindRootAndPath.
  apply emitsOnly_bind; [apply emitsOnly_FindRoot|]. intros e.
  destruct e; [apply emitsOnly_ret | apply emitsOnly_FindPath].
Qed.
End DirCacheEmits.
End Emits.

(** ** pCloud: the upload request is sent once *)

Section PcloudUpload.
Context `{Env}.
Import Pcloud.

Definition isUploadCall (e : Event) : bool :=
  match e with
  | EvCall opts _ _ => String.eqb (Path opts) "/uploadfile"
  | _ => false
  end.

(** The number of upload requests among some events. *)
Definition uploads (evs : list Event) : nat :=
  length (List.filter isUploadCall evs).

Definition notUpload (e : Event) : Prop := isUploadCall e = false.

Lemma uploads_app (l1 l2 : list Event) :
  uploads (l1 ++ l2) = (uploads l1 + uploads l2)%nat.
Proof. unfold uploads. rewrite List.filter_app, length_app. reflexivity. Qed.

Lemma uploads_none (l : list Event) : Forall notUpload l -> uploads l = O.
Proof.
  unfold uploads. induction 1 as [|e l He _ IH]; [reflexivity|].
  cbn [List.filter]. unfold notUpload in He. rewrite He. exact IH.
Qed.

Lemma emitsOnly_itemCall (P : Event -> Prop) (opts : Opts) st :
  P (EvCall opts NoJson "") -> emitsOnly P (itemCall opts st).
Proof.
  intros HP. unfold itemCall.
  apply emitsOnly_bind; [apply emitsOnly_call, HP|]. intros r.
  destruct (shouldRetry _ _). apply emitsOnly_ret.
Qed.

Lemma emitsOnly_listItems (P : Event -> Prop) {Acc : Type} (d f : bool)
  (fn : Acc -> PcloudApi.Item -> M (Acc * bool)) (items : list PcloudApi.Item) :
  (forall acc item, emitsOnly P (fn acc item)) ->
  forall acc, emitsOnly P (listItems d f fn items acc).
Proof.
  intros Hfn. induction items as [|item rest IH]; intros acc; cbn [listItems].
  - apply emitsOnly_ret.
  - destruct (if PcloudApi.IsFolder item then f else d); [apply IH|].
    apply emitsOnly_bind; [apply Hfn|]. intros [acc' stop].
    destruct stop; [apply emitsOnly_ret | apply IH].
Qed.

Lemma emitsOnly_listAll (P : Event -> Prop) {Acc : Type} (f : Fs) (dirID : string)
  (d fo : bool) (fn : Acc -> PcloudApi.Item -> M (Acc * bool)) (acc : Acc) :
  (forall opts, Path opts = "/listfolder" -> P (EvCall opts NoJson "")) ->
  (forall acc item, emitsOnly P (fn acc item)) ->
  emitsOnly P (listAll f dirID d fo fn acc).
Proof.
  intros HP Hfn. unfold listAll.
  apply emitsOnly_bind.
  - apply emitsOnly_Call. intros st. apply emitsOnly_itemCall, HP. reflexivity.
  - intros [st e]. destruct e; [apply emitsOnly_ret|].
    apply emitsOnly_bind; [apply emitsOnly_listItems, Hfn|].
    intros [acc' found]. apply emitsOnly_ret.
Qed.

Lemma emitsOnly_FindLeaf (P : Event -> Prop) (f : Fs) (pathID leaf : string) :
  (forall opts, Path opts = "/listfolder" -> P (EvCall opts NoJson "")) ->
  emitsOnly P (FindLeaf f pathID leaf).
Proof.
  intros HP. unfold FindLeaf. apply emitsOnly_bind.
  - apply emitsOnly_listAll; [exact HP|]. intros out item.
    destruct (String.eqb _ _); apply emitsOnly_ret.
  - intros [[out found] e]. apply emitsOnly_ret.
Qed.

Lemma emitsOnly_CreateDir (P : Event -> Prop) (f : Fs) (pathID leaf : string) :
  (forall opts, Path opts = "/createfolder" -> P (EvCall opts NoJson "")) ->
  emitsOnly P (CreateDir f pathID leaf).
Proof.
  intros HP. unfold CreateDir. apply emitsOnly_bind.
  - apply emitsOnly_Call. intros st. apply emitsOnly_itemCall, HP. reflexivity.
  - intros [st e]. destruct e; apply emitsOnly_ret.
Qed.

(** Resolving the directory of the object sends no upload request. *)
Lemma emitsOnly_pcloud_FindRootAndPath (f : Fs) (path : string) (create : bool) :
  emitsOnly notUpload (FindRootAndPath f path create).
Proof.
  unfold FindRootAndPath. apply emitsOnly_FindRootAndPath.
  - intros a b. apply emitsOnly_FindLeaf. intros opts Hp.
    unfold notUpload. cbn. rewrite Hp. reflexivity.
  - intros a b. apply emitsOnly_CreateDir. intros opts Hp.
    unfold notUpload. cbn. rewrite Hp. reflexivity.
Qed.

Lemma uploadRequest_path (o : Object) (inp : string) (size modTime : Z)
  (leaf directoryID : string) (opts : Opts) (body : string) :
  uploadRequest o inp size modTime leaf directoryID = inr (opts, body) ->
  Path opts = "/uploadfile".
Proof.
  unfold uploadRequest. destruct (size =? 0).
  - destruct (rest_MultipartUpload _ _ _ _) as [|[|[formBody contentType]]];
      try discriminate. intros [= <- _]. reflexivity.
  - intros [= <- _]. reflexivity.
Qed.

(** The no-retry path invokes the attempt once, whatever it returns. *)
Lemma CallNoRetry_once {St : Type} (p : nat)
  (fn : St -> M (St * bool * option error)) (st st' : St) (retry : bool)
  (e : option error) (w w1 : World) :
  fn st w = Done (st', retry, e) w1 ->
  exists w2, PacerCall.CallNoRetry p fn st w = Done (st', e) w2 /\
             trace w2 = trace w1 /\ caches w2 = caches w1 /\ server w2 = server w1.
Proof.
  intros Hfn. unfold PacerCall.CallNoRetry. cbn [PacerCall.attempts].
  unfold bind at 1. rewrite Hfn. destruct retry; eexists; (split; [reflexivity|]); auto.
Qed.

Lemma doUpdate_events (o : Object) (inp : string) (size modTime : Z)
  (w : World) (r : Object * option error) (w' : World) :
  doUpdate o inp size modTime w = Done r w' ->
  exists evs,
    trace w' = (trace w ++ evs)%list /\ (uploads evs <= 1)%nat /\
    forall leaf directoryID w1 opts body,
      FindRootAndPath (fs o) (remote o) true w = Done (leaf, directoryID, None) w1 ->
      uploadRequest o inp size modTime leaf directoryID = inr (opts, body) ->
      uploads evs = 1%nat /\ In (EvCall opts NoJson body) evs.
Proof.
  unfold doUpdate. intros Hrun.
  apply bind_inv in Hrun as ([[leaf directoryID] e] & w1 & Hfind & Hrun).
  destruct (emitsOnly_Done _ _ _ _ _ (emitsOnly_pcloud_FindRootAndPath _ _ _) Hfind)
    as (evs1 & Htr1 & HP1).
  pose proof (uploads_none _ HP1) as Hu1.
  destruct e as [e|].
  { injection Hrun as <- <-. exists evs1. split; [exact Htr1|]. split; [lia|].
    intros leaf' dir' w1' opts body Hfind'. rewrite Hfind in Hfind'. discriminate. }
  destruct (uploadRequest o inp size modTime leaf directoryID) as [e'|[opts body]] eqn:Ereq.
  { injection Hrun as <- <-. exists evs1. split; [exact Htr1|]. split; [lia|].
    intros leaf' dir' w1' opts body Hfind' Hreq'.
    rewrite Hfind in Hfind'. injection Hfind' as <- <- <-.
    rewrite Ereq in Hreq'. discriminate. }
  apply bind_inv in Hrun as ([st e] & w2 & Hcall & Hrun).
  assert (exists st' retry e' wa,
            uploadAttempt opts body (((0, ""), [], []), None) w1 =
              Done (st', retry, e') wa /\
            trace wa = (trace w1 ++ [EvCall opts NoJson body])%list) as Hatt.
  { unfold uploadAttempt, bind, call.
    destruct (serve (server w1) opts NoJson body) as [s rp].
    destruct (shouldRetry _ _) as [retry e'].
    eexists. eexists. eexists. eexists. split; reflexivity. }
  destruct Hatt as (st' & retry & e' & wa & Hatt & Htra).
  destruct (CallNoRetry_once (pacer (fs o)) _ _ _ _ _ _ _ Hatt)
    as (w2' & Hcall' & Htr2 & _).
  rewrite Hcall' in Hcall. injection Hcall as <- <- <-.
  assert (trace w' = trace w2') as Hlast.
  { destruct e'; [injection Hrun as _ <-; reflexivity|].
    destruct (fst st') as [[? items] checksums].
    destruct items as [|item [|]]; try (injection Hrun as _ <-; reflexivity).
    destruct checksums; [discriminate Hrun|].
    injection Hrun as _ <-. reflexivity. }
  exists (evs1 ++ [EvCall opts NoJson body])%list.
  assert (uploads (evs1 ++ [EvCall opts NoJson body]) = 1%nat) as Hone.
  { rewrite uploads_app, Hu1. unfold uploads. cbn.
    rewrite (uploadRequest_path _ _ _ _ _ _ _ _ Ereq). reflexivity. }
  split; [rewrite Hlast, Htr2, Htra, Htr1, app_assoc; reflexivity|].
  split; [lia|].
  intros leaf' dir' w1' opts' body' Hfind' Hreq'.
  rewrite Hfind in Hfind'. injection Hfind' as <- <- <-.
  rewrite Ereq in Hreq'. injection Hreq' as <- <-.
  split; [exact Hone|]. apply in_or_app. right. left. reflexivity.
Qed.

(** C8: in what a run of [Update] lets observe there is at most one
    upload request; and when the directory of the object is resolved
    and the request is built, there is exactly one, the request that
    was built, whatever the provider answers to it and however
    [shouldRetry] classifies the answer. *)
Theorem Update_uploads_once (o : Object) (inp : string) (size modTime : Z)
  (w : World) (r : Object * option error) (w' : World) :
  Update o inp size modTime w = Done r w' ->
  exists evs,
    trace w' = (trace w ++ evs)%list /\ (uploads evs <= 1)%nat /\
    forall w0 leaf directoryID w1 opts body,
      emit EvRenewStart w = Done tt w0 ->
      FindRootAndPath (fs o) (remote o) true w0 = Done (leaf, directoryID, None) w1 ->
      uploadRequest o inp size modTime leaf directoryID = inr (opts, body) ->
      uploads evs = 1%nat /\ In (EvCall opts NoJson body) evs.
Proof.
  unfold Update. intros Hrun.
  apply bind_inv in Hrun as ([] & w0 & Hstart & Hrun).
  apply bind_inv in Hrun as (r' & w1 & Hdo & Hrun).
  apply bind_inv in Hrun as ([] & w2 & Hstop & Hrun).
  injection Hrun as <- <-.
  destruct (doUpdate_events _ _ _ _ _ _ _ Hdo) as (evs & Htr & Hle & Hone).
  exists ([EvRenewStart] ++ evs ++ [EvRenewStop])%list.
  assert (uploads ([EvRenewStart] ++ evs ++ [EvRenewStop]) = uploads evs) as Hsame.
  { rewrite !uploads_app. cbn. lia. }
  split.
  - injection Hstop as <-. cbn [trace]. rewrite Htr.
    injection Hstart as <-. cbn [trace]. rewrite <- !app_assoc. reflexivity.
  - rewrite Hsame. split; [exact Hle|].
    intros w0' leaf directoryID w1' opts body Hstart' Hfind Hreq.
    rewrite Hstart in Hstart'. injection Hstart' as <-.
    destruct (Hone _ _ _ _ _ Hfind Hreq) as [H1 Hin].
    split; [exact H1|]. apply in_or_app. right. apply in_or_app. left. exact Hin.
Qed.
End PcloudUpload.

Section PcloudUploadWitness.
Import Pcloud.

(** The account of [Example.pcloudBusyEnv], the [Fs] that [NewFs] makes
    for the directory [a/b] and the world it leaves. *)
Definition busyStart : option Fs * @World Example.pcloudBusyEnv :=
  match @NewFs Example.pcloudBusyEnv "remote" "a/b" (mkConfig None None)
          (@Example.emptyWorld Example.pcloudBusyEnv tt) with
  | Done r w => (fst r, w)
  | _ => (None, @Example.emptyWorld Example.pcloudBusyEnv tt)
  end.

Definition busyObject : Object :=
  newObject (default (mkFs "" "" O O) (fst busyStart)) "new.bin".

Definition busyRun : Res (Object * option error) :=
  @Update Example.pcloudBusyEnv busyObject "hello" 5 0 (snd busyStart).

Definition busyResult : Object * option error :=
  match busyRun with Done r _ => r | _ => (busyObject, None) end.

Definition busyEnd : @World Example.pcloudBusyEnv :=
  match busyRun with Done _ w => w | _ => snd busyStart end.

(** The worlds in between: after the token renewer is started, and
    after the directory of the object is found. *)
Definition busyRenewing : @World Example.pcloudBusyEnv :=
  match @emit Example.pcloudBusyEnv EvRenewStart (snd busyStart) with
  | Done _ w => w
  | _ => snd busyStart
  end.

Definition busyFound : @World Example.pcloudBusyEnv :=
  match @FindRootAndPath Example.pcloudBusyEnv (fs busyObject) (remote busyObject)
          true busyRenewing with
  | Done _ w => w
  | _ => busyRenewing
  end.

Definition busyRequest : Opts * string :=
  match @uploadRequest Example.pcloudBusyEnv busyObject "hello" 5 0 "new.bin" "d2" with
  | inr x => x
  | inl _ => (emptyOpts, "")
  end.
End PcloudUploadWitness.

Lemma Update_uploads_once_witness :
  let H := Example.pcloudBusyEnv in
  Pcloud.Update busyObject "hello" 5 0 (snd busyStart) = Done busyResult busyEnd /\
  snd busyResult = Some (PcloudError 5000 "busy") /\
  fst (Pcloud.shouldRetry (Example.status 200) (snd busyResult)) = true /\
  exists evs,
    trace busyEnd = (trace (snd busyStart) ++ evs)%list /\ uploads evs = 1%nat.
Proof.
  intros H.
  assert (result busyRun = Some busyResult) as Hres by (vm_compute; reflexivity).
  assert (Pcloud.Update busyObject "hello" 5 0 (snd busyStart) =
            Done busyResult busyEnd) as Hrun
    by exact (Done_eta busyRun busyResult (snd busyStart) Hres).
  split; [exact Hrun|]. split; [vm_compute; reflexivity|].
  split; [vm_compute; reflexivity|].
  destruct (Update_uploads_once busyObject "hello" 5 0 (snd busyStart)
              busyResult busyEnd Hrun) as (evs & Htr & Hle & Hone).
  exists evs. split; [exact Htr|].
  apply (Hone busyRenewing "new.bin" "d2" busyFound (fst busyRequest) (snd busyRequest));
    vm_compute; reflexivity.
Defined.

(** ** Flushing the directory cache *)

Section FlushDir.
Import DirCacheState.

(** Modelled from the spec: what [FlushDir] is to do.  Every entry
    whose path lies under [dir] is evicted, every other entry is left
    as it was, in the forward mapping and in the inverse one. *)
Lemma FlushDir_evicts (dc : t) (dir p : string) :
  under dir p = true -> Get (FlushDir dc dir) p = None.
Proof.
  intros Hu. unfold Get, FlushDir, withMaps. cbn [cache].
  apply map_lookup_filter_None_2. right. intros id _. cbn [fst]. congruence.
Qed.

Lemma FlushDir_keeps (dc : t) (dir p : string) :
  under dir p = false -> Get (FlushDir dc dir) p = Get dc p.
Proof.
  intros Hu. unfold Get, FlushDir, withMaps. cbn [cache].
  destruct (cache dc !! p) as [id|] eqn:E.
  - apply map_lookup_filter_Some_2; [exact E | exact Hu].
  - apply map_lookup_filter_None_2. left. exact E.
Qed.

Lemma FlushDir_inverse (dc : t) (dir id p : string) :
  GetInv dc id = Some p ->
  GetInv (FlushDir dc dir) id = if under dir p then None else Some p.
Proof.
  intros Hg. unfold GetInv, FlushDir, withMaps in *. cbn [invCache].
  destruct (under dir p) eqn:Hu.
  - apply map_lookup_filter_None_2. right. intros p' Hp'.
    rewrite Hg in Hp'. injection Hp' as <-. cbn [snd]. congruence.
  - apply map_lookup_filter_Some_2; [exact Hg | exact Hu].
Qed.
End FlushDir.

Section CacheOps.
Context `{Env}.

(** The operations that move or delete a directory. *)
Inductive CacheOp : Type :=
| OnedriveDirMove (f : Onedrive.Fs) (src : option Onedrive.Fs) (srcRemote dstRemote : string)
| OnedrivePurgeCheck (f : Onedrive.Fs) (dir : string) (check : bool)
| PcloudDirMove (f : Pcloud.Fs) (src : option Pcloud.Fs) (srcRemote dstRemote : string)
| PcloudPurgeCheck (f : Pcloud.Fs) (dir : string) (check : bool).

Definition runOp (op : CacheOp) : M (option error) :=
  match op with
  | OnedriveDirMove f src srcRemote dstRemote => Onedrive.DirMove f src srcRemote dstRemote
  | OnedrivePurgeCheck f dir check => Onedrive.purgeCheck f dir check
  | PcloudDirMove f src srcRemote dstRemote => Pcloud.DirMove f src srcRemote dstRemote
  | PcloudPurgeCheck f dir check => Pcloud.purgeCheck f dir check
  end.

(** The subtree an operation moves or deletes. *)
Definition subtree (op : CacheOp) : string :=
  match op with
  | OnedriveDirMove _ _ srcRemote _ => srcRemote
  | OnedrivePurgeCheck _ dir _ => dir
  | PcloudDirMove _ _ srcRemote _ => srcRemote
  | PcloudPurgeCheck _ dir _ => dir
  end.

(** The operation up to the answer of the provider: the directory cache
    of the source when the provider has moved or deleted the
    directory. *)
Definition requestOp (op : CacheOp) : M (option nat) :=
  match op with
  | OnedriveDirMove f src srcRemote dstRemote =>
      r <- Onedrive.moveRequest f src srcRemote dstRemote ;;
      ret (match r with inr srcFs => Some (Onedrive.dirCache srcFs) | inl _ => None end)
  | OnedrivePurgeCheck f dir check =>
      e <- Onedrive.purgeRequest f dir check ;;
      ret (match e with None => Some (Onedrive.dirCache f) | Some _ => None end)
  | PcloudDirMove f src srcRemote dstRemote =>
      r <- Pcloud.moveRequest f src srcRemote dstRemote ;;
      ret (match r with inr srcFs => Some (Pcloud.dirCache srcFs) | inl _ => None end)
  | PcloudPurgeCheck f dir check =>
      e <- Pcloud.purgeRequest f dir check ;;
      ret (match e with None => Some (Pcloud.dirCache f) | Some _ => None end)
  end.

Definition cacheAt (w : World) (dc : nat) : DirCacheState.t :=
  default emptyCache (caches w !! dc).

Lemma readCache_run (dc : nat) (w : World) : readCache dc w = Done (cacheAt w dc) w.
Proof. reflexivity. Qed.

Lemma allocPacer_run (st : Pacer.State) (w : World) :
  allocPacer st w =
    Done (nextPacer w)
      {| server := server w; trace := trace w;
         pacers := <[nextPacer w := st]> (pacers w); nextPacer := S (nextPacer w);
         caches := caches w; nextCache := nextCache w |}.
Proof. reflexivity. Qed.

Lemma allocCache_run (st : DirCacheState.t) (w : World) :
  allocCache st w =
    Done (nextCache w)
      {| server := server w; trace := trace w;
         pacers := pacers w; nextPacer := nextPacer w;
         caches := <[nextCache w := st]> (caches w); nextCache := S (nextCache w) |}.
Proof. reflexivity. Qed.

Lemma FlushDirM_run (dc : nat) (dir : string) (w : World) :
  exists w', DirCache.FlushDirM dc dir w = Done tt w' /\
             cacheAt w' dc = DirCacheState.FlushDir (cacheAt w dc) dir /\
             (forall dc', dc' <> dc -> caches w' !! dc' = caches w !! dc') /\
             trace w' = trace w /\ server w' = server w.
Proof.
  eexists. split; [reflexivity|]. unfold cacheAt. cbn [caches trace server].
  rewrite lookup_insert_eq. split; [reflexivity|]. split; [|auto].
  intros dc' Hne. apply lookup_insert_ne. congruence.
Qed.

(** C9: when a [DirMove] or a [purgeCheck] (which [Rmdir] and [Purge]
    call) of either backend returns without an error, the provider has
    moved or deleted the directory, and between the answer of the
    provider and the return the source directory cache has lost every
    entry whose path lies under the moved or deleted subtree
    (inclusive) and kept every other entry unchanged; the other caches
    are untouched and no request is made. *)
Theorem flush_after_move_or_delete (op : CacheOp) (w w' : World) :
  runOp op w = Done None w' ->
  exists w1 dc,
    requestOp op w = Done (Some dc) w1 /\
    (forall p, DirCacheState.under (subtree op) p = true ->
               DirCacheState.Get (cacheAt w' dc) p = None) /\
    (forall p, DirCacheState.under (subtree op) p = false ->
               DirCacheState.Get (cacheAt w' dc) p =
               DirCacheState.Get (cacheAt w1 dc) p) /\
    (forall id p, DirCacheState.GetInv (cacheAt w1 dc) id = Some p ->
                  DirCacheState.GetInv (cacheAt w' dc) id =
                  if DirCacheState.under (subtree op) p then None else Some p) /\
    (forall dc', dc' <> dc -> caches w' !! dc' = caches w1 !! dc') /\
    trace w' = trace w1 /\ server w' = server w1.
Proof.
  assert (forall dc s w1 w2,
            DirCache.FlushDirM dc s w1 = Done tt w2 ->
            (forall p, DirCacheState.under s p = true ->
                       DirCacheState.Get (cacheAt w2 dc) p = None) /\
            (forall p, DirCacheState.under s p = false ->
                       DirCacheState.Get (cacheAt w2 dc) p =
                       DirCacheState.Get (cacheAt w1 dc) p) /\
            (forall id p, DirCacheState.GetInv (cacheAt w1 dc) id = Some p ->
                          DirCacheState.GetInv (cacheAt w2 dc) id =
                          if DirCacheState.under s p then None else Some p) /\
            (forall dc', dc' <> dc -> caches w2 !! dc' = caches w1 !! dc') /\
            trace w2 = trace w1 /\ server w2 = server w1) as Hflush.
  { intros dc s w1 w2 Hrun.
    destruct (FlushDirM_run dc s w1) as (w2' & Hrun' & Hc & Hother & Htr & Hsrv).
    rewrite Hrun in Hrun'. injection Hrun' as <-.
    rewrite Hc. split; [intros p; apply FlushDir_evicts|].
    split; [intros p; apply FlushDir_keeps|].
    split; [intros id p; apply FlushDir_inverse|]. auto. }
  intros Hrun. destruct op as [f src s d|f s check|f src s d|f s check];
    cbn [runOp requestOp subtree] in *.
  - unfold Onedrive.DirMove in Hrun.
    apply bind_inv in Hrun as (r & w1 & Hreq & Hrun).
    destruct r as [e|srcFs]; [discriminate Hrun|].
    apply bind_inv in Hrun as ([] & w2 & Hfl & Hrun). injection Hrun as <-.
    exists w1, (Onedrive.dirCache srcFs).
    split; [unfold bind; rewrite Hreq; reflexivity | exact (Hflush _ _ _ _ Hfl)].
  - unfold Onedrive.purgeCheck in Hrun.
    apply bind_inv in Hrun as (r & w1 & Hreq & Hrun).
    destruct r as [e|]; [discriminate Hrun|].
    apply bind_inv in Hrun as ([] & w2 & Hfl & Hrun). injection Hrun as <-.
    exists w1, (Onedrive.dirCache f).
    split; [unfold bind; rewrite Hreq; reflexivity | exact (Hflush _ _ _ _ Hfl)].
  - unfold Pcloud.DirMove in Hrun.
    apply bind_inv in Hrun as (r & w1 & Hreq & Hrun).
    destruct r as [e|srcFs]; [discriminate Hrun|].
    apply bind_inv in Hrun as ([] & w2 & Hfl & Hrun). injection Hrun as <-.
    exists w1, (Pcloud.dirCache srcFs).
    split; [unfold bind; rewrite Hreq; reflexivity | exact (Hflush _ _ _ _ Hfl)].
  - unfold Pcloud.purgeCheck in Hrun.
    apply bind_inv in Hrun as (r & w1 & Hreq & Hrun).
    destruct r as [e|]; [discriminate Hrun|].
    apply bind_inv in Hrun as ([] & w2 & Hfl & Hrun). injection Hrun as <-.
    exists w1, (Pcloud.dirCache f).
    split; [unfold bind; rewrite Hreq; reflexivity | exact (Hflush _ _ _ _ Hfl)].
Qed.
End CacheOps.

Section CacheOpsWitness.
Import Pcloud.

(** The account of [Example.pcloudEnv], the [Fs] that [NewFs] makes for
    its root, and the world after [a/b] has been listed. *)
Definition treeStart : option Fs * @World Example.pcloudEnv :=
  match @NewFs Example.pcloudEnv "remote" "" (mkConfig None None)
          (@Example.emptyWorld Example.pcloudEnv tt) with
  | Done r w => (fst r, w)
  | _ => (None, @Example.emptyWorld Example.pcloudEnv tt)
  end.

Definition treeFs : Fs := default (mkFs "" "" O O) (fst treeStart).

Definition treeListed : @World Example.pcloudEnv :=
  match @List Example.pcloudEnv treeFs "a/b" (snd treeStart) with
  | Done _ w => w
  | _ => snd treeStart
  end.

Definition treeMoved : @World Example.pcloudEnv :=
  match @DirMove Example.pcloudEnv treeFs (Some treeFs) "a/b" "c" treeListed with
  | Done _ w => w
  | _ => treeListed
  end.
End CacheOpsWitness.

Lemma flush_after_move_or_delete_witness :
  let H := Example.pcloudEnv in
  let op := PcloudDirMove treeFs (Some treeFs) "a/b" "c" in
  runOp op treeListed = Done None treeMoved /\
  DirCacheState.Get (cacheAt treeListed (Pcloud.dirCache treeFs)) "a/b" = Some "d2" /\
  DirCacheState.Get (cacheAt treeMoved (Pcloud.dirCache treeFs)) "a/b" = None /\
  DirCacheState.Get (cacheAt treeMoved (Pcloud.dirCache treeFs)) "a" = Some "d1" /\
  exists w1 dc, requestOp op treeListed = Done (Some dc) w1.
Proof.
  intros H op.
  assert (result (Pcloud.DirMove treeFs (Some treeFs) "a/b" "c" treeListed) = Some None)
    as Hres by (vm_compute; reflexivity).
  assert (runOp op treeListed = Done None treeMoved) as Hrun
    by exact (Done_eta _ None treeListed Hres).
  split; [exact Hrun|].
  split; [vm_compute; reflexivity|].
  split; [vm_compute; reflexivity|].
  split; [vm_compute; reflexivity|].
  destruct (flush_after_move_or_delete op treeListed treeMoved Hrun)
    as (w1 & dc & Hreq & _).
  exists w1, dc. exact Hreq.
Defined.

(** ** pCloud: a root that names a file *)

Section PcloudTree.
Context `{Env}.
Import GoStrings DirCacheState Pcloud PcloudApi.

(** The provider's view of the account: the items of each folder, by
    folder number.  The provider answers every listing request with
    them, without an error and without asking for a retry, and a
    listing does not change its state. *)
Definition lists (contents : string -> list Item) : Prop :=
  forall s id,
    exists r e m,
      serve s (withParams "GET" "/listfolder" [("folderid", id)]) NoJson "" = (s, r) /\
      payload r = PcloudItemPayload e m (contents id) /\
      pcloud_Error_Update e (err r) = None /\
      fst (shouldRetry (resp r) None) = false.

(** The identifier of the first folder of a listing whose name, once
    restored, is [leaf]: what [FindLeaf] answers. *)
Fixpoint findFolder (items : list Item) (leaf : string) : option string :=
  match items with
  | [] => None
  | item :: rest =>
      if IsFolder item && String.eqb (restoreReservedChars (Name item)) leaf
      then Some (ID item)
      else findFolder rest leaf
  end.

(** The first file of a listing whose name, once restored, is [leaf]:
    what [readMetaDataForPath] answers. *)
Fixpoint findFile (items : list Item) (leaf : string) : option Item :=
  match items with
  | [] => None
  | item :: rest =>
      if negb (IsFolder item) && String.eqb (restoreReservedChars (Name item)) leaf
      then Some (withName item (restoreReservedChars (Name item)))
      else findFile rest leaf
  end.

(** The directory a list of segments leads to, from the folder [id]. *)
Fixpoint lookupDir (contents : string -> list Item) (id : string)
  (segs : list string) : option string :=
  match segs with
  | [] => Some id
  | seg :: rest =>
      match findFolder (contents (dirIDtoNumber id)) seg with
      | Some id' => lookupDir contents id' rest
      | None => None
      end
  end.

(** The entry [List] makes of an item of a listing. *)
Definition entryOf (f : Fs) (dir : string) (item : Item) : DirEntry :=
  let name := restoreReservedChars (Name item) in
  let remote := path_Join dir name in
  if IsFolder item then EntryDir remote (ModTime item) (ID item)
  else EntryObject {| fs := f; remote := remote; hasMetaData := true;
                      size := Size item; modTime := ModTime item; id := ID item;
                      md5 := ""; sha1 := "" |}.

(** Worlds that differ in the trace and the pacers only. *)
Definition quiet (w w' : World) : Prop :=
  caches w' = caches w /\ nextCache w' = nextCache w.

Lemma quiet_refl (w : World) : quiet w w.
Proof. split; reflexivity. Qed.

Lemma quiet_trans (w1 w2 w3 : World) : quiet w1 w2 -> quiet w2 w3 -> quiet w1 w3.
Proof. intros [? ?] [? ?]. split; congruence. Qed.

Lemma attempts_no_retry {St : Type} (p : nat)
  (fn : St -> M (St * bool * option error)) (budget : nat) (st st' : St)
  (e : option error) (w w1 : World) :
  fn st w = Done (st', false, e) w1 ->
  exists w2, PacerCall.attempts p fn budget st w = Done (st', e) w2 /\ quiet w1 w2.
Proof.
  intros Hfn.
  destruct budget; cbn [PacerCall.attempts]; unfold bind at 1; rewrite Hfn;
    eexists; (split; [reflexivity | split; reflexivity]).
Qed.

Lemma Call_no_retry {St : Type} (p : nat)
  (fn : St -> M (St * bool * option error)) (st st' : St)
  (e : option error) (w w1 : World) :
  fn st w = Done (st', false, e) w1 ->
  exists w2, PacerCall.Call p fn st w = Done (st', e) w2 /\ quiet w1 w2.
Proof.
  intros Hfn. unfold PacerCall.Call, bind, getPacer.
  eapply attempts_no_retry. exact Hfn.
Qed.

Section WithContents.
Variable contents : string -> list Item.
Hypothesis Hlists : lists contents.

Lemma itemCall_listing (id : string) (st : ItemResult * option Response) (w : World) :
  exists e m rs w1,
    itemCall (withParams "GET" "/listfolder" [("folderid", id)]) st w =
      Done (((e, m, contents id), rs), false, None) w1 /\ quiet w w1.
Proof.
  unfold itemCall, bind, call.
  destruct (Hlists (server w) id) as (r & e & m & Hs & Hp & Hu & Hr).
  rewrite Hs, Hp. cbn [decodeResult resultError fst]. rewrite Hu.
  destruct (shouldRetry (resp r) None) as [retry e'] eqn:Es.
  cbn [fst] in Hr. subst retry.
  assert (e' = None) as ->.
  { unfold shouldRetry in Es. injection Es as _ <-. reflexivity. }
  eexists. eexists. eexists. eexists. split; [reflexivity | split; reflexivity].
Qed.

(** A listing calls back on the items of the folder. *)
Lemma listAll_listing {Acc : Type} (f : Fs) (dirID : string) (d fo : bool)
  (fn : Acc -> Item -> M (Acc * bool)) (acc : Acc) (w : World) :
  exists w1,
    quiet w w1 /\
    listAll f dirID d fo fn acc w =
      bind (listItems d fo fn (contents (dirIDtoNumber dirID)) acc)
        (fun r => ret (fst r, snd r, None)) w1.
Proof.
  unfold listAll.
  destruct (itemCall_listing (dirIDtoNumber dirID) (emptyResult, None) w)
    as (e & m & rs & w1 & Hcall & Hq1).
  destruct (Call_no_retry (pacer f) _ _ _ _ _ _ Hcall) as (w2 & Hrun & Hq2).
  exists w2. split; [eapply quiet_trans; eassumption|].
  unfold bind at 1. rewrite Hrun. cbn [fst resultContents snd].
  unfold bind. destruct (listItems _ _ _ _ _ _) as [[acc' found] w3| |]; reflexivity.
Qed.

Lemma listItems_findFolder (leaf : string) (items : list Item) (out : string)
  (w : World) :
  listItems true false
    (fun (out : string) (item : Item) =>
       if String.eqb (Name item) leaf then ret (ID item, true)
       else ret (out, false)) items out w =
  Done (match findFolder items leaf with
        | Some id => (id, true)
        | None => (out, false)
        end) w.
Proof.
  revert out. induction items as [|item rest IH]; intros out; [reflexivity|].
  cbn [listItems findFolder]. destruct (IsFolder item); cbn [andb]; [|apply IH].
  unfold bind. cbn [withName Name ID].
  destruct (String.eqb (restoreReservedChars (Name item)) leaf); [reflexivity|].
  cbn [ret]. apply IH.
Qed.

Lemma FindLeaf_listing (f : Fs) (pathID leaf : string) (w : World) :
  exists w1,
    quiet w w1 /\
    FindLeaf f pathID leaf w =
      Done (match findFolder (contents (dirIDtoNumber pathID)) leaf with
            | Some id => (id, true, None)
            | None => ("", false, None)
            end) w1.
Proof.
  unfold FindLeaf.
  destruct (listAll_listing f pathID true false
              (fun (out : string) (item : Item) =>
                 if String.eqb (Name item) leaf then ret (ID item, true)
                 else ret (out, false)) "" w) as (w1 & Hq & Hrun).
  exists w1. split; [exact Hq|].
  unfold bind at 1. rewrite Hrun. unfold bind. rewrite listItems_findFolder.
  destruct (findFolder _ _); reflexivity.
Qed.

Lemma listItems_findFile (leaf : string) (items : list Item) (info : option Item)
  (w : World) :
  listItems false true
    (fun (info : option Item) (item : Item) =>
       if String.eqb (Name item) leaf then ret (Some item, true)
       else ret (info, false)) items info w =
  Done (match findFile items leaf with
        | Some item => (Some item, true)
        | None => (info, false)
        end) w.
Proof.
  revert info. induction items as [|item rest IH]; intros info; [reflexivity|].
  cbn [listItems findFile]. destruct (IsFolder item); cbn [andb negb]; [apply IH|].
  unfold bind. cbn [withName Name ID].
  destruct (String.eqb (restoreReservedChars (Name item)) leaf); [reflexivity|].
  cbn [ret]. apply IH.
Qed.
End WithContents.
End PcloudTree.

(** ** Paths and their segments *)

Section Paths.
Import GoStrings DirCacheState.

Definition noSlash (s : string) : Prop := occurs slash s = false.

Definition startsWithSlash (s : string) : bool :=
  match s with
  | String c _ => Ascii.eqb c slash
  | EmptyString => false
  end.

Lemma Split_nonempty (s : string) (c : ascii) : Split s c <> [].
Proof.
  destruct s as [|a s]; cbn [Split]; [discriminate|].
  destruct (Ascii.eqb a c); [discriminate|]. destruct (Split s c); discriminate.
Qed.

Lemma Split_noSlash (s : string) : noSlash s -> Split s slash = [s].
Proof.
  unfold noSlash. induction s as [|a s IH]; [reflexivity|].
  cbn [occurs Split]. intros Ho. apply orb_false_iff in Ho as [Ha Hs].
  rewrite Ha, (IH Hs). reflexivity.
Qed.

Lemma Split_app (a b : string) :
  Split (a +:+ String slash b) slash = (Split a slash ++ Split b slash)%list.
Proof.
  induction a as [|c a IH].
  - rewrite append_nil. cbn [Split]. rewrite Ascii.eqb_refl. reflexivity.
  - rewrite append_cons. cbn [Split]. rewrite IH.
    destruct (Ascii.eqb c slash); [reflexivity|].
    pose proof (Split_nonempty a slash) as Hne.
    destruct (Split a slash) as [|h t]; [congruence | reflexivity].
Qed.

Lemma Split_segments_noSlash (s seg : string) :
  In seg (Split s slash) -> noSlash seg.
Proof.
  revert seg. induction s as [|a s IH]; intros seg; cbn [Split].
  - intros [<-|[]]. reflexivity.
  - destruct (Ascii.eqb a slash) eqn:Ea.
    + intros [<-|Hin]; [reflexivity | apply IH, Hin].
    + pose proof (Split_nonempty s slash) as Hne.
      destruct (Split s slash) as [|h t]; [congruence|].
      intros [<-|Hin].
      * unfold noSlash. cbn [occurs]. rewrite Ea.
        apply (IH h). left. reflexivity.
      * apply IH. right. exact Hin.
Qed.

Lemma Split_head (s : string) :
  s <> EmptyString -> startsWithSlash s = false ->
  exists h t, Split s slash = h :: t /\ h <> EmptyString.
Proof.
  destruct s as [|a s]; [congruence|]. intros _ Hs. cbn [startsWithSlash] in Hs.
  cbn [Split]. rewrite Hs.
  destruct (Split s slash) as [|h t]; eexists; eexists; (split; [reflexivity|discriminate]).
Qed.

Lemma lastSlashSplit_Some (s d l : string) :
  lastSlashSplit s = Some (d, l) -> s = d +:+ String slash l /\ noSlash l.
Proof.
  revert d l. induction s as [|a s IH]; intros d l; cbn [lastSlashSplit]; [discriminate|].
  destruct (lastSlashSplit s) as [[d' l']|] eqn:E.
  - intros [= <- <-]. destruct (IH _ _ eq_refl) as [-> Hl].
    split; [reflexivity | exact Hl].
  - destruct (Ascii.eqb a slash) eqn:Ea; [|discriminate].
    intros [= <- <-]. apply Ascii.eqb_eq in Ea. subst a.
    split; [reflexivity|].
    clear IH. unfold noSlash. induction s as [|b s IHs]; [reflexivity|].
    cbn [lastSlashSplit] in E. cbn [occurs].
    destruct (lastSlashSplit s) as [[? ?]|]; [discriminate|].
    destruct (Ascii.eqb b slash); [discriminate|]. apply IHs. reflexivity.
Qed.

Lemma lastSlashSplit_None (s : string) : lastSlashSplit s = None -> noSlash s.
Proof.
  unfold noSlash. induction s as [|b s IHs]; [reflexivity|].
  cbn [lastSlashSplit occurs].
  destruct (lastSlashSplit s) as [[? ?]|]; [discriminate|].
  destruct (Ascii.eqb b slash); [discriminate|]. intros _. apply IHs. reflexivity.
Qed.

Lemma SplitPath_leaf_noSlash (path : string) : noSlash (snd (SplitPath path)).
Proof.
  unfold SplitPath. destruct (lastSlashSplit path) as [[d l]|] eqn:E; cbn [snd].
  - apply (lastSlashSplit_Some _ _ _ E).
  - apply lastSlashSplit_None, E.
Qed.

(** A leaf has no parent directory. *)
Lemma SplitPath_noSlash (s : string) : noSlash s -> SplitPath s = (EmptyString, s).
Proof.
  intros Hs. unfold SplitPath.
  destruct (lastSlashSplit s) as [[d l]|] eqn:E; [|reflexivity].
  apply lastSlashSplit_Some in E as [-> _].
  unfold noSlash in Hs. rewrite occurs_app in Hs. cbn [occurs] in Hs.
  rewrite Ascii.eqb_refl in Hs. cbn in Hs. rewrite orb_true_r in Hs. discriminate.
Qed.

(** The segments of a path are those of its parent followed by its
    leaf. *)
Lemma segments_SplitPath (path : string) :
  path <> EmptyString -> startsWithSlash path = false ->
  segments path =
    (segments (fst (SplitPath path)) ++ [snd (SplitPath path)])%list.
Proof.
  intros Hne Hs. unfold SplitPath.
  destruct (lastSlashSplit path) as [[d l]|] eqn:E; cbn [fst snd].
  - apply lastSlashSplit_Some in E as [-> Hl].
    destruct d as [|c d].
    + rewrite append_nil in Hs. cbn in Hs. discriminate.
    + unfold segments. rewrite append_cons, <- append_cons, Split_app.
      rewrite (Split_noSlash l Hl). reflexivity.
  - apply lastSlashSplit_None in E. destruct path as [|c p]; [congruence|].
    unfold segments. cbn [app]. apply Split_noSlash, E.
Qed.

Lemma segments_noSlash (path seg : string) : In seg (segments path) -> noSlash seg.
Proof.
  destruct path as [|c p]; [intros []|]. apply Split_segments_noSlash.
Qed.

Lemma segments_joinPath (parent leaf : string) :
  noSlash leaf -> parent <> EmptyString \/ leaf <> EmptyString ->
  segments (joinPath parent leaf) = (segments parent ++ [leaf])%list.
Proof.
  intros Hl Hne. destruct parent as [|c p].
  - cbn [joinPath segments app]. destruct leaf as [|a l]; [destruct Hne; congruence|].
    apply Split_noSlash, Hl.
  - cbn [joinPath]. change ("/" +:+ leaf) with (String slash leaf).
    unfold segments. rewrite append_cons, <- append_cons, Split_app.
    rewrite (Split_noSlash leaf Hl). reflexivity.
Qed.

Lemma joinPath_nonempty (parent leaf : string) :
  parent <> EmptyString \/ leaf <> EmptyString -> joinPath parent leaf <> EmptyString.
Proof.
  destruct parent as [|c p]; cbn [joinPath].
  - intros [?|?]; congruence.
  - intros _. rewrite append_cons. discriminate.
Qed.

Lemma trimLeft_head (c : ascii) (s : string) :
  match trimLeft c s with
  | String a _ => Ascii.eqb a c = false
  | EmptyString => True
  end.
Proof.
  induction s as [|a s IH]; cbn [trimLeft]; [exact I|].
  destruct (Ascii.eqb a c) eqn:E; [exact IH | exact E].
Qed.

Lemma trimRight_head (c : ascii) (s : string) :
  match trimRight c s, s with
  | String a _, String b _ => a = b
  | String _ _, EmptyString => False
  | EmptyString, _ => True
  end.
Proof.
  destruct s as [|b s]; cbn [trimRight]; [exact I|].
  destruct (trimRight c s); [destruct (Ascii.eqb b c)|]; reflexivity || exact I.
Qed.

Lemma Trim_startsWithSlash (s : string) : startsWithSlash (Trim s slash) = false.
Proof.
  unfold Trim. pose proof (trimLeft_head slash s) as Hl.
  pose proof (trimRight_head slash (trimLeft slash s)) as Hr.
  destruct (trimRight slash (trimLeft slash s)) as [|a t]; [reflexivity|].
  destruct (trimLeft slash s) as [|b u]; [destruct Hr|]. subst b. exact Hl.
Qed.
End Paths.

(** ** pCloud: resolving directories on a listing provider *)

Section PcloudWalk.
Context `{Env}.
Import GoStrings DirCacheState Pcloud PcloudApi.
Variable contents : string -> list Item.
Hypothesis Hlists : lists contents.

Lemma lookupDir_app (id : string) (l1 l2 : list string) :
  lookupDir contents id (l1 ++ l2) =
    match lookupDir contents id l1 with
    | Some id' => lookupDir contents id' l2
    | None => None
    end.
Proof.
  revert id. induction l1 as [|seg l1 IH]; intros id; [reflexivity|].
  cbn [app lookupDir]. destruct (findFolder _ _); [apply IH | reflexivity].
Qed.

(** The paths of a cache lead to the identifiers it holds for them. *)
Definition consistent (st : DirCacheState.t) : Prop :=
  forall path id, cache st !! path = Some id ->
                  lookupDir contents (trueRootID st) (segments path) = Some id.

Lemma consistent_New (root trueRootID : string) :
  consistent (DirCacheState.New root trueRootID).
Proof.
  intros path id. cbn [DirCacheState.New cache DirCacheState.trueRootID].
  intros Hl. apply lookup_singleton_Some in Hl as [<- <-]. reflexivity.
Qed.

Lemma consistent_Put (st : DirCacheState.t) (path id : string) :
  consistent st ->
  lookupDir contents (trueRootID st) (segments path) = Some id ->
  consistent (DirCacheState.Put st path id).
Proof.
  intros Hc Hp path' id'. unfold DirCacheState.Put, withMaps. cbn [cache DirCacheState.trueRootID].
  intros Hl. apply lookup_insert_Some in Hl as [[<- <-]|[Hne Hl]]; [exact Hp|].
  apply Hc. destruct (invCache st !! id); [|exact Hl].
  apply lookup_delete_Some in Hl as [_ Hl]. exact Hl.
Qed.

(** The fields of a cache that resolving a directory leaves alone. *)
Definition sameRoot (st st' : DirCacheState.t) : Prop :=
  trueRootID st' = trueRootID st /\ DirCacheState.root st' = DirCacheState.root st /\
  DirCacheState.rootID st' = DirCacheState.rootID st /\ rootState st' = rootState st.

Lemma sameRoot_refl (st : DirCacheState.t) : sameRoot st st.
Proof. repeat split. Qed.

Lemma sameRoot_trans (a b c : DirCacheState.t) :
  sameRoot a b -> sameRoot b c -> sameRoot a c.
Proof. intros (?&?&?&?) (?&?&?&?). repeat split; congruence. Qed.

Lemma sameRoot_Put (st : DirCacheState.t) (path id : string) :
  sameRoot st (DirCacheState.Put st path id).
Proof. repeat split. Qed.

(** Resolving segments without creating: the answer is the one of the
    provider's tree. *)
Lemma findSegments_lookup (f : Fs) (dc : nat) (segs : list string) :
  forall parent parentID w,
    consistent (cacheAt w dc) ->
    (forall seg, In seg segs -> noSlash seg) ->
    (parent <> EmptyString \/ match segs with
                             | [] => True
                             | seg :: _ => seg <> EmptyString
                             end) ->
    lookupDir contents (trueRootID (cacheAt w dc)) (segments parent) = Some parentID ->
    exists w',
      DirCache.findSegments (FindLeaf f) (CreateDir f) dc false parent parentID segs w =
        Done (match lookupDir contents parentID segs with
              | Some id => (id, None)
              | None => ("", Some ErrorDirNotFound)
              end) w' /\
      consistent (cacheAt w' dc) /\ sameRoot (cacheAt w dc) (cacheAt w' dc) /\
      nextCache w' = nextCache w /\
      (forall dc', dc' <> dc -> caches w' !! dc' = caches w !! dc').
Proof.
  induction segs as [|leaf rest IH]; intros parent parentID w Hc Hns Hstart Hparent.
  - exists w. cbn [DirCache.findSegments lookupDir].
    split; [reflexivity|]. split; [exact Hc|]. split; [apply sameRoot_refl|]. auto.
  - cbn [DirCache.findSegments lookupDir].
    assert (noSlash leaf) as Hleaf by (apply Hns; left; reflexivity).
    assert (parent <> EmptyString \/ leaf <> EmptyString) as Hne.
    { destruct Hstart; auto. }
    pose proof (segments_joinPath parent leaf Hleaf Hne) as Hseg.
    pose proof (joinPath_nonempty parent leaf Hne) as Hpath.
    set (path := joinPath parent leaf) in *.
    unfold bind at 1, readCache at 1. fold (cacheAt w dc).
    assert (forall id w1,
              consistent (cacheAt w1 dc) ->
              trueRootID (cacheAt w1 dc) = trueRootID (cacheAt w dc) ->
              findFolder (contents (dirIDtoNumber parentID)) leaf = Some id ->
              exists w',
                DirCache.findSegments (FindLeaf f) (CreateDir f) dc false path id rest w1 =
                  Done (match lookupDir contents id rest with
                        | Some id' => (id', None)
                        | None => ("", Some ErrorDirNotFound)
                        end) w' /\
                consistent (cacheAt w' dc) /\ sameRoot (cacheAt w1 dc) (cacheAt w' dc) /\
                nextCache w' = nextCache w1 /\
                (forall dc', dc' <> dc -> caches w' !! dc' = caches w1 !! dc')) as Hnext.
    { intros id w1 Hc1 Htrue Hfind. apply IH.
      - exact Hc1.
      - intros seg Hin. apply Hns. right. exact Hin.
      - left. exact Hpath.
      - rewrite Htrue, Hseg, lookupDir_app, Hparent. cbn [lookupDir].
        rewrite Hfind. reflexivity. }
    destruct (Get (cacheAt w dc) path) as [id|] eqn:Eget.
    + assert (findFolder (contents (dirIDtoNumber parentID)) leaf = Some id) as Hfind.
      { pose proof (Hc path id Eget) as Hl.
        rewrite Hseg, lookupDir_app, Hparent in Hl. cbn [lookupDir] in Hl.
        destruct (findFolder _ _); congruence. }
      rewrite Hfind. apply Hnext; auto.
    + destruct (FindLeaf_listing contents Hlists f parentID leaf w) as (w1 & [Hq1 Hn1] & Hrun).
      unfold bind at 1. rewrite Hrun.
      assert (cacheAt w1 dc = cacheAt w dc) as Hsame.
      { unfold cacheAt. rewrite Hq1. reflexivity. }
      destruct (findFolder (contents (dirIDtoNumber parentID)) leaf) as [id|] eqn:Hfind.
      * unfold bind at 1, readCache at 1. fold (cacheAt w1 dc).
        unfold bind at 1, writeCache at 1.
        match goal with |- context [DirCache.findSegments _ _ dc false path id rest ?x] =>
          set (w2 := x)
        end.
        assert (cacheAt w2 dc = DirCacheState.Put (cacheAt w dc) path id) as Hc2.
        { unfold cacheAt at 1, w2. cbn [caches]. rewrite lookup_insert_eq, Hsame.
          reflexivity. }
        destruct (Hnext id w2) as (w' & Hrun' & Hc' & Hs' & Hn' & Ho'); auto.
        { rewrite Hc2. apply consistent_Put; [exact Hc|].
          rewrite Hseg, lookupDir_app, Hparent. cbn [lookupDir]. rewrite Hfind.
          reflexivity. }
        { rewrite Hc2. reflexivity. }
        exists w'. split; [exact Hrun'|]. split; [exact Hc'|].
        split; [eapply sameRoot_trans; [|exact Hs']; rewrite Hc2; apply sameRoot_Put|].
        split; [rewrite Hn'; exact Hn1|].
        intros dc' Hd. rewrite (Ho' dc' Hd). unfold w2. cbn [caches].
        rewrite lookup_insert_ne by congruence. rewrite Hq1. reflexivity.
      * exists w1. split; [reflexivity|]. rewrite Hsame.
        split; [exact Hc|]. split; [apply sameRoot_refl|]. split; [exact Hn1|].
        intros dc' _. rewrite Hq1. reflexivity.
Qed.

(** [FindRoot] on a cache that has just been created. *)
Lemma FindRoot_fresh (f : Fs) (root : string) (w : World) :
  cacheAt w (dirCache f) = DirCacheState.New root rootID ->
  startsWithSlash root = false ->
  exists w',
    FindRoot f false w =
      Done (match lookupDir contents rootID (segments root) with
            | Some _ => None
            | None => Some ErrorDirNotFound
            end) w' /\
    nextCache w' = nextCache w /\
    (forall dc', dc' <> dirCache f -> caches w' !! dc' = caches w !! dc') /\
    match lookupDir contents rootID (segments root) with
    | Some id => cacheAt w' (dirCache f) = resolved (DirCacheState.New root rootID) id
    | None => True
    end.
Proof.
  intros Hfresh Hstart. unfold FindRoot, DirCache.FindRoot.
  rewrite (bind_Done _ _ w w _ (readCache_run (dirCache f) w)).
  rewrite Hfresh. cbn [FoundRoot rootState DirCacheState.New DirCacheState.root].
  unfold DirCache.FindDir.
  rewrite bind_bind.
  rewrite (bind_Done _ _ w w _ (readCache_run (dirCache f) w)).
  rewrite Hfresh. cbn [DirCacheState.rootID DirCacheState.New].
  destruct (findSegments_lookup f (dirCache f) (segments root) "" rootID w)
    as (w1 & Hrun & Hc1 & Hs1 & Hn1 & Ho1).
  - rewrite Hfresh. apply consistent_New.
  - apply segments_noSlash.
  - right. destruct root as [|c r]; [exact I|].
    destruct (Split_head (String c r)) as (h & t & Hsp & Hh);
      [discriminate | exact Hstart |].
    unfold segments. rewrite Hsp. exact Hh.
  - rewrite Hfresh. reflexivity.
  - rewrite (bind_Done _ _ _ _ _ Hrun).
    destruct (lookupDir contents rootID (segments root)) as [id|].
    + rewrite (bind_Done _ _ w1 w1 _ (readCache_run (dirCache f) w1)).
      eexists. split; [reflexivity|]. cbn [nextCache caches].
      split; [exact Hn1|]. split.
      * intros dc' Hd. rewrite lookup_insert_ne by congruence. apply Ho1, Hd.
      * unfold cacheAt at 1. cbn [caches]. rewrite lookup_insert_eq. cbn [default].
        destruct Hs1 as (Ht & Hr & _). rewrite Hfresh in Ht, Hr.
        unfold resolved. cbn [DirCacheState.trueRootID DirCacheState.root DirCacheState.New] in *.
        rewrite Ht, Hr. reflexivity.
    + exists w1. split; [reflexivity|]. auto.
Qed.
End PcloudWalk.

Section PcloudRootIsFile.
Context `{Env}.
Import GoStrings DirCacheState Pcloud PcloudApi.
Variable contents : string -> list Item.
Hypothesis Hlists : lists contents.

Lemma findFile_In (items : list Item) (leaf : string) (item : Item) :
  findFile items leaf = Some item ->
  exists raw, In raw items /\ IsFolder raw = false /\
              restoreReservedChars (Name raw) = leaf /\ item = withName raw leaf.
Proof.
  induction items as [|i rest IH]; cbn [findFile]; [discriminate|].
  destruct (negb (IsFolder i) && String.eqb (restoreReservedChars (Name i)) leaf) eqn:E.
  - intros [= <-]. apply andb_true_iff in E as [Hf Hn].
    apply negb_true_iff in Hf. apply String.eqb_eq in Hn.
    exists i. rewrite Hn. repeat split; auto. left. reflexivity.
  - intros Hr. destruct (IH Hr) as (raw & Hin & Hrest). exists raw.
    split; [right; exact Hin | exact Hrest].
Qed.

(** A cache whose root has been resolved answers for the root and for
    the parent of a leaf without a request. *)
Lemma FindRoot_found (f : Fs) (w : World) :
  FoundRoot (cacheAt w (dirCache f)) = true -> FindRoot f false w = Done None w.
Proof.
  intros Hf. unfold FindRoot, DirCache.FindRoot.
  rewrite (bind_Done _ _ w w _ (readCache_run (dirCache f) w)), Hf. reflexivity.
Qed.

Lemma FindDir_root (f : Fs) (create : bool) (w : World) :
  FindDir f "" create w =
    Done (DirCacheState.rootID (cacheAt w (dirCache f)), None) w.
Proof.
  unfold FindDir, DirCache.FindDir.
  rewrite (bind_Done _ _ w w _ (readCache_run (dirCache f) w)). reflexivity.
Qed.

(** [readMetaDataForPath] for a leaf of the resolved root. *)
Lemma readMetaDataForPath_leaf (f : Fs) (leaf : string) (w : World) :
  FoundRoot (cacheAt w (dirCache f)) = true -> noSlash leaf ->
  exists w',
    quiet w w' /\
    readMetaDataForPath f leaf w =
      Done (match findFile
                    (contents (dirIDtoNumber
                                 (DirCacheState.rootID (cacheAt w (dirCache f))))) leaf with
            | Some item => (Some item, None)
            | None => (None, Some ErrorObjectNotFound)
            end) w'.
Proof.
  intros Hf Hleaf. unfold readMetaDataForPath, FindRootAndPath, DirCache.FindRootAndPath.
  rewrite bind_bind.
  rewrite (bind_Done _ _ w w _ (FindRoot_found f w Hf)).
  unfold DirCache.FindPath. rewrite (SplitPath_noSlash leaf Hleaf).
  rewrite bind_bind.
  rewrite (bind_Done _ _ w w _ (FindDir_root f false w)).
  rewrite bind_ret. cbv beta iota.
  set (P := DirCacheState.rootID (cacheAt w (dirCache f))).
  destruct (listAll_listing contents Hlists f P false true
              (fun (info : option Item) (item : Item) =>
                 if String.eqb (Name item) leaf then ret (Some item, true)
                 else ret (info, false)) None w) as (w1 & Hq & Hrun).
  exists w1. split; [exact Hq|].
  unfold bind at 1. rewrite Hrun.
  unfold bind at 1. rewrite listItems_findFile.
  destruct (findFile _ _); reflexivity.
Qed.

Lemma listEntry_run (f : Fs) (dir : string) (acc : list DirEntry) (item : Item)
  (w : World) :
  exists w',
    listEntry f dir (acc, None) (withName item (restoreReservedChars (Name item))) w =
      Done ((acc ++ [entryOf f dir item])%list, None, false) w'.
Proof.
  unfold listEntry, entryOf. cbn [IsFolder withName Name ID ModTime Size fst snd].
  destruct (IsFolder item) eqn:Ef.
  - eexists. reflexivity.
  - unfold newObjectWithInfo, setMetaData.
    cbn [IsFolder withName Name ID ModTime Size]. rewrite Ef.
    eexists. reflexivity.
Qed.

(** [List] of the resolved root: an entry for every item of the
    listing, in its order. *)
Lemma listItems_listEntry (f : Fs) (dir : string) (items : list Item) :
  forall acc w,
    exists w',
      listItems false false (listEntry f dir) items (acc, None) w =
        Done ((acc ++ map (entryOf f dir) items)%list, None, false) w'.
Proof.
  induction items as [|item rest IH]; intros acc w.
  - exists w. cbn [listItems map]. rewrite app_nil_r. reflexivity.
  - cbn [listItems map].
    assert ((if IsFolder item then false else false) = false) as ->
      by (destruct (IsFolder item); reflexivity).
    destruct (listEntry_run f dir acc item w) as (w1 & Hentry).
    rewrite (bind_Done _ _ _ _ _ Hentry).
    destruct (IH (acc ++ [entryOf f dir item])%list w1) as (w' & Hrun).
    exists w'. rewrite Hrun, <- app_assoc. reflexivity.
Qed.

Lemma List_root (f : Fs) (w : World) :
  FoundRoot (cacheAt w (dirCache f)) = true ->
  exists w',
    List f "" w =
      Done (map (entryOf f "")
              (contents (dirIDtoNumber
                           (DirCacheState.rootID (cacheAt w (dirCache f))))), None) w'.
Proof.
  intros Hf. unfold List.
  rewrite (bind_Done _ _ w w _ (FindRoot_found f w Hf)).
  rewrite (bind_Done _ _ w w _ (FindDir_root f false w)).
  set (P := DirCacheState.rootID (cacheAt w (dirCache f))).
  destruct (listAll_listing contents Hlists f P false false
              (listEntry f "") ([], None) w) as (w1 & Hq & Hrun).
  destruct (listItems_listEntry f "" (contents (dirIDtoNumber P)) [] w1) as (w2 & Hitems).
  exists w2. unfold bind at 1. rewrite Hrun.
  unfold bind. rewrite Hitems. reflexivity.
Qed.
End PcloudRootIsFile.

Section PcloudNewFs.
Context `{Env}.
Import GoStrings DirCacheState Pcloud PcloudApi.

Lemma SplitPath_parent_start (path : string) :
  startsWithSlash path = false -> startsWithSlash (fst (SplitPath path)) = false.
Proof.
  intros Hs. unfold SplitPath.
  destruct (lastSlashSplit path) as [[d l]|] eqn:E; cbn [fst]; [|reflexivity].
  apply lastSlashSplit_Some in E as [-> _].
  destruct d as [|c d]; [reflexivity|]. rewrite append_cons in Hs. exact Hs.
Qed.

(** When the configured root names a file of an existing directory and
    no directory of that name, pCloud's [NewFs] returns, with
    [fs.ErrorIsFile], an [Fs] whose root is the parent directory and
    whose cache is resolved to it; [List] of the root of that [Fs]
    then returns an entry for every item of the parent directory, the
    file among them. *)
Lemma pcloud_root_is_file (contents : string -> list Item) (name root : string)
  (m : Config) (w : World) (P : string) (item : Item) :
  lists contents ->
  parseError m = None -> oauthError m = None ->
  parsePath root <> EmptyString ->
  lookupDir contents rootID (segments (fst (SplitPath (parsePath root)))) = Some P ->
  findFolder (contents (dirIDtoNumber P)) (snd (SplitPath (parsePath root))) = None ->
  findFile (contents (dirIDtoNumber P)) (snd (SplitPath (parsePath root))) = Some item ->
  exists newF w1,
    NewFs name root m w = Done (Some newF, Some ErrorIsFile) w1 /\
    Pcloud.root newF = fst (SplitPath (parsePath root)) /\
    cacheAt w1 (dirCache newF) =
      resolved (DirCacheState.New (fst (SplitPath (parsePath root))) rootID) P /\
    exists w2,
      List newF "" w1 =
        Done (map (entryOf newF "") (contents (dirIDtoNumber P)), None) w2 /\
      In (EntryObject
            {| fs := newF;
               remote := path_Join "" (snd (SplitPath (parsePath root)));
               hasMetaData := true; size := Size item; modTime := ModTime item;
               id := ID item; md5 := ""; sha1 := "" |})
         (map (entryOf newF "") (contents (dirIDtoNumber P))).
Proof.
  intros Hlists Hparse Hoauth Hne Hparent Hnodir Hfile.
  assert (startsWithSlash (parsePath root) = false) as Hstart
    by apply Trim_startsWithSlash.
  pose proof (segments_SplitPath _ Hne Hstart) as Hsegs.
  pose proof (SplitPath_leaf_noSlash (parsePath root)) as Hleaf.
  pose proof (SplitPath_parent_start _ Hstart) as HstartP.
  set (root' := parsePath root) in *.
  destruct (SplitPath root') as [newRoot leaf] eqn:Esplit. cbn [fst snd] in *.
  unfold NewFs. rewrite Hparse, Hoauth. fold root'.
  (* the pacer and the first cache *)
  unfold PacerCall.New. rewrite (bind_Done _ _ _ _ _ (allocPacer_run _ w)).
  unfold DirCache.New at 1. rewrite (bind_Done _ _ _ _ _ (allocCache_run _ _)).
  cbn [nextCache nextPacer caches].
  match goal with |- context [bind (FindRoot ?f0 false) _ ?x] =>
    set (f := f0); set (wb := x) end.
  assert (cacheAt wb (dirCache f) = DirCacheState.New root' rootID) as Hfresh.
  { unfold cacheAt, wb. cbn [caches dirCache f]. rewrite lookup_insert_eq. reflexivity. }
  destruct (FindRoot_fresh contents Hlists f root' wb Hfresh Hstart)
    as (wc & Hrun1 & Hn1 & _ & _).
  rewrite Hsegs, lookupDir_app, Hparent in Hrun1. cbn [lookupDir] in Hrun1.
  rewrite Hnodir in Hrun1.
  rewrite (bind_Done _ _ _ _ _ Hrun1).
  rewrite Esplit.
  (* the second cache, on the parent *)
  unfold DirCache.New at 1. rewrite (bind_Done _ _ _ _ _ (allocCache_run _ _)).
  match goal with |- context [bind (FindRoot ?f0 false) _ ?x] =>
    set (newF := f0); set (wd := x) end.
  assert (cacheAt wd (dirCache newF) = DirCacheState.New newRoot rootID) as Hfresh2.
  { unfold cacheAt, wd. cbn [caches dirCache newF withDirCache].
    rewrite lookup_insert_eq. reflexivity. }
  destruct (FindRoot_fresh contents Hlists newF newRoot wd Hfresh2 HstartP)
    as (we & Hrun2 & Hn2 & _ & Hres).
  rewrite Hparent in Hrun2, Hres.
  rewrite (bind_Done _ _ _ _ _ Hrun2).
  (* the object *)
  assert (FoundRoot (cacheAt we (dirCache newF)) = true) as Hfound.
  { rewrite Hres. reflexivity. }
  destruct (readMetaDataForPath_leaf contents Hlists newF leaf we Hfound Hleaf)
    as (wf & [Hq Hnq] & Hmeta).
  rewrite Hres in Hmeta. cbn [DirCacheState.rootID resolved] in Hmeta.
  rewrite Hfile in Hmeta.
  destruct (findFile_In _ _ _ Hfile) as (raw & Hin & Hraw & Hname & Hitem).
  assert (IsFolder item = false) as Hnf by (rewrite Hitem; exact Hraw).
  assert (newObjectWithInfo newF leaf None we =
            Done (Some {| fs := newF; remote := leaf; hasMetaData := true;
                          size := Size item; modTime := ModTime item; id := ID item;
                          md5 := ""; sha1 := "" |}, None) wf) as Hobj.
  { unfold newObjectWithInfo, readMetaData. cbn [newObject hasMetaData fs remote].
    rewrite bind_bind. rewrite (bind_Done _ _ _ _ _ Hmeta).
    unfold setMetaData. rewrite Hnf. reflexivity. }
  rewrite (bind_Done _ _ _ _ _ Hobj).
  exists newF, wf. split; [reflexivity|]. split; [reflexivity|].
  assert (cacheAt wf (dirCache newF) = resolved (DirCacheState.New newRoot rootID) P)
    as Hcache.
  { unfold cacheAt. rewrite Hq. exact Hres. }
  split; [exact Hcache|].
  assert (FoundRoot (cacheAt wf (dirCache newF)) = true) as Hfound'.
  { rewrite Hcache. reflexivity. }
  destruct (List_root contents Hlists newF wf Hfound') as (w2 & Hlist).
  rewrite Hcache in Hlist. cbn [DirCacheState.rootID resolved] in Hlist.
  exists w2. split; [exact Hlist|].
  apply in_map_iff. exists raw. split; [|exact Hin].
  unfold entryOf. rewrite Hraw, Hname, Hitem. reflexivity.
Qed.
End PcloudNewFs.

Section PcloudExample.
Import Pcloud.

Lemma example_lists : @lists Example.pcloudEnv Example.pcloudFolder.
Proof.
  intros [] id.
  exists {| resp := Example.status 200; err := None;
            payload := PcloudItemPayload (0, "") PcloudApi.emptyItem
                         (Example.pcloudFolder id);
            bodyRead := O |}, (0, ""), PcloudApi.emptyItem.
  repeat split; reflexivity.
Qed.

(** The [Fs] and the world [NewFs] makes of the root [a/b/report.txt]
    on the account of [Example.pcloudEnv], and the listing of that
    [Fs]. *)
Definition fileRootRun : Res (option Fs * option error) :=
  @NewFs Example.pcloudEnv "remote" "a/b/report.txt" (mkConfig None None)
    (@Example.emptyWorld Example.pcloudEnv tt).

Definition fileRootFs : Fs :=
  match fileRootRun with
  | Done (Some f, _) _ => f
  | _ => mkFs "" "" O O
  end.

Definition fileRootWorld : @World Example.pcloudEnv :=
  match fileRootRun with
  | Done _ w => w
  | _ => @Example.emptyWorld Example.pcloudEnv tt
  end.

Definition fileRootList : Res (list DirEntry * option error) :=
  @List Example.pcloudEnv fileRootFs "" fileRootWorld.

Definition fileRootEntries : list DirEntry :=
  match fileRootList with
  | Done (entries, _) _ => entries
  | _ => []
  end.

Definition fileRootListed : @World Example.pcloudEnv :=
  match fileRootList with
  | Done _ w => w
  | _ => fileRootWorld
  end.
End PcloudExample.

(** C1, as the claim states it, fails: [a/b/report.txt] is a file of
    the account, its parent [a/b] is a directory, [NewFs] returns the
    [Fs] of [a/b] together with [ErrorIsFile], and [List] of that [Fs]
    returns two entries, for [report.txt] and for [other.txt]. *)
Lemma root_is_file_counterexample :
  let H := Example.pcloudEnv in
  fileRootRun = Done (Some fileRootFs, Some ErrorIsFile) fileRootWorld /\
  Pcloud.root fileRootFs = "a/b" /\
  fileRootList = Done (fileRootEntries, None) fileRootListed /\
  map (fun e => match e with
                | Pcloud.EntryObject o => Pcloud.remote o
                | Pcloud.EntryDir r _ _ => r
                end) fileRootEntries = ["report.txt"; "other.txt"] /\
  length fileRootEntries <> 1%nat.
Proof.
  intros H.
  assert (result fileRootRun = Some (Some fileRootFs, Some ErrorIsFile)) as R1
    by (vm_compute; reflexivity).
  assert (result fileRootList = Some (fileRootEntries, None)) as R2
    by (vm_compute; reflexivity).
  split; [exact (Done_eta _ _ (Example.emptyWorld tt) R1)|].
  split; [vm_compute; reflexivity|].
  split; [exact (Done_eta _ _ fileRootWorld R2)|].
  split; [vm_compute; reflexivity|]. vm_compute. discriminate.
Qed.

Lemma pcloud_root_is_file_witness :
  let H := Example.pcloudEnv in
  let root := "a/b/report.txt" in
  let m := Pcloud.mkConfig None None in
  let w := Example.emptyWorld tt in
  let item := PcloudApi.mkItem "f3" "report.txt" false 12 0 in
  lists Example.pcloudFolder /\
  Pcloud.parseError m = None /\ Pcloud.oauthError m = None /\
  Pcloud.parsePath root <> EmptyString /\
  lookupDir Example.pcloudFolder Pcloud.rootID
    (DirCacheState.segments (fst (DirCacheState.SplitPath (Pcloud.parsePath root)))) =
    Some "d2" /\
  findFolder (Example.pcloudFolder (Pcloud.dirIDtoNumber "d2"))
    (snd (DirCacheState.SplitPath (Pcloud.parsePath root))) = None /\
  findFile (Example.pcloudFolder (Pcloud.dirIDtoNumber "d2"))
    (snd (DirCacheState.SplitPath (Pcloud.parsePath root))) = Some item /\
  exists newF w1,
    Pcloud.NewFs "remote" root m w = Done (Some newF, Some ErrorIsFile) w1 /\
    Pcloud.root newF = "a/b" /\
    exists w2 entries,
      Pcloud.List newF "" w1 = Done (entries, None) w2 /\
      length entries = 2%nat.
Proof.
  intros H root m w item.
  split; [exact example_lists|].
  split; [reflexivity|]. split; [reflexivity|].
  split; [vm_compute; discriminate|].
  split; [vm_compute; reflexivity|].
  split; [vm_compute; reflexivity|].
  split; [vm_compute; reflexivity|].
  destruct (pcloud_root_is_file Example.pcloudFolder "remote" root m w "d2" item)
    as (newF & w1 & Hnew & Hroot & _ & w2 & Hlist & _);
    [exact example_lists | reflexivity | reflexivity | vm_compute; discriminate
    | vm_compute; reflexivity | vm_compute; reflexivity | vm_compute; reflexivity |].
  exists newF, w1. split; [exact Hnew|]. split; [exact Hroot|].
  exists w2, (map (entryOf newF "") (Example.pcloudFolder (Pcloud.dirIDtoNumber "d2"))).
  split; [exact Hlist|]. reflexivity.
Defined.

(** * Further properties of the two backends *)

(** ** pCloud: names that round-trip *)

Section PcloudRoundTrip.
Import GoStrings Pcloud.

Lemma prefix_split (old y : string) :
  String.prefix old y = true -> exists z, y = old +:+ z.
Proof.
  revert y. induction old as [|a old IH]; intros y HP.
  - exists y. reflexivity.
  - destruct y as [|c y]; [discriminate HP|].
    apply prefix_cons_inv in HP as [-> HP].
    destruct (IH _ HP) as (z & ->). exists z. reflexivity.
Qed.

Lemma occurs_prefix (c : ascii) (old y : string) :
  String.prefix old y = true -> occurs c y = false -> occurs c old = false.
Proof.
  intros HP Hy. destruct (prefix_split _ _ HP) as (z & ->).
  rewrite occurs_app in Hy. apply orb_false_iff in Hy as [Hy _]. exact Hy.
Qed.

(** A name without a question mark comes back from the provider as
    it was sent, and no name is sent with a backslash in it. *)
Theorem pcloud_names_round_trip (x : string) :
  occurs "?" x = false ->
  occurs "\" (replaceReservedChars x) = false /\
  restoreReservedChars (replaceReservedChars x) = x.
Proof.
  intros Hx. split; [apply replace_byte_occurs; reflexivity|].
  unfold restoreReservedChars, replaceReservedChars, backslash, substitute.
  induction x as [|c x IH]; [reflexivity|].
  cbn [occurs] in Hx. apply orb_false_iff in Hx as [Hc Hx].
  rewrite replace_byte_cons.
  destruct (Ascii.eqb "\" c) eqn:E.
  - apply Ascii.eqb_eq in E. subst c.
    rewrite (replace_hit "?" "??"). rewrite append_cons, append_nil.
    f_equal. apply IH, Hx.
  - rewrite replace_miss.
    + f_equal. apply IH, Hx.
    + apply prefix_cons_diff. apply Ascii.eqb_neq in Hc. congruence.
Qed.

Lemma replaceFrom_drop (old new : string) (k : nat) (y : string) :
  replaceFrom old new k y = replaceFrom old new 0 (drop k y).
Proof.
  revert y. induction k as [|k IH]; intros y.
  - destruct y; reflexivity.
  - destruct y as [|c y]; [reflexivity|]. cbn [replaceFrom drop]. apply IH.
Qed.

(** A name of the provider without a backslash is sent back to it as
    it was received. *)
Theorem pcloud_names_round_trip_back (y : string) :
  occurs "\" y = false ->
  replaceReservedChars (restoreReservedChars y) = y.
Proof.
  unfold replaceReservedChars, restoreReservedChars, backslash, substitute.
  revert y.
  assert (forall n (y : string),
            (String.length y <= n)%nat -> occurs "\" y = false ->
            Replace (Replace y "???" "\") "\" "???" = y) as Hall.
  { induction n as [|n IH]; intros y Hlen Hy.
    - destruct y; [reflexivity | cbn in Hlen; lia].
    - destruct y as [|c y]; [reflexivity|].
      destruct (String.prefix "???" (String c y)) eqn:HP.
      + destruct (prefix_split _ _ HP) as (z & Hz). rewrite Hz.
        rewrite (replace_hit "?" "??" "\" z). rewrite append_cons, append_nil.
        rewrite replace_byte_cons, Ascii.eqb_refl.
        rewrite IH; [reflexivity | |].
        * apply (f_equal String.length) in Hz.
          rewrite !append_cons, append_nil in Hz. cbn [String.length] in *. lia.
        * rewrite Hz, occurs_app in Hy. apply orb_false_iff in Hy as [_ Hy]. exact Hy.
      + rewrite replace_miss by exact HP.
        cbn [occurs] in Hy. apply orb_false_iff in Hy as [Hc Hy].
        rewrite replace_byte_cons, Ascii.eqb_sym, Hc.
        f_equal. apply IH; [cbn in Hlen; lia | exact Hy]. }
  intros y Hy. exact (Hall (String.length y) y (le_n _) Hy).
Qed.
End PcloudRoundTrip.

Lemma pcloud_names_round_trip_witness :
  GoStrings.occurs "?" "a\b\\c.txt" = false /\
  GoStrings.occurs "\" (Pcloud.replaceReservedChars "a\b\\c.txt") = false /\
  Pcloud.restoreReservedChars (Pcloud.replaceReservedChars "a\b\\c.txt") = "a\b\\c.txt".
Proof.
  split; [reflexivity|].
  apply (pcloud_names_round_trip "a\b\\c.txt"). reflexivity.
Defined.

Lemma pcloud_names_round_trip_back_witness :
  GoStrings.occurs "\" "what????.txt" = false /\
  Pcloud.replaceReservedChars (Pcloud.restoreReservedChars "what????.txt") =
    "what????.txt".
Proof.
  split; [reflexivity|].
  apply (pcloud_names_round_trip_back "what????.txt"). reflexivity.
Defined.

(** ** The configured root, trimmed *)

Section ParsePath.
Import GoStrings DirCacheState.

Fixpoint endsWithSlash (s : string) : bool :=
  match s with
  | EmptyString => false
  | String c EmptyString => Ascii.eqb c slash
  | String _ s' => endsWithSlash s'
  end.

Lemma trimLeft_fixed (s : string) :
  startsWithSlash s = false -> trimLeft slash s = s.
Proof. destruct s as [|a s]; [reflexivity|]. cbn. intros ->. reflexivity. Qed.

Lemma trimRight_fixed (s : string) :
  endsWithSlash s = false -> trimRight slash s = s.
Proof.
  induction s as [|a s IH]; [reflexivity|]. intros He.
  destruct s as [|b s].
  - cbn in *. rewrite He. reflexivity.
  - change (endsWithSlash (String b s) = false) in He.
    cbn [trimRight]. cbn [trimRight] in IH. rewrite (IH He). reflexivity.
Qed.

Lemma trimRight_ends (s : string) : endsWithSlash (trimRight slash s) = false.
Proof.
  induction s as [|a s IH]; [reflexivity|]. cbn [trimRight].
  destruct (trimRight slash s) as [|b t] eqn:E.
  - destruct (Ascii.eqb a slash) eqn:Ea; [reflexivity|]. cbn. exact Ea.
  - exact IH.
Qed.

Lemma trimRight_starts (s : string) :
  startsWithSlash s = false -> startsWithSlash (trimRight slash s) = false.
Proof.
  destruct s as [|a s]; [reflexivity|]. cbn [startsWithSlash trimRight]. intros Ha.
  destruct (trimRight slash s); [|exact Ha].
  rewrite Ha. exact Ha.
Qed.

Lemma trimLeft_starts (s : string) : startsWithSlash (trimLeft slash s) = false.
Proof.
  induction s as [|a s IH]; [reflexivity|]. cbn [trimLeft].
  destruct (Ascii.eqb a slash) eqn:Ea; [exact IH | exact Ea].
Qed.

(** Both backends keep the configured root without slashes at its
    ends: [parsePath] removes them all, changes nothing else, and
    leaves a root that has none as it is. *)
Theorem parsePath_canonical (path : string) :
  Onedrive.parsePath path = Pcloud.parsePath path /\
  startsWithSlash (Pcloud.parsePath path) = false /\
  endsWithSlash (Pcloud.parsePath path) = false /\
  Pcloud.parsePath (Pcloud.parsePath path) = Pcloud.parsePath path /\
  (startsWithSlash path = false -> endsWithSlash path = false ->
   Pcloud.parsePath path = path).
Proof.
  assert (forall p, startsWithSlash p = false -> endsWithSlash p = false ->
                    Trim p slash = p) as Hfixed.
  { intros p Hs He. unfold Trim. rewrite (trimLeft_fixed p Hs).
    apply trimRight_fixed, He. }
  assert (startsWithSlash (Trim path slash) = false) as Hs
    by (apply trimRight_starts, trimLeft_starts).
  assert (endsWithSlash (Trim path slash) = false) as He by apply trimRight_ends.
  split; [reflexivity|]. split; [exact Hs|]. split; [exact He|].
  split; [exact (Hfixed _ Hs He) | exact (Hfixed path)].
Qed.
End ParsePath.

(** ** OneDrive: identifiers with a drive *)

Section DirIDs.
Context `{Env}.
Import GoStrings Onedrive.

Lemma Contains_byte (s : string) (c : ascii) :
  Contains s (String c EmptyString) = occurs c s.
Proof.
  induction s as [|a s IH]; [reflexivity|].
  cbn [Contains occurs]. rewrite IH. f_equal.
  cbn. destruct (ascii_dec c a) as [->|Hne].
  - rewrite Ascii.eqb_refl. destruct s; reflexivity.
  - apply not_eq_sym in Hne. apply Ascii.eqb_neq in Hne. rewrite Hne. reflexivity.
Qed.

Lemma Split_byte_none (s : string) (c : ascii) :
  occurs c s = false -> Split s c = [s].
Proof.
  induction s as [|a s IH]; [reflexivity|]. cbn [occurs Split]. intros Ho.
  apply orb_false_iff in Ho as [Ha Ho]. rewrite Ha, (IH Ho). reflexivity.
Qed.

Lemma Split_byte_app (a b : string) (c : ascii) :
  occurs c a = false -> Split (a +:+ String c b) c = a :: Split b c.
Proof.
  induction a as [|x a IH]; intros Ho.
  - rewrite append_nil. cbn [Split]. rewrite Ascii.eqb_refl. reflexivity.
  - cbn [occurs] in Ho. apply orb_false_iff in Ho as [Hx Ho].
    rewrite append_cons. cbn [Split]. rewrite Hx, (IH Ho). reflexivity.
Qed.

(** An identifier [drive#item] is split into its item and its drive,
    and addressed under [/drives] of the graph URL; an identifier
    without [#] is an item of the default drive. *)
Theorem parseDirID_round_trip (drive item method route : string) :
  occurs "#" drive = false -> occurs "#" item = false ->
  parseDirID (drive +:+ "#" +:+ item) = (item, drive, graphURL +:+ "/drives") /\
  parseDirID item = (item, "", "") /\
  Path (newOptsCall item method route) = "/items/" +:+ item +:+ route /\
  RootURL (newOptsCall item method route) = "" /\
  (drive <> "" ->
   Path (newOptsCall (drive +:+ "#" +:+ item) method route) =
     "/" +:+ drive +:+ "/items/" +:+ item +:+ route /\
   RootURL (newOptsCall (drive +:+ "#" +:+ item) method route) =
     graphURL +:+ "/drives").
Proof.
  intros Hd Hi.
  assert (parseDirID (drive +:+ "#" +:+ item) = (item, drive, graphURL +:+ "/drives"))
    as Hcomposed.
  { unfold parseDirID. rewrite append_cons, append_nil.
    rewrite Contains_byte, occurs_app.
    cbn [occurs]. rewrite Ascii.eqb_refl, orb_true_r.
    rewrite (Split_byte_app _ _ _ Hd), (Split_byte_none _ _ Hi).
    reflexivity. }
  assert (parseDirID item = (item, "", "")) as Hplain.
  { unfold parseDirID. rewrite Contains_byte, Hi. reflexivity. }
  split; [exact Hcomposed|]. split; [exact Hplain|].
  unfold newOptsCall. rewrite Hplain, Hcomposed.
  split; [reflexivity|]. split; [reflexivity|].
  intros Hne. destruct drive; [congruence|]. split; reflexivity.
Qed.
End DirIDs.

Lemma parseDirID_round_trip_witness :
  let H := Example.onedriveEnv 0 in
  GoStrings.occurs "#" "b!drive" = false /\ GoStrings.occurs "#" "01ITEM" = false /\
  Onedrive.parseDirID "b!drive#01ITEM" =
    ("01ITEM", "b!drive", "https://graph.microsoft.com/v1.0/drives") /\
  Path (Onedrive.newOptsCall "b!drive#01ITEM" "GET" "/children") =
    "/b!drive/items/01ITEM/children".
Proof.
  intros H. split; [reflexivity|]. split; [reflexivity|].
  destruct (parseDirID_round_trip "b!drive" "01ITEM" "GET" "/children" eq_refl eq_refl)
    as (Hc & _ & _ & _ & Hp).
  split; [exact Hc|]. apply Hp. discriminate.
Defined.

(** ** OneDrive: an upload of no bytes *)

Section UploadNothing.
Context `{Env}.
Import Onedrive.

(** For a declared size of zero (or less), [uploadMultipart] opens an
    upload session and then uploads no fragment and cancels nothing:
    it returns a nil item and a nil error, and the session stays
    open; the world is the one the creation of the session left. *)
Theorem uploadMultipart_no_bytes (fuel : nat) (o : Object) (inp : string)
  (size modTime : Z) (url : string) (w w1 : World) :
  size <= 0 ->
  createUploadSession o modTime w = Done (Some url, None) w1 ->
  uploadMultipart fuel o inp size modTime w = Done (None, None) w1.
Proof.
  intros Hsize Hsession. unfold uploadMultipart.
  rewrite (bind_Done _ _ _ _ _ Hsession). cbn beta iota.
  assert (uploadChunks fuel o url size inp size 0 None w1 = Done (None, None) w1)
    as Hloop.
  { destruct fuel; cbn [uploadChunks];
      (destruct (Z.gtb_spec size 0); [lia | reflexivity]). }
  rewrite (bind_Done _ _ _ _ _ Hloop). reflexivity.
Qed.
End UploadNothing.

Lemma uploadMultipart_no_bytes_witness :
  let H := Example.onedriveEnv 1 in
  0 <= 0 /\
  Onedrive.createUploadSession demoObject 0 demoWorld0 =
    Done (Some "https://upload.example/session", None) demoWorld1 /\
  Onedrive.uploadMultipart 0 demoObject "" 0 0 demoWorld0 =
    Done (None, None) demoWorld1.
Proof.
  intros H.
  assert (result (Onedrive.createUploadSession demoObject 0 demoWorld0) =
            Some (Some "https://upload.example/session", None)) as R1
    by (vm_compute; reflexivity).
  pose proof (Done_eta _ _ demoWorld0 R1 :
                Onedrive.createUploadSession demoObject 0 demoWorld0 =
                  Done (Some "https://upload.example/session", None) demoWorld1) as H1.
  split; [lia|]. split; [exact H1|].
  apply (uploadMultipart_no_bytes 0 demoObject "" 0 0 "https://upload.example/session"
           demoWorld0 demoWorld1);
    [lia | exact H1].
Defined.

(** ** pCloud: what [Update] makes of the answer to the upload *)

Section PcloudUploadAnswer.
Context `{Env}.
Import Pcloud.

(** When the directory of the object resolves, the request is built
    and the provider's answer carries no error, [Update] looks at the
    items and the checksums of the answer: with other than one item it
    returns an error and leaves the object as it was; with one item
    and a checksum it sets the hashes and the metadata of the object
    from them; with one item and no checksum it indexes the empty
    list of checksums and panics. *)
Theorem Update_answer (o : Object) (inp : string) (size modTime : Z)
  (w w0 w1 : World) (leaf directoryID : string) (opts : Opts) (body : string) :
  emit EvRenewStart w = Done tt w0 ->
  FindRootAndPath (fs o) (remote o) true w0 = Done (leaf, directoryID, None) w1 ->
  uploadRequest o inp size modTime leaf directoryID = inr (opts, body) ->
  pcloud_Error_Update
    (fst (fst (decodeUpload (payload (snd (serve (server w1) opts NoJson body)))
                 ((0, ""), [], []))))
    (err (snd (serve (server w1) opts NoJson body))) = None ->
  match decodeUpload (payload (snd (serve (server w1) opts NoJson body)))
          ((0, ""), [], []) with
  | (_, [item], h :: _) =>
      exists w', Update o inp size modTime w =
                   Done (setMetaData (setHashes o h) item) w'
  | (_, [item], []) =>
      exists w', Update o inp size modTime w = Crashed "index out of range" w'
  | (_, _, _) =>
      exists w', Update o inp size modTime w =
                   Done (o, Some (ErrorNew "failed to upload - not sure why")) w'
  end.
Proof.
  intros Hstart Hfind Hreq Herr.
  assert (exists st' retry wa,
            uploadAttempt opts body (((0, ""), [], []), None) w1 =
              Done (st', retry, None) wa /\
            fst st' = decodeUpload (payload (snd (serve (server w1) opts NoJson body)))
                        ((0, ""), [], [])) as (st' & retry & wa & Hatt & Hst).
  { unfold uploadAttempt, bind, call.
    destruct (serve (server w1) opts NoJson body) as [s rp]. cbn [snd fst] in *.
    rewrite Herr. unfold shouldRetry.
    eexists. eexists. eexists. split; reflexivity. }
  destruct (CallNoRetry_once (pacer (fs o)) _ _ _ _ _ _ _ Hatt) as (w2 & Hcall & _).
  assert (doUpdate o inp size modTime w0 =
            match fst st' with
            | (_, [item], h :: _) => Done (setMetaData (setHashes o h) item) w2
            | (_, [item], []) => Crashed "index out of range" w2
            | (_, _, _) =>
                Done (o, Some (ErrorNew "failed to upload - not sure why")) w2
            end) as Hdo.
  { unfold doUpdate. rewrite (bind_Done _ _ _ _ _ Hfind). cbn beta iota.
    rewrite Hreq. rewrite (bind_Done _ _ _ _ _ Hcall). cbn beta iota.
    destruct (fst st') as [[e items] checksums].
    destruct items as [|item [|]]; try reflexivity.
    destruct checksums; reflexivity. }
  rewrite <- Hst.
  assert (forall r,
            doUpdate o inp size modTime w0 = r ->
            Update o inp size modTime w =
              match r with
              | Done a w' => (emit EvRenewStop ;;; ret a) w'
              | Crashed msg w' => Crashed msg w'
              | OutOfFuel => OutOfFuel
              end) as Hup.
  { intros r <-. unfold Update. rewrite (bind_Done _ _ _ _ _ Hstart). reflexivity. }
  destruct (fst st') as [[e items] checksums].
  destruct items as [|item [|]]; try (rewrite (Hup _ Hdo); eexists; reflexivity).
  destruct checksums; rewrite (Hup _ Hdo); eexists; reflexivity.
Qed.
End PcloudUploadAnswer.

Section PcloudUploadAnswerWitness.
Import Pcloud.

(** An upload of five bytes to [a/b/new.bin] on the account of
    [Example.pcloudEnv]. *)
Definition sentObject : Object := newObject treeFs "a/b/new.bin".

Definition sentRenewing : @World Example.pcloudEnv :=
  worldOr (snd treeStart) (@emit Example.pcloudEnv EvRenewStart (snd treeStart)).

Definition sentFound : @World Example.pcloudEnv :=
  worldOr sentRenewing
    (@FindRootAndPath Example.pcloudEnv (fs sentObject) (remote sentObject) true
       sentRenewing).

Definition sentRequest : Opts * string :=
  match @uploadRequest Example.pcloudEnv sentObject "hello" 5 0 "new.bin" "d2" with
  | inr x => x
  | inl _ => (emptyOpts, "")
  end.
End PcloudUploadAnswerWitness.

Lemma Update_answer_witness :
  let H := Example.pcloudEnv in
  let item := PcloudApi.mkItem "f9" "new.bin" false 5 0 in
  let h := PcloudApi.mkHashes "" "" in
  emit EvRenewStart (snd treeStart) = Done tt sentRenewing /\
  Pcloud.FindRootAndPath (Pcloud.fs sentObject) (Pcloud.remote sentObject) true
    sentRenewing = Done ("new.bin", "d2", None) sentFound /\
  Pcloud.uploadRequest sentObject "hello" 5 0 "new.bin" "d2" =
    inr (fst sentRequest, snd sentRequest) /\
  exists w',
    Pcloud.Update sentObject "hello" 5 0 (snd treeStart) =
      Done (Pcloud.setMetaData (Pcloud.setHashes sentObject h) item) w'.
Proof.
  intros H item h.
  assert (emit EvRenewStart (snd treeStart) = Done tt sentRenewing) as H1
    by reflexivity.
  assert (result (Pcloud.FindRootAndPath (Pcloud.fs sentObject)
                    (Pcloud.remote sentObject) true sentRenewing) =
            Some ("new.bin", "d2", None)) as R2 by (vm_compute; reflexivity).
  pose proof (Done_eta _ _ sentRenewing R2 :
                Pcloud.FindRootAndPath (Pcloud.fs sentObject)
                  (Pcloud.remote sentObject) true sentRenewing =
                Done ("new.bin", "d2", None) sentFound) as H2.
  assert (Pcloud.uploadRequest sentObject "hello" 5 0 "new.bin" "d2" =
            inr (fst sentRequest, snd sentRequest)) as H3 by (vm_compute; reflexivity).
  split; [exact H1|]. split; [exact H2|]. split; [exact H3|].
  assert (Pcloud.decodeUpload
            (payload (snd (serve (server sentFound) (fst sentRequest) NoJson
                             (snd sentRequest))))
            ((0, ""), [], []) = ((0, ""), [item], [h])) as Hdec
    by (vm_compute; reflexivity).
  pose proof (Update_answer sentObject "hello" 5 0 (snd treeStart) sentRenewing
                sentFound "new.bin" "d2" (fst sentRequest) (snd sentRequest)
                H1 H2 H3) as Hm.
  rewrite Hdec in Hm. apply Hm. vm_compute. reflexivity.
Defined.

(** ** What the reading operations send *)

Ltac emitting_step :=
  first
    [ apply emitsOnly_ret
    | apply emitsOnly_crash
    | apply emitsOnly_outOfFuel
    | apply emitsOnly_getPacer
    | apply emitsOnly_modifyPacer
    | apply emitsOnly_readCache
    | apply emitsOnly_writeCache
    | apply emitsOnly_allocCache
    | apply emitsOnly_allocPacer
    | apply emitsOnly_bind; [|intros]
    | match goal with
      | |- emitsOnly _ (match ?x with _ => _ end) => destruct x
      | |- emitsOnly _ (let '(_, _) := ?x in _) => destruct x
      end ].

Ltac emitting := repeat emitting_step.

Section ResolveOnly.
Context `{Env}.
Variable P : Event -> Prop.
Variable FindLeaf : string -> string -> M (string * bool * option error).
Variable CreateDir : string -> string -> M (string * option error).
Hypothesis HFindLeaf : forall a b, emitsOnly P (FindLeaf a b).

(** Resolving without creating sends what [FindLeaf] sends. *)
Lemma emitsOnly_findSegments_resolve (dc : nat) (segs : list string) :
  forall parent parentID,
    emitsOnly P (DirCache.findSegments FindLeaf CreateDir dc false parent parentID segs).
Proof.
  induction segs as [|leaf rest IH]; intros parent parentID;
    cbn [DirCache.findSegments]; [apply emitsOnly_ret|].
  apply emitsOnly_bind; [apply emitsOnly_readCache|]. intros st.
  destruct (DirCacheState.Get st _); [apply IH|].
  apply emitsOnly_bind; [apply HFindLeaf|]. intros [[id found] e].
  destruct e; [apply emitsOnly_ret|].
  destruct found; [|apply emitsOnly_ret].
  emitting. apply IH.
Qed.

Lemma emitsOnly_FindDir_resolve (dc : nat) (path : string) :
  emitsOnly P (DirCache.FindDir FindLeaf CreateDir dc path false).
Proof. unfold DirCache.FindDir. emitting. apply emitsOnly_findSegments_resolve. Qed.

Lemma emitsOnly_FindRoot_resolve (dc : nat) :
  emitsOnly P (DirCache.FindRoot FindLeaf CreateDir dc false).
Proof.
  unfold DirCache.FindRoot. apply emitsOnly_bind; [apply emitsOnly_readCache|].
  intros st. destruct (DirCacheState.FoundRoot st); [apply emitsOnly_ret|].
  apply emitsOnly_bind; [apply emitsOnly_FindDir_resolve|]. intros [id e]. emitting.
Qed.

Lemma emitsOnly_FindRootAndPath_resolve (dc : nat) (path : string) :
  emitsOnly P (DirCache.FindRootAndPath FindLeaf CreateDir dc path false).
Proof.
  unfold DirCache.FindRootAndPath.
  apply emitsOnly_bind; [apply emitsOnly_FindRoot_resolve|]. intros [e|].
  - apply emitsOnly_ret.
  - unfold DirCache.FindPath. destruct (DirCacheState.SplitPath path).
    apply emitsOnly_bind; [apply emitsOnly_FindDir_resolve|]. intros [id e]. emitting.
Qed.
End ResolveOnly.

Section PcloudReadOnly.
Context `{Env}.
Import Pcloud.

(** A request for the listing of a folder. *)
Definition isListing (e : Event) : Prop :=
  exists id, e = EvCall (withParams "GET" "/listfolder" [("folderid", id)]) NoJson "".

Lemma listing_listAll {Acc : Type} (f : Fs) (dirID : string) (d fo : bool)
  (fn : Acc -> PcloudApi.Item -> M (Acc * bool)) (acc : Acc) :
  (forall acc item, emitsOnly isListing (fn acc item)) ->
  emitsOnly isListing (listAll f dirID d fo fn acc).
Proof.
  intros Hfn. unfold listAll.
  apply emitsOnly_bind.
  - apply emitsOnly_Call. intros st. apply emitsOnly_itemCall. eexists. reflexivity.
  - intros [st e]. destruct e; [apply emitsOnly_ret|].
    apply emitsOnly_bind; [apply emitsOnly_listItems, Hfn|].
    intros [acc' found]. apply emitsOnly_ret.
Qed.

Lemma listing_FindLeaf (f : Fs) (pathID leaf : string) :
  emitsOnly isListing (FindLeaf f pathID leaf).
Proof.
  unfold FindLeaf. apply emitsOnly_bind.
  - apply listing_listAll. intros out item.
    destruct (String.eqb _ _); apply emitsOnly_ret.
  - intros [[out found] e]. apply emitsOnly_ret.
Qed.

Lemma listing_FindRoot (f : Fs) : emitsOnly isListing (FindRoot f false).
Proof. apply emitsOnly_FindRoot_resolve. intros a b. apply listing_FindLeaf. Qed.

Lemma listing_readMetaDataForPath (f : Fs) (path : string) :
  emitsOnly isListing (readMetaDataForPath f path).
Proof.
  unfold readMetaDataForPath. apply emitsOnly_bind.
  - apply emitsOnly_FindRootAndPath_resolve. intros a b. apply listing_FindLeaf.
  - intros [[leaf directoryID] e]. destruct e as [e|].
    + destruct (isErrorDirNotFound e); apply emitsOnly_ret.
    + apply emitsOnly_bind.
      * apply listing_listAll. intros info item.
        destruct (String.eqb _ _); apply emitsOnly_ret.
      * intros [[info found] e]. destruct e; [apply emitsOnly_ret|].
        destruct found; apply emitsOnly_ret.
Qed.

Lemma listing_newObjectWithInfo (f : Fs) (remote : string)
  (info : option PcloudApi.Item) :
  emitsOnly isListing (newObjectWithInfo f remote info).
Proof.
  unfold newObjectWithInfo. apply emitsOnly_bind.
  - destruct info; [apply emitsOnly_ret|].
    unfold readMetaData. cbn [hasMetaData newObject].
    apply emitsOnly_bind; [apply listing_readMetaDataForPath|].
    intros [i e]. destruct e; [apply emitsOnly_ret|].
    destruct i; [apply emitsOnly_ret | apply emitsOnly_crash].
  - intros [o e]. destruct e; apply emitsOnly_ret.
Qed.

Lemma listing_List (f : Fs) (dir : string) : emitsOnly isListing (List f dir).
Proof.
  unfold List. apply emitsOnly_bind; [apply listing_FindRoot|]. intros [e|].
  { apply emitsOnly_ret. }
  apply emitsOnly_bind.
  { apply emitsOnly_FindDir_resolve. intros a b. apply listing_FindLeaf. }
  intros [directoryID e]. destruct e; [apply emitsOnly_ret|].
  apply emitsOnly_bind.
  - apply listing_listAll. intros acc info. unfold listEntry.
    destruct (PcloudApi.IsFolder info).
    + unfold DirCache.PutM. emitting.
    + apply emitsOnly_bind; [apply listing_newObjectWithInfo|].
      intros [o e]. destruct e; [apply emitsOnly_ret|].
      destruct o; [apply emitsOnly_ret | apply emitsOnly_crash].
  - intros [[acc found] e]. destruct e; [apply emitsOnly_ret|].
    destruct (snd acc); apply emitsOnly_ret.
Qed.

Lemma listing_NewFs (name root : string) (m : Config) :
  emitsOnly isListing (NewFs name root m).
Proof.
  unfold NewFs. destruct (parseError m); [apply emitsOnly_ret|].
  destruct (oauthError m); [apply emitsOnly_crash|].
  unfold PacerCall.New, DirCache.New.
  apply emitsOnly_bind; [apply emitsOnly_allocPacer|]. intros p.
  apply emitsOnly_bind; [apply emitsOnly_allocCache|]. intros dc.
  apply emitsOnly_bind; [apply listing_FindRoot|]. intros [e|]; [|apply emitsOnly_ret].
  destruct (DirCacheState.SplitPath (parsePath root)) as [newRoot remote].
  apply emitsOnly_bind; [apply emitsOnly_allocCache|]. intros dc'.
  apply emitsOnly_bind; [apply listing_FindRoot|]. intros [e'|]; [apply emitsOnly_ret|].
  apply emitsOnly_bind; [apply listing_newObjectWithInfo|]. intros [o e'].
  destruct e' as [e'|]; [|apply emitsOnly_ret].
  destruct (isErrorObjectNotFound e'); apply emitsOnly_ret.
Qed.

(** [NewFs], [List] and [NewObject] of the pCloud backend only read
    the account: whether they return or panic, every request they
    have sent is a GET of [/listfolder]. *)
Theorem pcloud_reading_only_lists (name root : string) (m : Config) (f : Fs)
  (dir remote : string) :
  emitsOnly isListing (NewFs name root m) /\
  emitsOnly isListing (List f dir) /\
  emitsOnly isListing (newObjectWithInfo f remote None).
Proof.
  split; [apply listing_NewFs|].
  split; [apply listing_List | apply listing_newObjectWithInfo].
Qed.
End PcloudReadOnly.

Section EmitsWeaken.
Context `{Env}.

Lemma emitsOnly_weaken (P Q : Event -> Prop) {A : Type} (m : M A) :
  (forall e, P e -> Q e) -> emitsOnly P m -> emitsOnly Q m.
Proof.
  intros HPQ Hm w. specialize (Hm w).
  destruct (m w) as [a w'|msg w'|]; [| |exact I];
    destruct Hm as (evs & Htr & HP); exists evs;
    (split; [exact Htr | eapply Forall_impl; eassumption]).
Qed.
End EmitsWeaken.

Section PcloudRmdir.
Context `{Env}.
Import Pcloud.

(** A request for a listing, or the POST of [path] for a folder. *)
Definition isListingOrPost (path : string) (e : Event) : Prop :=
  isListing e \/
  exists id, e = EvCall (withParams "POST" path [("folderid", id)]) NoJson "".

Lemma purgeCheck_requests (f : Fs) (dir : string) (check : bool) :
  emitsOnly
    (isListingOrPost (if check then "/deletefolder" else "/deletefolderrecursive"))
    (purgeCheck f dir check).
Proof.
  set (Q := isListingOrPost _).
  assert (forall a b, emitsOnly Q (FindLeaf f a b)) as HFindLeaf.
  { intros a b. apply (emitsOnly_weaken isListing); [|apply listing_FindLeaf].
    intros e He. left. exact He. }
  unfold purgeCheck. apply emitsOnly_bind.
  - unfold purgeRequest. destruct (path_Join (root f) dir); [apply emitsOnly_ret|].
    apply emitsOnly_bind; [apply emitsOnly_FindRoot_resolve, HFindLeaf|].
    intros [e|]; [apply emitsOnly_ret|].
    apply emitsOnly_bind; [apply emitsOnly_FindDir_resolve, HFindLeaf|].
    intros [rootID e]. destruct e; [apply emitsOnly_ret|].
    apply emitsOnly_bind.
    + apply emitsOnly_Call. intros st. apply emitsOnly_itemCall.
      right. eexists. reflexivity.
    + intros [st e]. destruct e; apply emitsOnly_ret.
  - intros [e|]; [apply emitsOnly_ret|]. unfold DirCache.FlushDirM. emitting.
Qed.

(** [Rmdir] never asks the provider for a recursive deletion: besides
    listings, the only request it sends is the POST of
    [/deletefolder] for one folder.  [Purge] sends
    [/deletefolderrecursive] instead. *)
Theorem pcloud_Rmdir_not_recursive (f : Fs) (dir : string) :
  emitsOnly (isListingOrPost "/deletefolder") (Rmdir f dir) /\
  emitsOnly (isListingOrPost "/deletefolderrecursive") (Purge f).
Proof.
  split; [exact (purgeCheck_requests f dir true) | exact (purgeCheck_requests f "" false)].
Qed.
End PcloudRmdir.

Section OnedriveReadOnly.
Context `{Env}.
Import Onedrive.

(** A GET request without a body. *)
Definition isGet (e : Event) : Prop :=
  exists opts, e = EvCall opts NoJson "" /\ Method opts = "GET".

Lemma newOptsCall_Method (id method route : string) :
  Method (newOptsCall id method route) = method.
Proof.
  unfold newOptsCall. destruct (parseDirID id) as [[i drive] rootURL].
  destruct drive; reflexivity.
Qed.

Lemma get_readMetaDataForPath (f : Fs) (path : string) :
  emitsOnly isGet (readMetaDataForPath f path).
Proof.
  unfold readMetaDataForPath. apply emitsOnly_bind.
  - apply emitsOnly_Call. intros st.
    apply emitsOnly_bind.
    + apply emitsOnly_call. eexists. split; [reflexivity|]. destruct path; reflexivity.
    + intros r. destruct (shouldRetry _ _). apply emitsOnly_ret.
  - intros [st e]. apply emitsOnly_ret.
Qed.

Lemma get_FindLeaf (f : Fs) (pathID leaf : string) :
  emitsOnly isGet (FindLeaf f pathID leaf).
Proof.
  unfold FindLeaf. apply emitsOnly_bind; [apply emitsOnly_readCache|]. intros dc.
  destruct (DirCacheState.GetInv dc pathID); [|apply emitsOnly_ret].
  apply emitsOnly_bind; [apply get_readMetaDataForPath|].
  intros [[info r] e]. destruct e.
  - destruct r as [r|]; [|apply emitsOnly_ret].
    destruct (StatusCode r =? 404); apply emitsOnly_ret.
  - destruct info as [i|]; [|apply emitsOnly_crash].
    destruct (OnedriveApi.Folder i); apply emitsOnly_ret.
Qed.

Lemma get_FindRoot (f : Fs) : emitsOnly isGet (FindRoot f false).
Proof. apply emitsOnly_FindRoot_resolve. intros a b. apply get_FindLeaf. Qed.

Lemma get_newObjectWithInfo (f : Fs) (remote : string)
  (info : option OnedriveApi.Item) :
  emitsOnly isGet (newObjectWithInfo f remote info).
Proof.
  unfold newObjectWithInfo. apply emitsOnly_bind.
  - destruct info; [apply emitsOnly_ret|].
    unfold readMetaData. cbn [hasMetaData newObject].
    apply emitsOnly_bind; [apply get_readMetaDataForPath|].
    intros [[i r] e]. destruct e as [e|].
    + destruct e; try apply emitsOnly_ret.
      destruct (String.eqb Code "itemNotFound") eqn:E.
      * apply String.eqb_eq in E. subst Code. apply emitsOnly_ret.
      * emitting.
    + destruct i; [apply emitsOnly_ret | apply emitsOnly_crash].
  - intros [o e]. destruct e; apply emitsOnly_ret.
Qed.

Lemma get_listItems {Acc : Type} (d fo : bool)
  (fn : Acc -> OnedriveApi.Item -> M (Acc * bool)) (items : list OnedriveApi.Item) :
  (forall acc item, emitsOnly isGet (fn acc item)) ->
  forall acc, emitsOnly isGet (listItems d fo fn items acc).
Proof.
  intros Hfn. induction items as [|item rest IH]; intros acc; cbn [listItems].
  - apply emitsOnly_ret.
  - destruct (if isSome (OnedriveApi.Folder item) then fo else d); [apply IH|].
    destruct (OnedriveApi.Deleted item); [apply IH|].
    apply emitsOnly_bind; [apply Hfn|]. intros [acc' stop].
    destruct stop; [apply emitsOnly_ret | apply IH].
Qed.

Lemma get_listPages {Acc : Type} (fuel : nat) (f : Fs) (d fo : bool)
  (fn : Acc -> OnedriveApi.Item -> M (Acc * bool)) :
  (forall acc item, emitsOnly isGet (fn acc item)) ->
  forall opts acc, Method opts = "GET" ->
    emitsOnly isGet (listPages fuel f opts d fo fn acc).
Proof.
  intros Hfn. induction fuel as [|k IH]; intros opts acc Hm; cbn [listPages].
  - apply emitsOnly_outOfFuel.
  - apply emitsOnly_bind.
    + apply emitsOnly_Call. intros st. apply emitsOnly_bind.
      * apply emitsOnly_call. eexists. split; [reflexivity | exact Hm].
      * intros r. destruct (shouldRetry _ _). apply emitsOnly_ret.
    + intros [st e]. destruct e; [apply emitsOnly_ret|].
      destruct (fst st) as [value nextLink].
      destruct value as [|v value]; [apply emitsOnly_ret|].
      apply emitsOnly_bind; [apply get_listItems, Hfn|].
      intros [acc' found]. destruct found; [apply emitsOnly_ret|].
      destruct nextLink; [apply emitsOnly_ret|].
      apply IH. exact Hm.
Qed.

Lemma get_List (fuel : nat) (f : Fs) (dir : string) :
  emitsOnly isGet (List fuel f dir).
Proof.
  unfold List. apply emitsOnly_bind; [apply get_FindRoot|]. intros [e|].
  { apply emitsOnly_ret. }
  apply emitsOnly_bind.
  { apply emitsOnly_FindDir_resolve. intros a b. apply get_FindLeaf. }
  intros [directoryID e]. destruct e; [apply emitsOnly_ret|].
  apply emitsOnly_bind.
  - unfold listAll. apply get_listPages; [|apply newOptsCall_Method].
    intros acc info. unfold listEntry.
    destruct (OnedriveApi.Folder info).
    + unfold DirCache.PutM. emitting.
    + apply emitsOnly_bind; [apply get_newObjectWithInfo|].
      intros [o e]. destruct e; [apply emitsOnly_ret|].
      destruct o; [apply emitsOnly_ret | apply emitsOnly_crash].
  - intros [[acc found] e]. destruct e; [apply emitsOnly_ret|].
    destruct (snd acc); apply emitsOnly_ret.
Qed.

Lemma get_NewFs (name root : string) (m : Config) :
  emitsOnly isGet (NewFs name root m).
Proof.
  unfold NewFs. destruct (parsed m) as [e|opt]; [apply emitsOnly_ret|].
  destruct (misaligned (ChunkSize opt)); [apply emitsOnly_ret|].
  unfold connect.
  destruct (String.eqb (DriveID opt) "" || String.eqb (DriveType opt) "");
    [apply emitsOnly_crash|].
  destruct (oauthError m); [apply emitsOnly_crash|].
  unfold PacerCall.New, DirCache.New.
  apply emitsOnly_bind; [apply emitsOnly_allocPacer|]. intros p.
  apply emitsOnly_bind; [apply get_readMetaDataForPath|]. intros [[rootInfo r] e].
  destruct e; [apply emitsOnly_ret|].
  destruct rootInfo as [info|]; [|apply emitsOnly_crash].
  destruct (String.eqb (OnedriveApi.ID info) ""); [apply emitsOnly_ret|].
  apply emitsOnly_bind; [apply emitsOnly_allocCache|]. intros dc.
  apply emitsOnly_bind; [apply get_FindRoot|]. intros [e|]; [|apply emitsOnly_ret].
  destruct (DirCacheState.SplitPath (parsePath root)) as [newRoot remote].
  apply emitsOnly_bind; [apply emitsOnly_allocCache|]. intros dc'.
  apply emitsOnly_bind; [apply get_FindRoot|]. intros [e'|]; [apply emitsOnly_ret|].
  apply emitsOnly_bind; [apply get_newObjectWithInfo|]. intros [o e'].
  destruct e' as [e'|]; [|apply emitsOnly_ret].
  destruct (isErrorObjectNotFound e'); apply emitsOnly_ret.
Qed.

(** [NewFs], [List] and [NewObject] of the OneDrive backend only read
    the drive: whether they return or panic, every request they have
    sent is a GET without a body. *)
Theorem onedrive_reading_only_gets (name root : string) (m : Config) (fuel : nat)
  (f : Fs) (dir remote : string) :
  emitsOnly isGet (NewFs name root m) /\
  emitsOnly isGet (List fuel f dir) /\
  emitsOnly isGet (newObjectWithInfo f remote None).
Proof.
  split; [apply get_NewFs|].
  split; [apply get_List | apply get_newObjectWithInfo].
Qed.
End OnedriveReadOnly.

(** ** pCloud: looking up a name in a folder *)

Section PcloudLookups.
Context `{Env}.
Import GoStrings DirCacheState Pcloud PcloudApi.

(** On an account that answers listings with [contents], [FindLeaf]
    returns the identifier of the first folder of the listing whose
    restored name is [leaf], and not found when there is none; a file
    of that name does not count.  It changes no directory cache. *)
Theorem pcloud_FindLeaf_first_folder (contents : string -> list Item) (f : Fs)
  (pathID leaf : string) (w : World) :
  lists contents ->
  exists w1,
    FindLeaf f pathID leaf w =
      Done (match findFolder (contents (dirIDtoNumber pathID)) leaf with
            | Some id => (id, true, None)
            | None => ("", false, None)
            end) w1 /\
    caches w1 = caches w.
Proof.
  intros Hlists.
  destruct (FindLeaf_listing contents Hlists f pathID leaf w) as (w1 & [Hq _] & Hrun).
  exists w1. split; [exact Hrun | exact Hq].
Qed.

(** On such an account, [NewObject] for a name directly under the
    resolved root returns an object with the size, the modification
    time and the identifier of the first file of the root's listing
    whose restored name is that name, and [fs.ErrorObjectNotFound]
    when there is no such file, also when a folder has that name. *)
Theorem pcloud_NewObject_first_file (contents : string -> list Item) (f : Fs)
  (leaf : string) (w : World) :
  lists contents ->
  FoundRoot (cacheAt w (dirCache f)) = true -> noSlash leaf ->
  exists w',
    newObjectWithInfo f leaf None w =
      Done (match findFile
                    (contents (dirIDtoNumber
                                 (DirCacheState.rootID (cacheAt w (dirCache f))))) leaf with
            | Some item =>
                (Some {| fs := f; remote := leaf; hasMetaData := true;
                         size := Size item; modTime := ModTime item; id := ID item;
                         md5 := ""; sha1 := "" |}, None)
            | None => (None, Some ErrorObjectNotFound)
            end) w' /\
    caches w' = caches w.
Proof.
  intros Hlists Hfound Hleaf.
  destruct (readMetaDataForPath_leaf contents Hlists f leaf w Hfound Hleaf)
    as (w' & [Hq _] & Hrun).
  exists w'. split; [|exact Hq].
  unfold newObjectWithInfo, readMetaData. cbn [hasMetaData newObject remote fs].
  rewrite bind_bind. rewrite (bind_Done _ _ _ _ _ Hrun).
  destruct (findFile _ leaf) as [item|] eqn:Efile; [|reflexivity].
  destruct (findFile_In _ _ _ Efile) as (raw & _ & Hraw & _ & ->).
  cbn beta iota. rewrite bind_ret. unfold setMetaData.
  cbn [IsFolder withName]. rewrite Hraw. reflexivity.
Qed.

(** On such an account, [List] of the root of an [Fs] whose root is
    resolved returns one entry for every item of the root's listing,
    in the order of the listing: a directory for a folder, an object
    with its metadata for a file, each under its restored name. *)
Theorem pcloud_List_root (contents : string -> list Item) (f : Fs) (w : World) :
  lists contents ->
  FoundRoot (cacheAt w (dirCache f)) = true ->
  exists w',
    List f "" w =
      Done (map (entryOf f "")
              (contents (dirIDtoNumber
                           (DirCacheState.rootID (cacheAt w (dirCache f))))), None) w'.
Proof.
  intros Hlists Hf. unfold List.
  rewrite (bind_Done _ _ w w _ (FindRoot_found f w Hf)).
  rewrite (bind_Done _ _ w w _ (FindDir_root f false w)).
  set (P := DirCacheState.rootID (cacheAt w (dirCache f))).
  destruct (listAll_listing contents Hlists f P false false
              (listEntry f "") ([], None) w) as (w1 & Hq & Hrun).
  destruct (listItems_listEntry f "" (contents (dirIDtoNumber P)) [] w1) as (w2 & Hitems).
  exists w2. unfold bind at 1. rewrite Hrun.
  unfold bind. rewrite Hitems. reflexivity.
Qed.
End PcloudLookups.

Lemma pcloud_FindLeaf_first_folder_witness :
  let H := Example.pcloudEnv in
  lists Example.pcloudFolder /\
  exists w1,
    Pcloud.FindLeaf treeFs "d1" "b" (snd treeStart) = Done ("d2", true, None) w1 /\
    caches w1 = caches (snd treeStart).
Proof.
  intros H. split; [exact example_lists|].
  exact (pcloud_FindLeaf_first_folder Example.pcloudFolder treeFs "d1" "b"
           (snd treeStart) example_lists).
Defined.

Lemma pcloud_NewObject_first_file_witness :
  let H := Example.pcloudEnv in
  lists Example.pcloudFolder /\
  DirCacheState.FoundRoot (cacheAt (snd treeStart) (Pcloud.dirCache treeFs)) = true /\
  noSlash "a" /\
  exists w',
    Pcloud.newObjectWithInfo treeFs "a" None (snd treeStart) =
      Done (None, Some ErrorObjectNotFound) w' /\
    caches w' = caches (snd treeStart).
Proof.
  intros H.
  assert (DirCacheState.FoundRoot (cacheAt (snd treeStart) (Pcloud.dirCache treeFs)) =
            true) as Hfound by (vm_compute; reflexivity).
  split; [exact example_lists|]. split; [exact Hfound|]. split; [reflexivity|].
  exact (pcloud_NewObject_first_file Example.pcloudFolder treeFs "a" (snd treeStart)
           example_lists Hfound eq_refl).
Defined.

Lemma pcloud_List_root_witness :
  let H := Example.pcloudEnv in
  lists Example.pcloudFolder /\
  DirCacheState.FoundRoot (cacheAt (snd treeStart) (Pcloud.dirCache treeFs)) = true /\
  exists w',
    Pcloud.List treeFs "" (snd treeStart) =
      Done ([Pcloud.EntryDir "a" 0 "d1"], None) w'.
Proof.
  intros H.
  assert (DirCacheState.FoundRoot (cacheAt (snd treeStart) (Pcloud.dirCache treeFs)) =
            true) as Hfound by (vm_compute; reflexivity).
  split; [exact example_lists|]. split; [exact Hfound|].
  exact (pcloud_List_root Example.pcloudFolder treeFs (snd treeStart)
           example_lists Hfound).
Defined.
(** ** OneDrive: a root that names a file *)

Section OnedriveTree.
Context `{Env}.
Import GoStrings DirCacheState Onedrive OnedriveApi.

(** The request [readMetaDataForPath] makes for a path. *)
Definition statOpts (path : string) : Opts :=
  match path with
  | EmptyString => withMethodPath "GET" "/root"
  | _ => withMethodPath "GET"
           ("/root:/" +:+ URLPathEscape (onedrive_replaceReservedChars path))
  end.

(** The provider answers the request for [path] with the item [i],
    without an error and without asking for a retry, and the request
    does not change its state. *)
Definition answers (path : string) (i : Item) : Prop :=
  forall s,
    exists r,
      serve s (statOpts path) NoJson "" = (s, r) /\ err r = None /\
      payload r = OnedriveItemPayload i /\
      fst (shouldRetry (resp r) None) = false.

(** The provider's view of the drive: the item at each path. *)
Definition stats (stat : string -> option Item) : Prop :=
  forall path i, stat path = Some i -> answers path i.

(** The provider answers the listing of the folder [id] with [items],
    in one page. *)
Definition listsChildren (id : string) (items : list Item) : Prop :=
  forall s,
    exists r,
      serve s (newOptsCall id "GET" "/children?$top=1000") NoJson "" = (s, r) /\
      err r = None /\ payload r = OnedriveListPayload items "" /\
      fst (shouldRetry (resp r) None) = false.

(** The directory a list of segments leads to from the folder
    [parentID] at path [parent], as far as the provider's view tells:
    what resolving them without creating returns. *)
Fixpoint statDir (stat : string -> option Item) (parent parentID : string)
  (segs : list string) : option (string * option error) :=
  match segs with
  | [] => Some (parentID, None)
  | seg :: rest =>
      match stat (joinPath parent seg) with
      | None => None
      | Some item =>
          match Folder item with
          | None => Some ("", Some (ErrorNew "found file when looking for folder"))
          | Some _ => statDir stat (joinPath parent seg) (ID item) rest
          end
      end
  end.

(** The entry [List] makes of an item of a listing. *)
Definition itemEntry (f : Fs) (dir : string) (item : Item) : DirEntry :=
  let item' := withName item (onedrive_restoreReservedChars (Name item)) in
  let remote := path_Join dir (Name item') in
  match Folder item' with
  | Some childCount => EntryDir remote (LastModifiedDateTime item') (ID item') childCount
  | None => EntryObject (fst (setMetaData (newObject f remote) item'))
  end.

Definition live (item : Item) : bool := negb (Deleted item).

Lemma shouldRetry_snd (rs : option Response) (e : option error) :
  snd (shouldRetry rs e) = e.
Proof. reflexivity. Qed.

Lemma readMetaDataForPath_answers (f : Fs) (path : string) (i : Item) (w : World) :
  answers path i ->
  exists rs w',
    quiet w w' /\ readMetaDataForPath f path w = Done (Some i, rs, None) w'.
Proof.
  intros Hans. unfold readMetaDataForPath. fold (statOpts path).
  destruct (Hans (server w)) as (r & Hs & He & Hp & Hr).
  match goal with |- context [PacerCall.Call (pacer f) ?fn0 ?st0] =>
    set (fn := fn0)
  end.
  assert (exists w1, fn (None, None) w = Done ((Some i, resp r), false, None) w1 /\
                     quiet w w1) as (w1 & Hfn & Hq1).
  { unfold fn, bind, call. rewrite Hs, He, Hp. cbn [decodeItem fst].
    destruct (shouldRetry (resp r) None) as [retry e] eqn:Es.
    cbn [fst] in Hr. subst retry.
    pose proof (shouldRetry_snd (resp r) None) as Hsnd. rewrite Es in Hsnd.
    cbn [snd] in Hsnd. subst e.
    eexists. split; [reflexivity | split; reflexivity]. }
  destruct (Call_no_retry (pacer f) fn _ _ _ _ _ Hfn) as (w2 & Hrun & Hq2).
  exists (resp r), w2. split; [eapply quiet_trans; eassumption|].
  rewrite (bind_Done _ _ _ _ _ Hrun). reflexivity.
Qed.

Section WithStat.
Variable stat : string -> option Item.
Hypothesis Hstats : stats stat.

(** The cache and the provider agree: the two mappings are inverse to
    each other, and a cached path other than the root is the path of a
    folder with the cached identifier. *)
Definition agrees (st : DirCacheState.t) : Prop :=
  (forall path id, cache st !! path = Some id -> invCache st !! id = Some path) /\
  (forall path id, cache st !! path = Some id -> path <> EmptyString ->
     exists item, stat path = Some item /\ ID item = id /\ isSome (Folder item) = true).

Lemma agrees_New (root rid : string) : agrees (DirCacheState.New root rid).
Proof.
  split; intros path id; cbn [DirCacheState.New cache invCache]; intros Hl;
    apply lookup_singleton_Some in Hl as [<- <-].
  - apply lookup_singleton_eq.
  - congruence.
Qed.

Lemma agrees_Put (st : DirCacheState.t) (path : string) (item : Item) :
  agrees st -> stat path = Some item -> isSome (Folder item) = true ->
  agrees (DirCacheState.Put st path (ID item)).
Proof.
  intros [Hinv Hst] Hp Hf. unfold agrees, DirCacheState.Put, withMaps. cbn [cache invCache]. split.
  - intros p i Hl. apply lookup_insert_Some in Hl as [[<- <-]|[Hne Hl]].
    + apply lookup_insert_eq.
    + assert (cache st !! p = Some i /\
              forall old, invCache st !! ID item = Some old -> p <> old) as [Hc Hold].
      { destruct (invCache st !! ID item) as [old|] eqn:Eo.
        - apply lookup_delete_Some in Hl as [Hn Hl]. split; [exact Hl|].
          intros ? [= <-]. congruence.
        - split; [exact Hl | discriminate]. }
      pose proof (Hinv p i Hc) as Hi.
      assert (i <> ID item) as Hni.
      { intros ->. exact (Hold p Hi eq_refl). }
      rewrite lookup_insert_ne by congruence.
      destruct (cache st !! path) as [oldID|] eqn:Ec; [|exact Hi].
      rewrite lookup_delete_ne; [exact Hi|].
      intros ->. pose proof (Hinv path i Ec) as Hi'. congruence.
  - intros p i Hl Hne. apply lookup_insert_Some in Hl as [[<- <-]|[Hn Hl]].
    + exists item. auto.
    + apply Hst; [|exact Hne].
      destruct (invCache st !! ID item); [|exact Hl].
      apply lookup_delete_Some in Hl as [_ Hl]. exact Hl.
Qed.

Lemma GetInv_Put (st : DirCacheState.t) (path id : string) :
  GetInv (DirCacheState.Put st path id) id = Some path.
Proof. unfold GetInv, DirCacheState.Put, withMaps. cbn [invCache]. apply lookup_insert_eq. Qed.

Lemma FindLeaf_stat (f : Fs) (pathID leaf parent : string) (item : Item) (w : World) :
  GetInv (cacheAt w (dirCache f)) pathID = Some parent ->
  FoundRoot (cacheAt w (dirCache f)) = false ->
  stat (joinPath parent leaf) = Some item ->
  exists w',
    quiet w w' /\
    FindLeaf f pathID leaf w =
      Done (match Folder item with
            | None => ("", false, Some (ErrorNew "found file when looking for folder"))
            | Some _ => (ID item, true, None)
            end) w'.
Proof.
  intros Hinv Hfound Hstat. unfold FindLeaf.
  rewrite (bind_Done _ _ w w _ (readCache_run (dirCache f) w)).
  rewrite Hinv, Hfound. fold (joinPath parent leaf).
  destruct (readMetaDataForPath_answers f (joinPath parent leaf) item w
              (Hstats _ _ Hstat)) as (rs & w' & Hq & Hrun).
  exists w'. split; [exact Hq|].
  rewrite (bind_Done _ _ _ _ _ Hrun). destruct (Folder item); reflexivity.
Qed.

(** Resolving segments without creating, on a cache whose root is yet
    to be found. *)
Lemma findSegments_stat (f : Fs) (segs : list string) :
  forall parent parentID w res,
    agrees (cacheAt w (dirCache f)) ->
    FoundRoot (cacheAt w (dirCache f)) = false ->
    GetInv (cacheAt w (dirCache f)) parentID = Some parent ->
    (parent <> EmptyString \/ match segs with
                             | [] => True
                             | seg :: _ => seg <> EmptyString
                             end) ->
    statDir stat parent parentID segs = Some res ->
    exists w',
      DirCache.findSegments (FindLeaf f) (CreateDir f) (dirCache f) false
        parent parentID segs w = Done res w' /\
      sameRoot (cacheAt w (dirCache f)) (cacheAt w' (dirCache f)) /\
      nextCache w' = nextCache w /\
      (forall dc', dc' <> dirCache f -> caches w' !! dc' = caches w !! dc').
Proof.
  set (dc := dirCache f).
  induction segs as [|leaf rest IH]; intros parent parentID w res Hag Hfound Hinv Hstart Hres.
  - cbn [statDir] in Hres. injection Hres as <-. exists w.
    split; [reflexivity|]. split; [apply sameRoot_refl|]. auto.
  - cbn [DirCache.findSegments]. cbn [statDir] in Hres.
    assert (parent <> EmptyString \/ leaf <> EmptyString) as Hne.
    { destruct Hstart; auto. }
    pose proof (joinPath_nonempty parent leaf Hne) as Hpath.
    set (path := joinPath parent leaf) in *.
    rewrite (bind_Done _ _ w w _ (readCache_run dc w)).
    destruct (stat path) as [item|] eqn:Estat; [|discriminate].
    destruct (Get (cacheAt w dc) path) as [id|] eqn:Eget.
    + destruct Hag as [Hi Hs].
      destruct (Hs path id Eget Hpath) as (item' & Hst' & Hid & Hfold).
      rewrite Estat in Hst'. injection Hst' as <-.
      destruct (Folder item) eqn:Ef; [|discriminate]. subst id.
      apply IH.
      * split; assumption.
      * exact Hfound.
      * exact (Hi path (ID item) Eget).
      * left. exact Hpath.
      * exact Hres.
    + destruct (FindLeaf_stat f parentID leaf parent item w Hinv Hfound Estat)
        as (w1 & [Hq1 Hn1] & Hrun).
      rewrite (bind_Done _ _ _ _ _ Hrun).
      assert (cacheAt w1 dc = cacheAt w dc) as Hsame.
      { unfold cacheAt. rewrite Hq1. reflexivity. }
      destruct (Folder item) as [cc|] eqn:Ef.
      * rewrite (bind_Done _ _ w1 w1 _ (readCache_run dc w1)).
        unfold bind at 1, writeCache at 1.
        match goal with |- context [DirCache.findSegments _ _ dc false path _ rest ?x] =>
          set (w2 := x)
        end.
        assert (cacheAt w2 dc = DirCacheState.Put (cacheAt w dc) path (ID item)) as Hc2.
        { unfold cacheAt at 1, w2. cbn [caches]. rewrite lookup_insert_eq, Hsame.
          reflexivity. }
        destruct (IH path (ID item) w2 res) as (w' & Hrun' & Hs' & Hn' & Ho').
        { rewrite Hc2. apply agrees_Put; [exact Hag | exact Estat|].
          rewrite Ef. reflexivity. }
        { rewrite Hc2. exact Hfound. }
        { rewrite Hc2. apply GetInv_Put. }
        { left. exact Hpath. }
        { exact Hres. }
        exists w'. split; [exact Hrun'|].
        split; [eapply sameRoot_trans; [|exact Hs']; rewrite Hc2; apply sameRoot_Put|].
        split; [rewrite Hn'; exact Hn1|].
        intros dc' Hd. rewrite (Ho' dc' Hd). unfold w2. cbn [caches].
        rewrite lookup_insert_ne by congruence. rewrite Hq1. reflexivity.
      * injection Hres as <-. exists w1. split; [reflexivity|]. rewrite Hsame.
        split; [apply sameRoot_refl|]. split; [exact Hn1|].
        intros dc' _. rewrite Hq1. reflexivity.
Qed.

(** [FindRoot] on a cache that has just been created. *)
Lemma FindRoot_fresh_stat (f : Fs) (root rid : string) (w : World)
  (res : string * option error) :
  cacheAt w (dirCache f) = DirCacheState.New root rid ->
  startsWithSlash root = false ->
  statDir stat "" rid (segments root) = Some res ->
  exists w',
    FindRoot f false w = Done (snd res) w' /\
    nextCache w' = nextCache w /\
    (snd res = None ->
       cacheAt w' (dirCache f) = resolved (DirCacheState.New root rid) (fst res)).
Proof.
  intros Hfresh Hstart Hres. unfold FindRoot, DirCache.FindRoot.
  rewrite (bind_Done _ _ w w _ (readCache_run (dirCache f) w)).
  rewrite Hfresh. cbn [FoundRoot rootState DirCacheState.New DirCacheState.root].
  unfold DirCache.FindDir. rewrite bind_bind.
  rewrite (bind_Done _ _ w w _ (readCache_run (dirCache f) w)).
  rewrite Hfresh. cbn [DirCacheState.rootID DirCacheState.New].
  destruct (findSegments_stat f (segments root) "" rid w res)
    as (w1 & Hrun & Hs1 & Hn1 & Ho1).
  - rewrite Hfresh. apply agrees_New.
  - rewrite Hfresh. reflexivity.
  - rewrite Hfresh. apply lookup_singleton_eq.
  - right. destruct root as [|c r]; [exact I|].
    destruct (Split_head (String c r)) as (h & t & Hsp & Hh);
      [discriminate | exact Hstart |].
    unfold segments. rewrite Hsp. exact Hh.
  - exact Hres.
  - rewrite (bind_Done _ _ _ _ _ Hrun). destruct res as [id [e|]]; cbn [fst snd].
    + exists w1. split; [reflexivity|]. split; [exact Hn1 | discriminate].
    + rewrite (bind_Done _ _ w1 w1 _ (readCache_run (dirCache f) w1)).
      eexists. split; [reflexivity|]. cbn [nextCache caches].
      split; [exact Hn1|]. intros _.
      unfold cacheAt at 1. cbn [caches]. rewrite lookup_insert_eq. cbn [default].
      destruct Hs1 as (Ht & Hr & _). rewrite Hfresh in Ht, Hr.
      unfold resolved.
      cbn [DirCacheState.trueRootID DirCacheState.root DirCacheState.New] in *.
      rewrite Ht, Hr. reflexivity.
Qed.
End WithStat.
End OnedriveTree.

Section PathOf.
Import GoStrings DirCacheState.

(** The path a list of segments spells, below [parent]. *)
Definition pathOf (parent : string) (segs : list string) : string :=
  fold_left joinPath segs parent.

Lemma joinPath_SplitPath (path : string) :
  startsWithSlash path = false ->
  joinPath (fst (SplitPath path)) (snd (SplitPath path)) = path.
Proof.
  intros Hs. unfold SplitPath.
  destruct (lastSlashSplit path) as [[d l]|] eqn:E; cbn [fst snd]; [|reflexivity].
  apply lastSlashSplit_Some in E as [-> _].
  destruct d as [|c d]; [rewrite append_nil in Hs; discriminate Hs | reflexivity].
Qed.

Lemma SplitPath_parent_length (path : string) :
  path <> EmptyString ->
  (String.length (fst (SplitPath path)) < String.length path)%nat.
Proof.
  intros Hne. unfold SplitPath.
  destruct (lastSlashSplit path) as [[d l]|] eqn:E; cbn [fst].
  - apply lastSlashSplit_Some in E as [-> _].
    clear Hne. induction d as [|c d IH]; [rewrite append_nil; cbn; lia|].
    rewrite append_cons. cbn [String.length]. lia.
  - destruct path; [congruence | cbn; lia].
Qed.

Lemma pathOf_segments (path : string) :
  startsWithSlash path = false -> pathOf "" (segments path) = path.
Proof.
  remember (String.length path) as n eqn:Hn.
  revert path Hn. induction n as [n IH] using lt_wf_ind. intros path Hn Hs.
  destruct (string_dec path "") as [->|Hne]; [reflexivity|].
  rewrite (segments_SplitPath path Hne Hs). unfold pathOf.
  rewrite fold_left_app. cbn [fold_left].
  fold (pathOf "" (segments (fst (SplitPath path)))).
  rewrite (IH (String.length (fst (SplitPath path)))).
  - apply joinPath_SplitPath, Hs.
  - subst n. apply SplitPath_parent_length, Hne.
  - reflexivity.
  - unfold SplitPath. destruct (lastSlashSplit path) as [[d l]|] eqn:E; cbn [fst];
      [|reflexivity].
    apply lastSlashSplit_Some in E as [-> _].
    destruct d as [|c d]; [reflexivity|]. rewrite append_cons in Hs. exact Hs.
Qed.
End PathOf.

Section OnedriveNewFs.
Context `{Env}.
Import GoStrings DirCacheState Onedrive OnedriveApi.

Lemma statDir_app (stat : string -> option Item) (l1 l2 : list string) :
  forall parent parentID id,
    statDir stat parent parentID l1 = Some (id, None) ->
    statDir stat parent parentID (l1 ++ l2) = statDir stat (pathOf parent l1) id l2.
Proof.
  induction l1 as [|seg l1 IH]; intros parent parentID id; cbn [statDir app pathOf fold_left].
  - intros [= <-]. reflexivity.
  - destruct (stat (joinPath parent seg)) as [item|]; [|discriminate].
    destruct (Folder item); [|discriminate]. apply IH.
Qed.

Lemma rootSlash_joinPath (f : Fs) (leaf : string) :
  rootSlash f +:+ leaf = joinPath (Onedrive.root f) leaf.
Proof.
  unfold rootSlash, joinPath. destruct (Onedrive.root f) as [|c r]; [reflexivity|].
  apply app_assoc_string.
Qed.

Lemma FindRoot_found_onedrive (f : Fs) (w : World) :
  FoundRoot (cacheAt w (dirCache f)) = true -> FindRoot f false w = Done None w.
Proof.
  intros Hf. unfold FindRoot, DirCache.FindRoot.
  rewrite (bind_Done _ _ w w _ (readCache_run (dirCache f) w)), Hf. reflexivity.
Qed.

Lemma FindDir_root_onedrive (f : Fs) (create : bool) (w : World) :
  FindDir f "" create w =
    Done (DirCacheState.rootID (cacheAt w (dirCache f)), None) w.
Proof.
  unfold FindDir, DirCache.FindDir.
  rewrite (bind_Done _ _ w w _ (readCache_run (dirCache f) w)). reflexivity.
Qed.

Lemma setMetaData_file (o : Object) (item : Item) :
  Folder item = None -> snd (setMetaData o item) = None.
Proof.
  intros Hf. unfold setMetaData. rewrite Hf.
  destruct (File item) as [[[? ?] ?]|]; reflexivity.
Qed.

Lemma listEntry_run_onedrive (f : Fs) (dir : string) (acc : list DirEntry)
  (item : Item) (w : World) :
  exists w',
    listEntry f dir (acc, None)
      (withName item (onedrive_restoreReservedChars (Name item))) w =
      Done ((acc ++ [itemEntry f dir item])%list, None, false) w'.
Proof.
  unfold listEntry, itemEntry.
  set (item' := withName item (onedrive_restoreReservedChars (Name item))).
  cbn [fst snd].
  destruct (Folder item') as [cc|] eqn:Ef.
  - eexists. reflexivity.
  - unfold newObjectWithInfo. cbn [bind ret].
    pose proof (setMetaData_file (newObject f (path_Join dir (Name item'))) item' Ef)
      as Hsnd.
    destruct (setMetaData (newObject f (path_Join dir (Name item'))) item')
      as [o' e] eqn:Es.
    cbn [snd] in Hsnd. subst e. cbn [fst].
    eexists. unfold bind. cbn [ret]. reflexivity.
Qed.

Lemma listItems_listEntry_onedrive (f : Fs) (dir : string) (items : list Item) :
  forall acc w,
    exists w',
      listItems false false (listEntry f dir) items (acc, None) w =
        Done ((acc ++ map (itemEntry f dir) (List.filter live items))%list, None, false) w'.
Proof.
  induction items as [|item rest IH]; intros acc w.
  - exists w. cbn [listItems map List.filter]. rewrite app_nil_r. reflexivity.
  - cbn [listItems List.filter].
    assert ((if isSome (Folder item) then false else false) = false) as ->
      by (destruct (isSome (Folder item)); reflexivity).
    unfold live at 1. destruct (Deleted item); cbn [negb]; [apply IH|].
    destruct (listEntry_run_onedrive f dir acc item w) as (w1 & Hentry).
    rewrite (bind_Done _ _ _ _ _ Hentry).
    destruct (IH (acc ++ [itemEntry f dir item])%list w1) as (w' & Hrun).
    exists w'. rewrite Hrun. cbn [map]. rewrite <- app_assoc. reflexivity.
Qed.

Lemma List_root_onedrive (fuel : nat) (f : Fs) (items : list Item) (w : World) :
  FoundRoot (cacheAt w (dirCache f)) = true ->
  listsChildren (DirCacheState.rootID (cacheAt w (dirCache f))) items ->
  exists w',
    List (S fuel) f "" w = Done (map (itemEntry f "") (List.filter live items), None) w'.
Proof.
  intros Hf Hlist. unfold List.
  rewrite (bind_Done _ _ w w _ (FindRoot_found_onedrive f w Hf)).
  rewrite (bind_Done _ _ w w _ (FindDir_root_onedrive f false w)).
  set (P := DirCacheState.rootID (cacheAt w (dirCache f))) in *.
  unfold listAll. cbn [listPages].
  destruct (Hlist (server w)) as (r & Hs & He & Hp & Hr).
  match goal with |- context [PacerCall.Call (pacer f) ?fn0 ?st0] =>
    set (fn := fn0)
  end.
  assert (exists w1, fn (([], ""), None) w = Done (((items, ""), resp r), false, None) w1)
    as (w1 & Hfn).
  { unfold fn, bind, call. rewrite Hs, He, Hp. cbn [decodeList fst].
    destruct (shouldRetry (resp r) None) as [retry e] eqn:Es.
    cbn [fst] in Hr. subst retry.
    pose proof (shouldRetry_snd (resp r) None) as Hsnd. rewrite Es in Hsnd.
    cbn [snd] in Hsnd. subst e. eexists. reflexivity. }
  destruct (Call_no_retry (pacer f) fn _ _ _ _ _ Hfn) as (w2 & Hrun & _).
  rewrite bind_bind. rewrite (bind_Done _ _ _ _ _ Hrun). cbn [fst].
  destruct items as [|item rest].
  - exists w2. reflexivity.
  - destruct (listItems_listEntry_onedrive f "" (item :: rest) [] w2) as (w3 & Hitems).
    exists w3. rewrite bind_bind. rewrite (bind_Done _ _ _ _ _ Hitems). reflexivity.
Qed.
End OnedriveNewFs.

Section OnedriveRootIsFile.
Context `{Env}.
Import GoStrings DirCacheState Onedrive OnedriveApi.

Lemma setMetaData_fields (o : Object) (item : Item) :
  Folder item = None ->
  remote (fst (setMetaData o item)) = remote o /\
  id (fst (setMetaData o item)) = ID item /\
  fs (fst (setMetaData o item)) = fs o.
Proof.
  intros Hf. unfold setMetaData. rewrite Hf.
  destruct (File item) as [[[? ?] ?]|]; repeat split.
Qed.

(** On a drive that answers metadata and listing requests
    consistently: when the configured root names a file whose parent
    directory exists, OneDrive's [NewFs] returns, with
    [fs.ErrorIsFile], an [Fs] whose root is the parent directory and
    whose cache is resolved to it; [List] of the root of that [Fs]
    then returns an entry for every item of the parent directory that
    is not deleted, the file among them. *)
Lemma onedrive_root_is_file (stat : string -> option Item) (items : list Item)
  (name root : string) (m : Config) (opt : Options) (w : World)
  (rootItem fileA file raw : Item) (P : string) (fuel : nat) :
  stats stat ->
  parsed m = inr opt -> (320 * 1024 | ChunkSize opt) ->
  DriveID opt <> EmptyString -> DriveType opt <> EmptyString ->
  oauthError m = None ->
  stat "" = Some rootItem -> ID rootItem <> EmptyString ->
  parsePath root <> EmptyString ->
  statDir stat "" (ID rootItem) (segments (fst (SplitPath (parsePath root)))) =
    Some (P, None) ->
  stat (parsePath root) = Some fileA -> Folder fileA = None ->
  stat (onedrive_replaceReservedChars (parsePath root)) = Some file ->
  Folder file = None ->
  listsChildren P items ->
  In raw items -> Deleted raw = false -> Folder raw = None ->
  onedrive_restoreReservedChars (Name raw) = snd (SplitPath (parsePath root)) ->
  exists newF w1,
    NewFs name root m w = Done (Some newF, Some ErrorIsFile) w1 /\
    Onedrive.root newF = fst (SplitPath (parsePath root)) /\
    cacheAt w1 (dirCache newF) =
      resolved (DirCacheState.New (fst (SplitPath (parsePath root))) (ID rootItem)) P /\
    exists w2,
      List (S fuel) newF "" w1 =
        Done (map (itemEntry newF "") (List.filter live items), None) w2 /\
      exists o,
        In (EntryObject o) (map (itemEntry newF "") (List.filter live items)) /\
        remote o = path_Join "" (snd (SplitPath (parsePath root))) /\
        id o = ID raw.
Proof.
  intros Hstats Hparsed Halign Hdrive Htype Hoauth Hroot Hrid Hne Hparent
    HfileA HfA Hfile Hf Hchildren Hin Hdel Hrawf Hname.
  assert (startsWithSlash (parsePath root) = false) as Hstart
    by apply Trim_startsWithSlash.
  pose proof (segments_SplitPath _ Hne Hstart) as Hsegs.
  pose proof (SplitPath_parent_start _ Hstart) as HstartP.
  pose proof (joinPath_SplitPath _ Hstart) as Hjoin.
  pose proof (pathOf_segments _ HstartP) as HpathOf.
  set (root' := parsePath root) in *.
  destruct (SplitPath root') as [newRoot leaf] eqn:Esplit. cbn [fst snd] in *.
  unfold NewFs. rewrite Hparsed.
  apply misaligned_spec in Halign. rewrite Halign.
  unfold connect.
  apply String.eqb_neq in Hdrive, Htype. rewrite Hdrive, Htype. cbn [orb].
  rewrite Hoauth. fold root'.
  (* the pacer and the root item *)
  unfold PacerCall.New. rewrite (bind_Done _ _ _ _ _ (allocPacer_run _ w)).
  match goal with |- context [bind (readMetaDataForPath ?g "") _ ?x] =>
    set (f0 := g); set (wa := x)
  end.
  destruct (readMetaDataForPath_answers f0 "" rootItem wa (Hstats _ _ Hroot))
    as (rs & wb & [Hqb Hnb] & Hmeta).
  rewrite (bind_Done _ _ _ _ _ Hmeta).
  apply String.eqb_neq in Hrid. rewrite Hrid.
  (* the first cache *)
  unfold DirCache.New at 1. rewrite (bind_Done _ _ _ _ _ (allocCache_run _ _)).
  match goal with |- context [bind (FindRoot ?f1 false) _ ?x] =>
    set (f := f1); set (wc := x)
  end.
  assert (cacheAt wc (dirCache f) = DirCacheState.New root' (ID rootItem)) as Hfresh.
  { unfold cacheAt, wc. cbn [caches dirCache f withDirCache].
    rewrite lookup_insert_eq. reflexivity. }
  assert (statDir stat "" (ID rootItem) (segments root') =
            Some ("", Some (ErrorNew "found file when looking for folder"))) as Hwalk.
  { rewrite Hsegs, (statDir_app stat _ _ _ _ _ Hparent), HpathOf.
    cbn [statDir]. rewrite Hjoin, HfileA, HfA. reflexivity. }
  destruct (FindRoot_fresh_stat stat Hstats f root' (ID rootItem) wc _ Hfresh Hstart Hwalk)
    as (wd & Hrun1 & Hn1 & _).
  cbn [snd] in Hrun1. rewrite (bind_Done _ _ _ _ _ Hrun1).
  rewrite Esplit.
  (* the second cache, on the parent *)
  unfold DirCache.New at 1. rewrite (bind_Done _ _ _ _ _ (allocCache_run _ _)).
  match goal with |- context [bind (FindRoot ?f1 false) _ ?x] =>
    set (newF := f1); set (we := x)
  end.
  assert (cacheAt we (dirCache newF) = DirCacheState.New newRoot (ID rootItem)) as Hfresh2.
  { unfold cacheAt, we. cbn [caches dirCache newF withDirCache].
    rewrite lookup_insert_eq. reflexivity. }
  destruct (FindRoot_fresh_stat stat Hstats newF newRoot (ID rootItem) we _
              Hfresh2 HstartP Hparent) as (wf & Hrun2 & Hn2 & Hres).
  cbn [fst snd] in Hrun2, Hres. specialize (Hres eq_refl).
  rewrite (bind_Done _ _ _ _ _ Hrun2).
  (* the object *)
  assert (srvPath (newObject newF leaf) = onedrive_replaceReservedChars root') as Hsrv.
  { unfold srvPath. cbn [fs remote newObject]. rewrite rootSlash_joinPath.
    cbn [Onedrive.root newF withDirCache]. rewrite Hjoin. reflexivity. }
  destruct (readMetaDataForPath_answers newF _ file wf (Hstats _ _ Hfile))
    as (rs' & wg & [Hqg Hng] & Hmeta2).
  assert (exists o', newObjectWithInfo newF leaf None wf = Done (Some o', None) wg)
    as (o' & Hobj).
  { unfold newObjectWithInfo, readMetaData.
    cbn [hasMetaData newObject]. fold (newObject newF leaf).
    rewrite bind_bind. cbn [fs newObject]. fold (newObject newF leaf).
    rewrite Hsrv. rewrite (bind_Done _ _ _ _ _ Hmeta2).
    pose proof (setMetaData_file (newObject newF leaf) file Hf) as Hsnd.
    destruct (setMetaData (newObject newF leaf) file) as [o' e] eqn:Es.
    cbn [snd] in Hsnd. subst e. exists o'. rewrite bind_ret. reflexivity. }
  rewrite (bind_Done _ _ _ _ _ Hobj).
  exists newF, wg. split; [reflexivity|]. split; [reflexivity|].
  assert (cacheAt wg (dirCache newF) =
            resolved (DirCacheState.New newRoot (ID rootItem)) P) as Hcache.
  { unfold cacheAt. rewrite Hqg. exact Hres. }
  split; [exact Hcache|].
  assert (FoundRoot (cacheAt wg (dirCache newF)) = true) as Hfound.
  { rewrite Hcache. reflexivity. }
  destruct (List_root_onedrive fuel newF items wg Hfound) as (w2 & Hlist).
  { rewrite Hcache. exact Hchildren. }
  exists w2. split; [exact Hlist|].
  set (raw' := withName raw (onedrive_restoreReservedChars (Name raw))).
  assert (Folder raw' = None) as Hrawf' by exact Hrawf.
  exists (fst (setMetaData (newObject newF (path_Join "" (Name raw'))) raw')).
  destruct (setMetaData_fields (newObject newF (path_Join "" (Name raw'))) raw' Hrawf')
    as (Hr & Hi & _).
  split; [|split].
  - apply in_map_iff. exists raw. split.
    + unfold itemEntry. fold raw'. rewrite Hrawf'. reflexivity.
    + apply filter_In. split; [exact Hin|]. unfold live. rewrite Hdel. reflexivity.
  - rewrite Hr. cbn [remote newObject]. unfold raw'. cbn [Name withName].
    rewrite Hname. reflexivity.
  - rewrite Hi. reflexivity.
Qed.
End OnedriveRootIsFile.

Section OnedriveTreeExample.
Import Onedrive OnedriveApi.

(** A drive with the folder [a] and the files [a/report.txt] and
    [a/other.txt]. *)
Definition treeRoot : Item := mkItem "ROOT" "root" (Some 1) None false 0 None 0 0.
Definition treeFolder : Item := mkItem "A" "a" (Some 2) None false 0 None 0 0.
Definition treeReport : Item := mkItem "F1" "report.txt" None None false 12 None 0 0.
Definition treeOther : Item := mkItem "F2" "other.txt" None None false 7 None 0 0.

Definition treeStat (path : string) : option Item :=
  if String.eqb path "" then Some treeRoot
  else if String.eqb path "a" then Some treeFolder
  else if String.eqb path "a/report.txt" then Some treeReport
  else if String.eqb path "a/other.txt" then Some treeOther
  else None.

Definition treeServe (s : unit) (opts : Opts) (json : JsonRequest) (body : string)
  : unit * Reply :=
  (tt,
   if String.eqb (Path opts) "/root" then
     mkReply (Example.status 200) None (OnedriveItemPayload treeRoot) O
   else if String.eqb (Path opts) "/root:/a" then
     mkReply (Example.status 200) None (OnedriveItemPayload treeFolder) O
   else if String.eqb (Path opts) "/root:/a/report.txt" then
     mkReply (Example.status 200) None (OnedriveItemPayload treeReport) O
   else if String.eqb (Path opts) "/root:/a/other.txt" then
     mkReply (Example.status 200) None (OnedriveItemPayload treeOther) O
   else if String.eqb (Path opts) "/items/A/children?$top=1000" then
     mkReply (Example.status 200) None
       (OnedriveListPayload [treeReport; treeOther] "") O
   else
     mkReply (Example.status 404) (Some (OnedriveError "itemNotFound")) NoPayload O).

Definition treeEnv : Env := Example.env unit treeServe.

Lemma treeStat_stats : @stats treeEnv treeStat.
Proof.
  intros path i Hstat s. destruct s. unfold treeStat in Hstat.
  destruct (String.eqb_spec path "") as [->|_];
    [injection Hstat as <-; eexists; repeat split; reflexivity|].
  destruct (String.eqb_spec path "a") as [->|_];
    [injection Hstat as <-; eexists; repeat split; reflexivity|].
  destruct (String.eqb_spec path "a/report.txt") as [->|_];
    [injection Hstat as <-; eexists; repeat split; reflexivity|].
  destruct (String.eqb_spec path "a/other.txt") as [->|_];
    [injection Hstat as <-; eexists; repeat split; reflexivity|].
  discriminate Hstat.
Qed.

Lemma treeServe_children : @listsChildren treeEnv "A" [treeReport; treeOther].
Proof. intros []. eexists. repeat split; reflexivity. Qed.
End OnedriveTreeExample.

Lemma onedrive_root_is_file_witness :
  let H := treeEnv in
  let opt := Onedrive.mkOptions (10 * 320 * 1024) "drive" "personal" in
  let m := Onedrive.mkConfig (inr opt) None in
  let w := Example.emptyWorld tt in
  stats treeStat /\ listsChildren "A" [treeReport; treeOther] /\
  (320 * 1024 | Onedrive.ChunkSize opt) /\
  exists newF w1,
    Onedrive.NewFs "remote" "/a/report.txt" m w = Done (Some newF, Some ErrorIsFile) w1 /\
    Onedrive.root newF = "a" /\
    exists w2 entries,
      Onedrive.List 1 newF "" w1 = Done (entries, None) w2 /\
      length entries = 2%nat.
Proof.
  intros H opt m w.
  assert (320 * 1024 | Onedrive.ChunkSize opt) as Hdiv by (exists 10; reflexivity).
  split; [exact treeStat_stats|]. split; [exact treeServe_children|].
  split; [exact Hdiv|].
  destruct (onedrive_root_is_file treeStat [treeReport; treeOther] "remote"
              "/a/report.txt" m opt w treeRoot treeReport treeReport treeReport "A" O)
    as (newF & w1 & Hnew & Hroot & _ & w2 & Hlist & _);
    [ exact treeStat_stats | reflexivity | exact Hdiv | discriminate | discriminate
    | reflexivity | reflexivity | discriminate | vm_compute; discriminate
    | vm_compute; reflexivity | vm_compute; reflexivity | reflexivity
    | vm_compute; reflexivity | reflexivity | exact treeServe_children
    | left; reflexivity | reflexivity | reflexivity | vm_compute; reflexivity | ].
  exists newF, w1. split; [exact Hnew|]. split; [exact Hroot|].
  exists w2, (map (itemEntry newF "") (List.filter live [treeReport; treeOther])).
  split; [exact Hlist | reflexivity].
Defined.

(** ** The requests each operation can send *)

Section RequestKinds.
Context `{Env}.

(** A request to one of the given paths, or the start or the stop of
    the token renewer. *)
Definition callsOnly (paths : list string) (e : Event) : Prop :=
  match e with
  | EvCall opts _ _ => In (Path opts) paths
  | EvRenewStart | EvRenewStop => True
  | _ => False
  end.

(** A request with one of the given methods. *)
Definition methodsOnly (methods : list string) (e : Event) : Prop :=
  match e with
  | EvCall opts _ _ => In (Method opts) methods
  | _ => False
  end.

Lemma callsOnly_mono (l1 l2 : list string) (e : Event) :
  incl l1 l2 -> callsOnly l1 e -> callsOnly l2 e.
Proof. intros Hi. destruct e; cbn; auto. Qed.
End RequestKinds.

Section PcloudRequestKinds.
Context `{Env}.
Import Pcloud.

Section WithPaths.
Variable paths : list string.
Hypothesis Hlist : In "/listfolder" paths.
Hypothesis Hcreate : In "/createfolder" paths.










End WithPaths.







End PcloudRequestKinds.

Section OnedriveRequestKinds.
Context `{Env}.
Import Onedrive.

Section WithMethods.
Variable methods : list string.
Hypothesis Hget : In "GET" methods.

Lemma methods_get {A : Type} (m : M A) :
  emitsOnly isGet m -> emitsOnly (methodsOnly methods) m.
Proof.
  apply emitsOnly_weaken. intros e (opts & -> & Hm). cbn. rewrite Hm. exact Hget.
Qed.

Lemma methods_FindLeaf (f : Fs) (a b : string) :
  emitsOnly (methodsOnly methods) (FindLeaf f a b).
Proof. apply methods_get, get_FindLeaf. Qed.

Lemma methods_readMetaDataForPath (f : Fs) (path : string) :
  emitsOnly (methodsOnly methods) (readMetaDataForPath f path).
Proof. apply methods_get, get_readMetaDataForPath. Qed.

Lemma methods_Call {St : Type} (p : nat) (opts : Opts) (json : JsonRequest)
  (k : Reply -> St -> St) (st : St) :
  In (Method opts) methods ->
  emitsOnly (methodsOnly methods)
    (PacerCall.Call p
       (fun st : St =>
          r <- call opts json "" ;;
          let '(retry, e) := shouldRetry (resp r) (err r) in
          ret (k r st, retry, e)) st).
Proof.
  intros Hin. apply emitsOnly_Call. intros st'.
  apply emitsOnly_bind; [apply emitsOnly_call; exact Hin|].
  intros r. destruct (shouldRetry _ _). apply emitsOnly_ret.
Qed.

Hypothesis Hpost : In "POST" methods.

Lemma methods_CreateDir (f : Fs) (a b : string) :
  emitsOnly (methodsOnly methods) (CreateDir f a b).
Proof.
  unfold CreateDir. apply emitsOnly_bind.
  - apply (methods_Call (pacer f) _ _
             (fun r st => (decodeItem (payload r) (fst st), resp r))).
    rewrite newOptsCall_Method. exact Hpost.
  - intros [st e]. destruct e; [apply emitsOnly_ret|].
    destruct (fst st); [apply emitsOnly_ret | apply emitsOnly_crash].
Qed.

Lemma methods_FindRoot (f : Fs) (create : bool) :
  emitsOnly (methodsOnly methods) (FindRoot f create).
Proof. apply emitsOnly_FindRoot; [apply methods_FindLeaf | apply methods_CreateDir]. Qed.

Lemma methods_FindDir (f : Fs) (path : string) (create : bool) :
  emitsOnly (methodsOnly methods) (FindDir f path create).
Proof. apply emitsOnly_FindDir; [apply methods_FindLeaf | apply methods_CreateDir]. Qed.

Lemma methods_FindPath (f : Fs) (path : string) (create : bool) :
  emitsOnly (methodsOnly methods) (FindPath f path create).
Proof. apply emitsOnly_FindPath; [apply methods_FindLeaf | apply methods_CreateDir]. Qed.

Lemma methods_Mkdir (f : Fs) (dir : string) :
  emitsOnly (methodsOnly methods) (Mkdir f dir).
Proof.
  unfold Mkdir. apply emitsOnly_bind; [apply methods_FindRoot|]. intros [e|].
  - apply emitsOnly_ret.
  - destruct (String.eqb dir ""); [apply emitsOnly_ret|].
    apply emitsOnly_bind; [apply methods_FindDir|]. intros [id e]. apply emitsOnly_ret.
Qed.
End WithMethods.

Lemma methods_deleteObject (f : Fs) (id : string) :
  emitsOnly (methodsOnly ["DELETE"]) (deleteObject f id).
Proof.
  unfold deleteObject. apply emitsOnly_bind.
  - apply (methods_Call ["DELETE"] (pacer f) _ _ (fun _ _ => tt)).
    cbn [withNoResponse Method]. rewrite newOptsCall_Method. cbn. auto.
  - intros [st e]. apply emitsOnly_ret.
Qed.

Lemma methods_purgeCheck (f : Fs) (dir : string) (check : bool) :
  emitsOnly (methodsOnly ["GET"; "DELETE"]) (purgeCheck f dir check).
Proof.
  set (ms := ["GET"; "DELETE"]).
  assert (In "GET" ms) as Hg by (cbn; auto).
  assert (forall a b, emitsOnly (methodsOnly ms) (FindLeaf f a b)) as HFindLeaf
    by (intros; apply methods_FindLeaf, Hg).
  unfold purgeCheck. apply emitsOnly_bind.
  - unfold purgeRequest. destruct (path_Join (root f) dir) eqn:Ej; [apply emitsOnly_ret|].
    apply emitsOnly_bind; [apply emitsOnly_FindRoot_resolve, HFindLeaf|].
    intros [e|]; [apply emitsOnly_ret|].
    apply emitsOnly_bind; [apply emitsOnly_FindDir_resolve, HFindLeaf|].
    intros [rootID e]. destruct e; [apply emitsOnly_ret|].
    apply emitsOnly_bind; [apply methods_readMetaDataForPath, Hg|].
    intros [[item r] e]. destruct e; [apply emitsOnly_ret|].
    destruct item as [i|]; [|apply emitsOnly_crash].
    destruct (OnedriveApi.Folder i) as [childCount|]; [|apply emitsOnly_ret].
    destruct (check && negb (childCount =? 0)); [apply emitsOnly_ret|].
    apply (emitsOnly_weaken (methodsOnly ["DELETE"])); [|apply methods_deleteObject].
    intros [] He; cbn in *; tauto.
  - intros [e|]; [apply emitsOnly_ret|]. unfold DirCache.FlushDirM. emitting.
Qed.

Lemma methods_DirMove (f : Fs) (src : option Fs) (srcRemote dstRemote : string) :
  emitsOnly (methodsOnly ["GET"; "POST"; "PATCH"]) (DirMove f src srcRemote dstRemote).
Proof.
  set (ms := ["GET"; "POST"; "PATCH"]).
  assert (In "GET" ms) as Hg by (cbn; auto).
  assert (In "POST" ms) as Hp by (cbn; auto).
  unfold DirMove. apply emitsOnly_bind.
  - unfold moveRequest. destruct src as [srcFs|]; [|apply emitsOnly_ret].
    destruct (_ || _); [apply emitsOnly_ret|].
    apply emitsOnly_bind; [apply methods_FindRoot; assumption|]. intros [e|].
    { apply emitsOnly_ret. }
    apply emitsOnly_bind.
    { destruct (String.eqb dstRemote ""); [|apply methods_FindRoot; assumption].
      emitting. }
    intros [e|]; [apply emitsOnly_ret|].
    apply emitsOnly_bind; [apply methods_FindPath; assumption|].
    intros [[leaf dstDirectoryID] e]. destruct e; [apply emitsOnly_ret|].
    destruct (parseDirID dstDirectoryID) as [[parsedDstDirID ?] ?].
    apply emitsOnly_bind.
    { destruct (String.eqb dstRemote ""); [apply emitsOnly_ret|].
      apply emitsOnly_bind; [apply methods_FindDir; assumption|].
      intros [id e]. destruct e as [e|]; [|apply emitsOnly_ret].
      destruct (isErrorDirNotFound e); apply emitsOnly_ret. }
    intros [e|]; [apply emitsOnly_ret|].
    apply emitsOnly_bind; [apply methods_FindDir; assumption|].
    intros [srcID e]. destruct e; [apply emitsOnly_ret|].
    apply emitsOnly_bind; [apply methods_readMetaDataForPath, Hg|].
    intros [[srcInfo r] e]. destruct e; [apply emitsOnly_ret|].
    destruct srcInfo as [info|]; [|apply emitsOnly_crash].
    apply emitsOnly_bind.
    + apply (methods_Call ms (pacer f) _ _
               (fun r st => (decodeItem (payload r) (fst st), resp r))).
      rewrite newOptsCall_Method. cbn. auto.
    + intros [st e]. destruct e; apply emitsOnly_ret.
  - intros [e|srcFs]; [apply emitsOnly_ret|]. unfold DirCache.FlushDirM. emitting.
Qed.

(** What the changing operations of the OneDrive backend can send,
    whether they return or panic: [Mkdir] sends GET and POST
    requests only; [DirMove] may also send a PATCH; [Rmdir] and
    [Purge] send GET and DELETE requests only; [Remove] sends only
    DELETE requests. *)
Theorem onedrive_requests_by_operation (f : Fs) (o : Object) (src : option Fs)
  (dir srcRemote dstRemote : string) :
  emitsOnly (methodsOnly ["GET"; "POST"]) (Mkdir f dir) /\
  emitsOnly (methodsOnly ["GET"; "POST"; "PATCH"]) (DirMove f src srcRemote dstRemote) /\
  emitsOnly (methodsOnly ["GET"; "DELETE"]) (Rmdir f dir) /\
  emitsOnly (methodsOnly ["GET"; "DELETE"]) (Purge f) /\
  emitsOnly (methodsOnly ["DELETE"]) (Remove o).
Proof.
  split; [apply methods_Mkdir; cbn; auto|].
  split; [apply methods_DirMove|].
  split; [apply methods_purgeCheck|].
  split; [apply methods_purgeCheck | apply methods_deleteObject].
Qed.
End OnedriveRequestKinds.

(** ** pCloud: [Put] uploads at most once *)

Section PcloudPut.
Context `{Env}.
Import Pcloud.

(** A run of [Put] that returns has sent at most one upload request,
    and none at all when it returns a nil object: then the directory
    of the object could not be found or created. *)
Theorem Put_uploads_at_most_once (f : Fs) (inp remote : string) (size modTime : Z)
  (w w' : World) (r : option Object * option error) :
  Put f inp remote size modTime w = Done r w' ->
  exists evs,
    trace w' = (trace w ++ evs)%list /\ (uploads evs <= 1)%nat /\
    (fst r = None -> uploads evs = O).
Proof.
  unfold Put, createObject. intros Hrun. rewrite bind_bind in Hrun.
  apply bind_inv in Hrun as ([[leaf directoryID] e] & w1 & Hfind & Hrun).
  destruct (emitsOnly_Done _ _ _ _ _ (emitsOnly_pcloud_FindRootAndPath f remote true) Hfind)
    as (evs1 & Htr1 & HP1).
  apply uploads_none in HP1.
  destruct e as [e|].
  - rewrite bind_ret in Hrun. injection Hrun as <- <-.
    exists evs1. split; [exact Htr1|]. split; [lia | intros _; exact HP1].
  - rewrite bind_ret in Hrun. cbn beta iota in Hrun.
    apply bind_inv in Hrun as ([o' e'] & w2 & Hup & Hrun).
    injection Hrun as <- <-.
    unfold Update in Hup.
    apply bind_inv in Hup as ([] & wa & Hstart & Hup).
    apply bind_inv in Hup as (r' & wb & Hdo & Hup).
    apply bind_inv in Hup as ([] & wc & Hstop & Hup).
    injection Hup as _ <-.
    destruct (doUpdate_events _ _ _ _ _ _ _ Hdo) as (evs2 & Htr2 & Hle & _).
    exists (evs1 ++ [EvRenewStart] ++ evs2 ++ [EvRenewStop])%list.
    split; [|split].
    + injection Hstop as <-. cbn [trace]. rewrite Htr2.
      injection Hstart as <-. cbn [trace]. rewrite Htr1.
      rewrite <- !app_assoc. reflexivity.
    + rewrite !uploads_app, HP1. cbn. lia.
    + cbn [fst]. discriminate.
Qed.
End PcloudPut.

Section PcloudPutWitness.
Import Pcloud.

Definition putRun : Res (option Object * option error) :=
  @Put Example.pcloudEnv treeFs "hello" "a/b/new.bin" 5 0 (snd treeStart).

Definition putResult : option Object * option error :=
  match putRun with Done r _ => r | _ => (None, None) end.
End PcloudPutWitness.

Lemma Put_uploads_at_most_once_witness :
  let H := Example.pcloudEnv in
  Pcloud.Put treeFs "hello" "a/b/new.bin" 5 0 (snd treeStart) =
    Done putResult (worldOr (snd treeStart) putRun) /\
  snd putResult = None /\
  exists evs,
    trace (worldOr (snd treeStart) putRun) = (trace (snd treeStart) ++ evs)%list /\
    (uploads evs <= 1)%nat.
Proof.
  intros H.
  assert (result putRun = Some putResult) as R by (vm_compute; reflexivity).
  pose proof (Done_eta putRun putResult (snd treeStart) R) as Hrun.
  split; [exact Hrun|]. split; [vm_compute; reflexivity|].
  destruct (Put_uploads_at_most_once treeFs "hello" "a/b/new.bin" 5 0 (snd treeStart)
              (worldOr (snd treeStart) putRun) putResult Hrun) as (evs & Htr & Hle & _).
  exists evs. split; [exact Htr | exact Hle].
Defined.

(** ** OneDrive: a listing in several pages *)

Section OnedrivePages.
Context `{Env}.
Import GoStrings DirCacheState Onedrive OnedriveApi.

(** The provider answers the request [opts] with a page of items and
    a link to the next page, without an error and without asking for
    a retry, and the request does not change its state. *)
Definition answersList (opts : Opts) (items : list Item) (link : string) : Prop :=
  forall s,
    exists r,
      serve s opts NoJson "" = (s, r) /\ err r = None /\
      payload r = OnedriveListPayload items link /\
      fst (shouldRetry (resp r) None) = false.

(** The pages a listing goes through from the request [opts]: every
    page but the last has items and a link to the next one; the last
    one has no item or no link. *)
Fixpoint paged (opts : Opts) (pages : list (list Item * string)) : Prop :=
  match pages with
  | [] => False
  | page :: rest =>
      answersList opts (fst page) (snd page) /\
      match rest with
      | [] => fst page = [] \/ snd page = EmptyString
      | _ => fst page <> [] /\ snd page <> EmptyString /\
             paged (withRootURL opts (snd page)) rest
      end
  end.

(** One request for each page, each to the link of the page before. *)
Fixpoint pageRequests (opts : Opts) (pages : list (list Item * string)) : list Event :=
  match pages with
  | [] => []
  | page :: rest =>
      EvCall opts NoJson "" :: pageRequests (withRootURL opts (snd page)) rest
  end.

Definition silent (e : Event) : Prop := False.

Lemma silent_trace {A : Type} (m : M A) (w w' : World) (a : A) :
  emitsOnly silent m -> m w = Done a w' -> trace w' = trace w.
Proof.
  intros Hm Hrun. destruct (emitsOnly_Done _ _ _ _ _ Hm Hrun) as (evs & Htr & HP).
  destruct evs as [|e evs]; [rewrite app_nil_r in Htr; exact Htr|].
  inversion HP as [|? ? He]. destruct He.
Qed.

Lemma silent_listEntry (f : Fs) (dir : string) (acc : list DirEntry * option error)
  (info : Item) :
  emitsOnly silent (listEntry f dir acc info).
Proof.
  unfold listEntry. destruct (Folder info).
  - unfold DirCache.PutM. emitting.
  - unfold newObjectWithInfo. emitting.
Qed.

Lemma silent_listItems (f : Fs) (dir : string) (items : list Item) :
  forall acc, emitsOnly silent (listItems false false (listEntry f dir) items acc).
Proof.
  induction items as [|item rest IH]; intros acc; cbn [listItems].
  - apply emitsOnly_ret.
  - destruct (if isSome (Folder item) then false else false); [apply IH|].
    destruct (Deleted item); [apply IH|].
    apply emitsOnly_bind; [apply silent_listEntry|]. intros [acc' stop].
    destruct stop; [apply emitsOnly_ret | apply IH].
Qed.

(** A call that is not retried leaves the trace of its one attempt. *)
Lemma Call_once {St : Type} (p : nat) (fn : St -> M (St * bool * option error))
  (st st' : St) (e : option error) (w w1 : World) :
  fn st w = Done (st', false, e) w1 ->
  exists w2, PacerCall.Call p fn st w = Done (st', e) w2 /\ trace w2 = trace w1.
Proof.
  intros Hfn. unfold PacerCall.Call, bind, getPacer.
  destruct (Pacer.retries _); cbn [PacerCall.attempts]; unfold bind at 1;
    rewrite Hfn; eexists; (split; reflexivity).
Qed.

Lemma listPages_paged (f : Fs) (dir : string) (pages : list (list Item * string)) :
  forall opts acc w fuel,
    paged opts pages -> (length pages <= fuel)%nat ->
    exists w',
      listPages fuel f opts false false (listEntry f dir) (acc, None) w =
        Done ((acc ++ map (itemEntry f dir)
                        (List.filter live (concat (map fst pages))))%list,
              None, false, None) w' /\
      trace w' = (trace w ++ pageRequests opts pages)%list.
Proof.
  induction pages as [|[items link] rest IH]; intros opts acc w fuel Hpaged Hfuel;
    [destruct Hpaged|].
  destruct fuel as [|k]; [cbn in Hfuel; lia|].
  cbn [paged fst snd] in Hpaged. destruct Hpaged as [Hans Hrest].
  cbn [listPages].
  match goal with |- context [PacerCall.Call (pacer f) ?fn0 ?st0] =>
    set (fn := fn0)
  end.
  destruct (Hans (server w)) as (r & Hs & He & Hp & Hr).
  assert (exists w1, fn (([], ""), None) w = Done (((items, link), resp r), false, None) w1 /\
                     trace w1 = (trace w ++ [EvCall opts NoJson ""])%list)
    as (w1 & Hfn & Htr1).
  { unfold fn, bind, call. rewrite Hs, He, Hp. cbn [decodeList fst].
    destruct (shouldRetry (resp r) None) as [retry e] eqn:Es.
    cbn [fst] in Hr. subst retry.
    pose proof (shouldRetry_snd (resp r) None) as Hsnd. rewrite Es in Hsnd.
    cbn [snd] in Hsnd. subst e. eexists. split; reflexivity. }
  destruct (Call_once (pacer f) fn _ _ _ _ _ Hfn) as (w2 & Hrun & Htr2).
  rewrite (bind_Done _ _ _ _ _ Hrun). cbn [fst snd map concat pageRequests].
  rewrite List.filter_app, map_app.
  destruct items as [|item items'].
  { (* an empty page ends the listing *)
    destruct rest as [|page rest'].
    - exists w2. cbn [List.filter map concat app pageRequests].
      rewrite app_nil_r. split; [reflexivity | congruence].
    - destruct Hrest as (Hne & _). congruence. }
  destruct (listItems_listEntry_onedrive f dir (item :: items') acc w2) as (w3 & Hitems).
  pose proof (silent_trace _ _ _ _ (silent_listItems f dir (item :: items') (acc, None))
                Hitems) as Htr3.
  rewrite (bind_Done _ _ _ _ _ Hitems). cbn beta iota.
  destruct rest as [|page rest'].
  - destruct Hrest as [Hnil | ->]; [discriminate|].
    exists w3. cbn [List.filter map concat app pageRequests]. rewrite app_nil_r.
    split; [reflexivity | congruence].
  - destruct Hrest as (_ & Hlink & Hnext).
    destruct link as [|c link']; [congruence|].
    destruct (IH (withRootURL opts (String c link'))
                (acc ++ map (itemEntry f dir) (List.filter live (item :: items')))%list
                w3 k Hnext) as (w' & Hrun' & Htr').
    { cbn [length] in Hfuel. cbn [length]. lia. }
    exists w'. rewrite Hrun', <- app_assoc. split; [reflexivity|].
    rewrite Htr', Htr3, Htr2, Htr1, <- app_assoc. reflexivity.
Qed.

(** [List] of the root of an [Fs] whose root is resolved goes
    through the pages of the listing, one request for each page, to
    the link the page before gave, until a page has no item or no
    link; it returns an entry for every item of these pages that is
    not deleted, in their order. *)
Theorem onedrive_List_follows_pages (f : Fs) (w : World)
  (pages : list (list Item * string)) (fuel : nat) :
  FoundRoot (cacheAt w (dirCache f)) = true ->
  paged (newOptsCall (DirCacheState.rootID (cacheAt w (dirCache f))) "GET"
           "/children?$top=1000") pages ->
  (length pages <= fuel)%nat ->
  exists w',
    List fuel f "" w =
      Done (map (itemEntry f "") (List.filter live (concat (map fst pages))), None) w' /\
    trace w' =
      (trace w ++
       pageRequests (newOptsCall (DirCacheState.rootID (cacheAt w (dirCache f))) "GET"
                       "/children?$top=1000") pages)%list.
Proof.
  intros Hf Hpaged Hfuel. unfold List.
  rewrite (bind_Done _ _ w w _ (FindRoot_found_onedrive f w Hf)).
  rewrite (bind_Done _ _ w w _ (FindDir_root_onedrive f false w)).
  unfold listAll.
  destruct (listPages_paged f "" pages _ [] w fuel Hpaged Hfuel) as (w' & Hrun & Htr).
  exists w'. rewrite (bind_Done _ _ _ _ _ Hrun). split; [reflexivity | exact Htr].
Qed.
End OnedrivePages.

Section OnedrivePagesExample.
Import Onedrive OnedriveApi.

(** A drive that lists the root in two pages of one file each. *)
Definition pagesServe (s : unit) (opts : Opts) (json : JsonRequest) (body : string)
  : unit * Reply :=
  (tt,
   if String.eqb (RootURL opts) "https://next.example/page2" then
     mkReply (Example.status 200) None (OnedriveListPayload [treeOther] "") O
   else
     mkReply (Example.status 200) None
       (OnedriveListPayload [treeReport] "https://next.example/page2") O).

Definition pagesEnv : Env := Example.env unit pagesServe.

Definition pagesFs : Fs :=
  mkFs "remote" "" (mkOptions (320 * 1024) "drive" "personal") O O "drive" "personal".

(** A world in which the root of [pagesFs] is resolved. *)
Definition pagesWorld : @World pagesEnv :=
  @mkWorld pagesEnv tt [] ∅ 1%nat
    {[ O := DirCacheState.resolved (DirCacheState.New "" "ROOT") "ROOT" ]} 1%nat.

Definition pagesOfRoot : list (list Item * string) :=
  [([treeReport], "https://next.example/page2"); ([treeOther], "")].
End OnedrivePagesExample.

Lemma onedrive_List_follows_pages_witness :
  let H := pagesEnv in
  let opts := Onedrive.newOptsCall "ROOT" "GET" "/children?$top=1000" in
  DirCacheState.FoundRoot (cacheAt pagesWorld (Onedrive.dirCache pagesFs)) = true /\
  paged opts pagesOfRoot /\
  exists w',
    Onedrive.List 2 pagesFs "" pagesWorld =
      Done (map (itemEntry pagesFs "") [treeReport; treeOther], None) w' /\
    trace w' =
      [EvCall opts NoJson "";
       EvCall (Onedrive.withRootURL opts "https://next.example/page2") NoJson ""].
Proof.
  intros H opts.
  assert (DirCacheState.FoundRoot (cacheAt pagesWorld (Onedrive.dirCache pagesFs)) = true)
    as Hfound by (vm_compute; reflexivity).
  assert (paged opts pagesOfRoot) as Hpaged.
  { split; [intros []; eexists; repeat split; reflexivity|].
    split; [discriminate|]. split; [discriminate|].
    split; [intros []; eexists; repeat split; reflexivity|].
    right. reflexivity. }
  split; [exact Hfound|]. split; [exact Hpaged|].
  exact (onedrive_List_follows_pages pagesFs pagesWorld pagesOfRoot 2 Hfound Hpaged
           (le_n 2)).
Defined.

(** ** pCloud: a root that is a directory, or is not there *)

Section PcloudNewFsPlain.
Context `{Env}.
Import GoStrings DirCacheState Pcloud PcloudApi.

(** On an account that answers listings with [contents]: when the
    configured root is an existing directory, or when no file has its
    path (its parent directory is missing, or holds no file of that
    name), [NewFs] returns without an error an [Fs] for the
    configured root, trimmed of its slashes; for an existing
    directory the cache of that [Fs] is resolved to it.  A root that
    does not exist is no error: nothing is created and nothing
    fails. *)
Theorem pcloud_NewFs_directory_or_missing (contents : string -> list Item)
  (name root : string) (m : Config) (w : World) :
  lists contents ->
  parseError m = None -> oauthError m = None ->
  (lookupDir contents rootID (segments (parsePath root)) <> None \/
   match lookupDir contents rootID (segments (fst (SplitPath (parsePath root)))) with
   | Some P =>
       findFile (contents (dirIDtoNumber P)) (snd (SplitPath (parsePath root))) = None
   | None => True
   end) ->
  exists f w1,
    NewFs name root m w = Done (Some f, None) w1 /\
    Pcloud.root f = parsePath root /\ Pcloud.name f = name /\
    forall id,
      lookupDir contents rootID (segments (parsePath root)) = Some id ->
      cacheAt w1 (dirCache f) = resolved (DirCacheState.New (parsePath root) rootID) id.
Proof.
  intros Hlists Hparse Hoauth Hcase.
  assert (startsWithSlash (parsePath root) = false) as Hstart
    by apply Trim_startsWithSlash.
  pose proof (SplitPath_leaf_noSlash (parsePath root)) as Hleaf.
  pose proof (SplitPath_parent_start _ Hstart) as HstartP.
  set (root' := parsePath root) in *.
  unfold NewFs. rewrite Hparse, Hoauth. fold root'.
  unfold PacerCall.New. rewrite (bind_Done _ _ _ _ _ (allocPacer_run _ w)).
  unfold DirCache.New at 1. rewrite (bind_Done _ _ _ _ _ (allocCache_run _ _)).
  cbn [nextCache nextPacer caches].
  match goal with |- context [bind (FindRoot ?g false) _ ?x] =>
    set (f := g); set (wb := x) end.
  assert (cacheAt wb (dirCache f) = DirCacheState.New root' rootID) as Hfresh.
  { unfold cacheAt, wb. cbn [caches dirCache f]. rewrite lookup_insert_eq. reflexivity. }
  destruct (FindRoot_fresh contents Hlists f root' wb Hfresh Hstart)
    as (wc & Hrun1 & Hn1 & _ & Hres1).
  rewrite (bind_Done _ _ _ _ _ Hrun1).
  destruct (lookupDir contents rootID (segments root')) as [id|] eqn:Eroot.
  { (* the root is a directory *)
    exists f, wc. split; [reflexivity|]. split; [reflexivity|]. split; [reflexivity|].
    intros id' [= <-]. exact Hres1. }
  destruct Hcase as [Hdir|Hnofile]; [congruence|].
  destruct (SplitPath root') as [newRoot leaf] eqn:Esplit. cbn [fst snd] in *.
  unfold DirCache.New at 1. rewrite (bind_Done _ _ _ _ _ (allocCache_run _ _)).
  match goal with |- context [bind (FindRoot ?g false) _ ?x] =>
    set (newF := g); set (wd := x) end.
  assert (cacheAt wd (dirCache newF) = DirCacheState.New newRoot rootID) as Hfresh2.
  { unfold cacheAt, wd. cbn [caches dirCache newF withDirCache].
    rewrite lookup_insert_eq. reflexivity. }
  destruct (FindRoot_fresh contents Hlists newF newRoot wd Hfresh2 HstartP)
    as (we & Hrun2 & Hn2 & _ & Hres).
  rewrite (bind_Done _ _ _ _ _ Hrun2).
  destruct (lookupDir contents rootID (segments newRoot)) as [P|] eqn:Eparent.
  - (* the parent is there, the file is not *)
    assert (FoundRoot (cacheAt we (dirCache newF)) = true) as Hfound.
    { rewrite Hres. reflexivity. }
    destruct (readMetaDataForPath_leaf contents Hlists newF leaf we Hfound Hleaf)
      as (wf & _ & Hmeta).
    rewrite Hres in Hmeta. cbn [DirCacheState.rootID resolved] in Hmeta.
    rewrite Hnofile in Hmeta.
    assert (newObjectWithInfo newF leaf None we =
              Done (None, Some ErrorObjectNotFound) wf) as Hobj.
    { unfold newObjectWithInfo, readMetaData. cbn [newObject hasMetaData fs remote].
      rewrite bind_bind. rewrite (bind_Done _ _ _ _ _ Hmeta). reflexivity. }
    rewrite (bind_Done _ _ _ _ _ Hobj).
    exists f, wf. split; [reflexivity|]. split; [reflexivity|]. split; [reflexivity|].
    discriminate.
  - (* the parent is missing *)
    exists f, we. split; [reflexivity|]. split; [reflexivity|]. split; [reflexivity|].
    discriminate.
Qed.
End PcloudNewFsPlain.

Lemma pcloud_NewFs_directory_or_missing_witness :
  let H := Example.pcloudEnv in
  let m := Pcloud.mkConfig None None in
  lists Example.pcloudFolder /\
  lookupDir Example.pcloudFolder Pcloud.rootID
    (DirCacheState.segments (Pcloud.parsePath "a/missing/")) = None /\
  findFile (Example.pcloudFolder "1") "missing" = None /\
  exists f w1,
    Pcloud.NewFs "remote" "a/missing/" m (@Example.emptyWorld Example.pcloudEnv tt) = Done (Some f, None) w1 /\
    Pcloud.root f = "a/missing".
Proof.
  intros H m. split; [exact example_lists|].
  split; [vm_compute; reflexivity|]. split; [vm_compute; reflexivity|].
  destruct (pcloud_NewFs_directory_or_missing Example.pcloudFolder "remote" "a/missing/"
              m (@Example.emptyWorld Example.pcloudEnv tt) example_lists eq_refl eq_refl)
    as (f & w1 & Hrun & Hroot & _).
  { right. vm_compute. reflexivity. }
  exists f, w1. split; [exact Hrun | exact Hroot].
Defined.

(** ** OneDrive: [Rmdir] of a directory that is not empty *)

Section OnedriveRmdir.
Context `{Env}.
Import GoStrings DirCacheState Onedrive OnedriveApi.

(** On a drive that answers metadata requests with [stat]: [Rmdir] of
    the root of an [Fs] whose root is resolved, when the drive reports
    the root as a folder with children, returns the error "folder not
    empty"; it has sent GET requests only, so nothing is deleted, and
    it leaves the directory caches as they were.  When the drive
    reports a file there it returns "not a folder" in the same
    way. *)
Theorem onedrive_Rmdir_refuses (stat : string -> option Item) (f : Fs) (w : World)
  (item : Item) :
  stats stat ->
  FoundRoot (cacheAt w (dirCache f)) = true ->
  path_Join (root f) "" <> EmptyString ->
  stat (path_Join (root f) "") = Some item ->
  Folder item <> Some 0 ->
  exists w' evs,
    Rmdir f "" w =
      Done (Some (ErrorNew (match Folder item with
                            | Some _ => "folder not empty"
                            | None => "not a folder"
                            end))) w' /\
    caches w' = caches w /\
    trace w' = (trace w ++ evs)%list /\ Forall isGet evs.
Proof.
  intros Hstats Hfound Hne Hstat Hcount.
  destruct (readMetaDataForPath_answers f (path_Join (root f) "") item w
              (Hstats _ _ Hstat)) as (rs & w' & [Hq _] & Hmeta).
  destruct (emitsOnly_Done _ _ _ _ _ (get_readMetaDataForPath f _) Hmeta)
    as (evs & Htr & Hget).
  exists w', evs. split; [|auto].
  unfold Rmdir, purgeCheck, purgeRequest.
  destruct (path_Join (root f) "") as [|c p] eqn:Ej; [congruence|].
  rewrite bind_bind.
  rewrite (bind_Done _ _ w w _ (FindRoot_found_onedrive f w Hfound)). cbn beta iota.
  rewrite bind_bind.
  rewrite (bind_Done _ _ w w _ (FindDir_root_onedrive f false w)). cbn beta iota.
  rewrite bind_bind. rewrite (bind_Done _ _ _ _ _ Hmeta). cbn beta iota.
  destruct (Folder item) as [n|]; [|reflexivity].
  assert ((n =? 0) = false) as -> by (apply Z.eqb_neq; congruence).
  reflexivity.
Qed.
End OnedriveRmdir.

Section OnedriveRmdirExample.
Import Onedrive.

Definition folderFs : Fs :=
  mkFs "remote" "a" (mkOptions (320 * 1024) "drive" "personal") O O "drive" "personal".

(** A world in which the root of [folderFs] is resolved to the
    folder [a] of the drive of [treeEnv]. *)
Definition folderWorld : @World treeEnv :=
  @mkWorld treeEnv tt [] ∅ 1%nat
    {[ O := DirCacheState.resolved (DirCacheState.New "a" "ROOT") "A" ]} 1%nat.
End OnedriveRmdirExample.

Lemma onedrive_Rmdir_refuses_witness :
  let H := treeEnv in
  stats treeStat /\
  DirCacheState.FoundRoot (cacheAt folderWorld (Onedrive.dirCache folderFs)) = true /\
  path_Join (Onedrive.root folderFs) "" = "a" /\
  treeStat "a" = Some treeFolder /\
  exists w' evs,
    Onedrive.Rmdir folderFs "" folderWorld =
      Done (Some (ErrorNew "folder not empty")) w' /\
    caches w' = caches folderWorld /\
    trace w' = (trace folderWorld ++ evs)%list /\ Forall isGet evs.
Proof.
  intros H.
  assert (DirCacheState.FoundRoot (cacheAt folderWorld (Onedrive.dirCache folderFs)) =
            true) as Hfound by (vm_compute; reflexivity).
  split; [exact treeStat_stats|]. split; [exact Hfound|].
  split; [reflexivity|]. split; [reflexivity|].
  apply (onedrive_Rmdir_refuses treeStat folderFs folderWorld treeFolder
           treeStat_stats Hfound); [discriminate | reflexivity | discriminate].
Defined.

(** ** OneDrive: a root that is a directory, and a root item without an identifier *)

Section OnedriveNewFsPlain.
Context `{Env}.
Import GoStrings DirCacheState Onedrive OnedriveApi.

(** On a drive that answers metadata requests with [stat]: when the
    configuration is complete and the configured root is an existing
    directory, [NewFs] returns without an error an [Fs] for the
    configured root, trimmed of its slashes, whose cache is resolved
    to the directory. *)
Theorem onedrive_NewFs_directory (stat : string -> option Item)
  (name root : string) (m : Config) (opt : Options) (w : World)
  (rootItem : Item) (id : string) :
  stats stat ->
  parsed m = inr opt -> (320 * 1024 | ChunkSize opt) ->
  DriveID opt <> EmptyString -> DriveType opt <> EmptyString ->
  oauthError m = None ->
  stat "" = Some rootItem -> ID rootItem <> EmptyString ->
  statDir stat "" (ID rootItem) (segments (parsePath root)) = Some (id, None) ->
  exists f w1,
    NewFs name root m w = Done (Some f, None) w1 /\
    Onedrive.root f = parsePath root /\
    cacheAt w1 (dirCache f) =
      resolved (DirCacheState.New (parsePath root) (ID rootItem)) id.
Proof.
  intros Hstats Hparsed Halign Hdrive Htype Hoauth Hroot Hrid Hdir.
  assert (startsWithSlash (parsePath root) = false) as Hstart
    by apply Trim_startsWithSlash.
  set (root' := parsePath root) in *.
  unfold NewFs. rewrite Hparsed.
  apply misaligned_spec in Halign. rewrite Halign.
  unfold connect.
  apply String.eqb_neq in Hdrive, Htype. rewrite Hdrive, Htype. cbn [orb].
  rewrite Hoauth. fold root'.
  unfold PacerCall.New. rewrite (bind_Done _ _ _ _ _ (allocPacer_run _ w)).
  match goal with |- context [bind (readMetaDataForPath ?g "") _ ?x] =>
    set (f0 := g); set (wa := x)
  end.
  destruct (readMetaDataForPath_answers f0 "" rootItem wa (Hstats _ _ Hroot))
    as (rs & wb & [Hqb Hnb] & Hmeta).
  rewrite (bind_Done _ _ _ _ _ Hmeta).
  apply String.eqb_neq in Hrid. rewrite Hrid.
  unfold DirCache.New at 1. rewrite (bind_Done _ _ _ _ _ (allocCache_run _ _)).
  match goal with |- context [bind (FindRoot ?g false) _ ?x] =>
    set (f := g); set (wc := x)
  end.
  assert (cacheAt wc (dirCache f) = DirCacheState.New root' (ID rootItem)) as Hfresh.
  { unfold cacheAt, wc. cbn [caches dirCache f withDirCache].
    rewrite lookup_insert_eq. reflexivity. }
  destruct (FindRoot_fresh_stat stat Hstats f root' (ID rootItem) wc _ Hfresh Hstart Hdir)
    as (wd & Hrun & _ & Hres).
  cbn [fst snd] in Hrun, Hres. rewrite (bind_Done _ _ _ _ _ Hrun).
  exists f, wd. split; [reflexivity|]. split; [reflexivity | exact (Hres eq_refl)].
Qed.

(** When the drive answers the request for its root with an item
    whose identifier is empty, and without an error, [NewFs] returns
    neither an [Fs] nor an error: the error it wraps is nil. *)
Theorem onedrive_NewFs_empty_root_id (name root : string) (m : Config) (opt : Options)
  (w : World) (rootItem : Item) :
  parsed m = inr opt -> (320 * 1024 | ChunkSize opt) ->
  DriveID opt <> EmptyString -> DriveType opt <> EmptyString ->
  oauthError m = None ->
  answers "" rootItem -> ID rootItem = EmptyString ->
  exists w1, NewFs name root m w = Done (None, None) w1.
Proof.
  intros Hparsed Halign Hdrive Htype Hoauth Hroot Hrid.
  unfold NewFs. rewrite Hparsed.
  apply misaligned_spec in Halign. rewrite Halign.
  unfold connect.
  apply String.eqb_neq in Hdrive, Htype. rewrite Hdrive, Htype. cbn [orb].
  rewrite Hoauth.
  unfold PacerCall.New. rewrite (bind_Done _ _ _ _ _ (allocPacer_run _ w)).
  match goal with |- context [bind (readMetaDataForPath ?g "") _ ?x] =>
    set (f0 := g); set (wa := x)
  end.
  destruct (readMetaDataForPath_answers f0 "" rootItem wa Hroot)
    as (rs & wb & _ & Hmeta).
  rewrite (bind_Done _ _ _ _ _ Hmeta). rewrite Hrid.
  exists wb. reflexivity.
Qed.
End OnedriveNewFsPlain.

Section OnedriveNoRootExample.
Import Onedrive OnedriveApi.

(** A drive that answers every request with an item without an
    identifier. *)
Definition blankServe (s : unit) (opts : Opts) (json : JsonRequest) (body : string)
  : unit * Reply :=
  (tt, mkReply (Example.status 200) None (OnedriveItemPayload emptyItem) O).

Definition blankEnv : Env := Example.env unit blankServe.
End OnedriveNoRootExample.

Lemma onedrive_NewFs_directory_witness :
  let H := treeEnv in
  let opt := Onedrive.mkOptions (320 * 1024) "drive" "personal" in
  let m := Onedrive.mkConfig (inr opt) None in
  stats treeStat /\ (320 * 1024 | Onedrive.ChunkSize opt) /\
  statDir treeStat "" "ROOT" (DirCacheState.segments (Onedrive.parsePath "/a/")) =
    Some ("A", None) /\
  exists f w1,
    Onedrive.NewFs "remote" "/a/" m (@Example.emptyWorld treeEnv tt) =
      Done (Some f, None) w1 /\
    Onedrive.root f = "a".
Proof.
  intros H opt m.
  assert (320 * 1024 | Onedrive.ChunkSize opt) as Hdiv by (exists 1; reflexivity).
  split; [exact treeStat_stats|]. split; [exact Hdiv|].
  split; [vm_compute; reflexivity|].
  destruct (onedrive_NewFs_directory treeStat "remote" "/a/" m opt
              (@Example.emptyWorld treeEnv tt) treeRoot "A")
    as (f & w1 & Hrun & Hroot & _);
    [ exact treeStat_stats | reflexivity | exact Hdiv | discriminate | discriminate
    | reflexivity | reflexivity | discriminate | vm_compute; reflexivity | ].
  exists f, w1. split; [exact Hrun | exact Hroot].
Defined.

Lemma onedrive_NewFs_empty_root_id_witness :
  let H := blankEnv in
  let opt := Onedrive.mkOptions (320 * 1024) "drive" "personal" in
  let m := Onedrive.mkConfig (inr opt) None in
  (320 * 1024 | Onedrive.ChunkSize opt) /\
  answers "" OnedriveApi.emptyItem /\
  exists w1,
    Onedrive.NewFs "remote" "dir" m (@Example.emptyWorld blankEnv tt) =
      Done (None, None) w1.
Proof.
  intros H opt m.
  assert (320 * 1024 | Onedrive.ChunkSize opt) as Hdiv by (exists 1; reflexivity).
  assert (answers "" OnedriveApi.emptyItem) as Hans
    by (intros []; eexists; repeat split; reflexivity).
  split; [exact Hdiv|]. split; [exact Hans|].
  apply (onedrive_NewFs_empty_root_id "remote" "dir" m opt
           (@Example.emptyWorld blankEnv tt) OnedriveApi.emptyItem);
    [reflexivity | exact Hdiv | discriminate | discriminate | reflexivity
    | exact Hans | reflexivity].
Defined.

(** ** OneDrive: what is not there *)

Section OnedriveNotFound.
Context `{Env}.
Import GoStrings DirCacheState Onedrive OnedriveApi.

(** The provider answers the metadata request for [path] with the
    status 404 and the error code [itemNotFound], which is not
    retried, and the request does not change its state. *)
Definition missing (path : string) : Prop :=
  forall s,
    exists r rs,
      serve s (statOpts path) NoJson "" = (s, r) /\
      err r = Some (OnedriveError "itemNotFound") /\
      resp r = Some rs /\ StatusCode rs = 404 /\
      fst (shouldRetry (resp r) (err r)) = false.

Lemma readMetaDataForPath_missing (f : Fs) (path : string) (w : World) :
  missing path ->
  exists info rs w',
    readMetaDataForPath f path w =
      Done (info, Some rs, Some (OnedriveError "itemNotFound")) w' /\
    StatusCode rs = 404 /\ caches w' = caches w.
Proof.
  intros Hmiss. unfold readMetaDataForPath. fold (statOpts path).
  destruct (Hmiss (server w)) as (r & rs & Hs & He & Hrs & Hcode & Hr).
  match goal with |- context [PacerCall.Call (pacer f) ?fn0 ?st0] =>
    set (fn := fn0)
  end.
  assert (exists w1, fn (None, None) w =
                       Done ((decodeItem (payload r) None, Some rs), false,
                             Some (OnedriveError "itemNotFound")) w1 /\
                     quiet w w1) as (w1 & Hfn & Hq1).
  { unfold fn, bind, call. rewrite Hs. cbn [fst].
    pose proof (shouldRetry_snd (resp r) (err r)) as Hsnd.
    destruct (shouldRetry (resp r) (err r)) as [retry e] eqn:Es.
    cbn [fst] in Hr. cbn [snd] in Hsnd. subst retry e. rewrite He, Hrs.
    eexists. split; [reflexivity | split; reflexivity]. }
  destruct (Call_no_retry (pacer f) fn _ _ _ _ _ Hfn) as (w2 & Hrun & Hq2).
  exists (decodeItem (payload r) None), rs, w2.
  rewrite (bind_Done _ _ _ _ _ Hrun). split; [reflexivity|]. split; [exact Hcode|].
  destruct Hq1 as [Hc1 _]. destruct Hq2 as [Hc2 _]. congruence.
Qed.

(** When the drive has nothing at a path, both lookups say so
    without failing: [FindLeaf] answers not found with a nil error,
    and [NewObject] returns [fs.ErrorObjectNotFound] in place of the
    error of the drive.  Neither changes a directory cache. *)
Theorem onedrive_not_found (f : Fs) (pathID leaf parent remote : string) (w : World) :
  GetInv (cacheAt w (dirCache f)) pathID = Some parent ->
  missing (if FoundRoot (cacheAt w (dirCache f))
           then rootSlash f +:+ joinPath parent leaf
           else joinPath parent leaf) ->
  missing (srvPath (newObject f remote)) ->
  (exists w1, FindLeaf f pathID leaf w = Done ("", false, None) w1 /\
              caches w1 = caches w) /\
  (exists w2, newObjectWithInfo f remote None w = Done (None, Some ErrorObjectNotFound) w2 /\
              caches w2 = caches w).
Proof.
  intros Hinv Hleaf Hobj. split.
  - unfold FindLeaf.
    rewrite (bind_Done _ _ w w _ (readCache_run (dirCache f) w)).
    rewrite Hinv. fold (joinPath parent leaf).
    destruct (readMetaDataForPath_missing f _ w Hleaf) as (info & rs & w1 & Hrun & Hcode & Hc).
    exists w1. split; [|exact Hc].
    rewrite (bind_Done _ _ _ _ _ Hrun). cbn beta iota.
    rewrite Hcode. reflexivity.
  - destruct (readMetaDataForPath_missing f _ w Hobj) as (info & rs & w2 & Hrun & _ & Hc).
    exists w2. split; [|exact Hc].
    unfold newObjectWithInfo, readMetaData. cbn [hasMetaData newObject].
    fold (newObject f remote).
    rewrite bind_bind. cbn [fs newObject]. fold (newObject f remote).
    rewrite (bind_Done _ _ _ _ _ Hrun). reflexivity.
Qed.
End OnedriveNotFound.

Lemma onedrive_not_found_witness :
  let H := treeEnv in
  DirCacheState.GetInv (cacheAt folderWorld (Onedrive.dirCache folderFs)) "A" = Some "" /\
  missing "a/nothing" /\
  (exists w1, Onedrive.FindLeaf folderFs "A" "nothing" folderWorld =
                Done ("", false, None) w1 /\ caches w1 = caches folderWorld) /\
  (exists w2, Onedrive.newObjectWithInfo folderFs "nothing" None folderWorld =
                Done (None, Some ErrorObjectNotFound) w2 /\
              caches w2 = caches folderWorld).
Proof.
  intros H.
  assert (DirCacheState.GetInv (cacheAt folderWorld (Onedrive.dirCache folderFs)) "A" =
            Some "") as Hinv by (vm_compute; reflexivity).
  assert (missing "a/nothing") as Hmiss.
  { intros []. eexists. eexists. split; [reflexivity|].
    split; [reflexivity|]. split; [reflexivity|]. split; reflexivity. }
  split; [exact Hinv|]. split; [exact Hmiss|].
  exact (onedrive_not_found folderFs "A" "nothing" "" "nothing" folderWorld
           Hinv Hmiss Hmiss).
Defined.
